(** * The train / validation / test splitting engine of [analyzer/views.py]

    A shallow embedding of [_split_dataframe] (uniform split) and
    [_stratified_split] (label-stratified split), together with the part of
    pandas and NumPy they call.

    Modelling conventions.
    - A [DataFrame] is its column names and its rows in order; a row carries
      its index label and its cells.
    - Python floats have two readings. Module [Val] reads them as exact
      rationals ([Q]): [int(0.6 * n)] is the truncation of the rational
      [6/10 * n]. It serves for [_split_dataframe], for the ratios the
      program uses (where binary64 gives the same integers:
      [float_cuts_agree], [default_ratios_agree]) and for what holds whatever
      the cuts are. Module [Val64] reads them as binary64 floats, every
      operation rounded as Python rounds it; it serves wherever the value of
      a cut or the verdict of the assertion on the ratios matters.
    - Python exceptions are the constructors of [exception]; a function that
      can raise returns a [result].
    - The random streams of NumPy (the bit generator behind
      [np.random.default_rng] and the legacy [RandomState] used by
      [DataFrame.sample]) are an interface, class [RandomLib]: the model
      fixes what the callers rely on (a shuffle permutes, and depends on the
      generator state and on the length only), not the bit streams. *)

From Stdlib Require Import String Ascii.
From Stdlib Require Import List ZArith QArith Qabs Qround Qcanon Bool.
From Stdlib Require Import Lia Permutation Arith PeanoNat SpecFloat.
From Stdlib Require Import DecimalString DecimalNat Sorted.
Import ListNotations.

Local Open Scope nat_scope.
Local Open Scope list_scope.

(** ** Python results and exceptions *)

Inductive exception : Type :=
| AssertionError
| KeyError
| ValueError
| IndexError
| TypeError
| OverflowError.

Inductive result (A : Type) : Type :=
| Ok (a : A)
| Raise (e : exception).

Arguments Ok {A} a.
Arguments Raise {A} e.

Definition bind {A B : Type} (r : result A) (k : A -> result B) : result B :=
  match r with
  | Ok a => k a
  | Raise e => Raise e
  end.

Declare Scope py_scope.
Delimit Scope py_scope with py.
Notation "x <- e ;; k" := (bind e (fun x => k))
  (at level 61, e at next level, right associativity) : py_scope.
Notation "' p <- e ;; k" := (bind e (fun x => match x with p => k end))
  (at level 61, p pattern, e at next level, right associativity) : py_scope.
Local Open Scope py_scope.

(** [assert cond] *)
Definition py_assert (cond : bool) : result unit :=
  if cond then Ok tt else Raise AssertionError.

(** ** Numbers *)

(** [int(x)] on a float: truncation toward zero. *)
Definition py_int (x : Q) : Z := Z.quot (Qnum x) (Zpos (Qden x)).

(** [x < y] on floats. *)
Definition Qltb (x y : Q) : bool := negb (Qle_bool y x).

(** [float(n)] for a length. *)
Definition of_len (n : nat) : Q := inject_Z (Z.of_nat n).

(** [np.arange(n)] *)
Definition arange (n : nat) : list nat := seq 0 n.

(** ** Binary64, for checking the rational reading of floats

    Python's [float] is IEEE binary64 with rounding to nearest even. Module
    [Float64] has the binary64 operations the two functions use and the
    constants they use; [float_cuts_agree] and [float_assertion_agrees]
    below check that, on these constants, the reading on exact rationals
    gives the same integers and the same verdict. *)

Module Float64.

Definition prec : Z := 53.
Definition emax : Z := 1024.

(** [float(n)] *)
Definition of_Z (z : Z) : spec_float := binary_normalize prec emax z 0 false.

Definition mul : spec_float -> spec_float -> spec_float := SFmul prec emax.
Definition add : spec_float -> spec_float -> spec_float := SFadd prec emax.
Definition sub : spec_float -> spec_float -> spec_float := SFsub prec emax.

(** [int(x)]: truncation toward zero; [None] stands for the error Python
    raises on an infinity or a NaN. *)
Definition to_int (x : spec_float) : option Z :=
  match x with
  | S754_zero _ => Some 0%Z
  | S754_finite s m e =>
      let v := if (0 <=? e)%Z then (Zpos m * 2 ^ e)%Z
               else (Zpos m / 2 ^ (- e))%Z in
      Some (if s then (- v)%Z else v)
  | _ => None
  end.

(** The literals [0.6], [0.8], [0.2], [0.5], [0.3] and [1e-6]. *)
Definition f0_6 : spec_float := S754_finite false 5404319552844595 (-53).
Definition f0_8 : spec_float := S754_finite false 7205759403792794 (-53).
Definition f0_2 : spec_float := S754_finite false 7205759403792794 (-55).
Definition f0_5 : spec_float := S754_finite false 4503599627370496 (-53).
Definition f0_3 : spec_float := S754_finite false 5404319552844595 (-54).
Definition f1e_6 : spec_float := S754_finite false 4722366482869645 (-72).

(** [abs(sum(ratios) - 1.0) < 1e-6] *)
Definition ratios_sum_ok (r0 r1 r2 : spec_float) : bool :=
  SFltb (SFabs (sub (add (add (add (of_Z 0) r0) r1) r2) (of_Z 1))) f1e_6.

(** Both readings of [int(r * n)] agree. *)
Definition cut_agrees (r : spec_float) (q : Q) (n : nat) : bool :=
  match to_int (mul r (of_Z (Z.of_nat n))) with
  | Some t => (t =? Z.quot (Qnum (q * inject_Z (Z.of_nat n)))
                      (Zpos (Qden (q * inject_Z (Z.of_nat n)))))%Z
  | None => false
  end.

End Float64.

(** ** Python slicing [a[lo:hi]] with step 1: a negative bound counts from
    the end, and every bound is clipped to [0, len]. *)

Definition slice_bound (n i : Z) : Z :=
  if (i <? 0)%Z then Z.max (i + n) 0 else Z.min i n.

Definition py_slice {A : Type} (lo hi : option Z) (a : list A) : list A :=
  let n := Z.of_nat (length a) in
  let start := match lo with None => 0%Z | Some i => slice_bound n i end in
  let stop := match hi with None => n | Some i => slice_bound n i end in
  firstn (Z.to_nat (stop - start)) (skipn (Z.to_nat start) a).

(** ** Tables *)

(** A cell is numeric, text or missing (NaN). *)
Inductive value : Type :=
| Num (x : Qc)
| Text (s : string)
| Missing.

Definition value_eq_dec (u v : value) : {u = v} + {u <> v}.
Proof.
  decide equality; [apply Qc_eq_dec | apply string_dec].
Defined.

Definition value_eqb (u v : value) : bool :=
  if value_eq_dec u v then true else false.

(** The order in which [groupby] (with [sort=True], [dropna=False]) yields its
    keys: numbers by value, then text by code points, the missing key last. *)
Definition value_leb (u v : value) : bool :=
  match u, v with
  | Num x, Num y => match (x ?= y)%Qc with Gt => false | _ => true end
  | Num _, _ => true
  | Text _, Num _ => false
  | Text s, Text t => match String.compare s t with Gt => false | _ => true end
  | Text _, Missing => true
  | Missing, Missing => true
  | Missing, _ => false
  end.

Record row : Type := mk_row {
  row_label : Z;             (* the index label of the row *)
  row_cells : list value     (* one cell per column, in column order *)
}.

Record DataFrame : Type := mk_frame {
  columns : list string;
  rows : list row
}.

(** [len(df)] *)
Definition len (df : DataFrame) : nat := length (rows df).

(** The index of a frame: the labels of its rows. *)
Definition index (df : DataFrame) : list Z := map row_label (rows df).

(** The cell of a row in the column at position [c]; a row shorter than the
    header reads as missing there. *)
Definition cell (c : nat) (r : row) : value := nth c (row_cells r) Missing.

(** Selection of rows by position; [None] when a position is out of bounds. *)
Fixpoint take_rows (rs : list row) (positions : list nat) : option (list row) :=
  match positions with
  | [] => Some []
  | i :: rest =>
      match nth_error rs i, take_rows rs rest with
      | Some r, Some out => Some (r :: out)
      | _, _ => None
      end
  end.

(** [df.iloc[positions]] with an integer array: the rows at these positions,
    each with its index label; [IndexError] when a position is out of
    bounds. *)
Definition iloc (df : DataFrame) (positions : list nat) : result DataFrame :=
  match take_rows (rows df) positions with
  | Some rs => Ok (mk_frame (columns df) rs)
  | None => Raise IndexError
  end.

(** [df.reset_index(drop=True)]: the labels become [0 .. len-1]. *)
Definition relabel (rs : list row) : list row :=
  map (fun '(i, r) => mk_row (Z.of_nat i) (row_cells r))
      (combine (seq 0 (length rs)) rs).

Definition reset_index (df : DataFrame) : DataFrame :=
  mk_frame (columns df) (relabel (rows df)).

(** [pd.concat(parts, axis=0)] for frames that have the columns of one table
    (every part here is cut from the same table): the rows one part after
    the other; [ValueError] when there is no part. *)
Definition pd_concat (parts : list DataFrame) : result DataFrame :=
  match parts with
  | [] => Raise ValueError
  | p :: _ => Ok (mk_frame (columns p) (flat_map rows parts))
  end.

(** The positions at which a name occurs in the header. *)
Fixpoint occurrences (name : string) (cols : list string) (i : nat) : list nat :=
  match cols with
  | [] => []
  | c :: rest =>
      if String.eqb c name then i :: occurrences name rest (S i)
      else occurrences name rest (S i)
  end.

(** The column a [groupby] key names: [KeyError] when no column has the name,
    [ValueError] (the grouper is not one-dimensional) when several have. *)
Definition column_position (name : string) (cols : list string) : result nat :=
  match occurrences name cols 0 with
  | [] => Raise KeyError
  | [c] => Ok c
  | _ => Raise ValueError
  end.

(** Insertion sort of the group keys. *)
Fixpoint insert_key (k : value) (ks : list value) : list value :=
  match ks with
  | [] => [k]
  | k' :: rest => if value_leb k k' then k :: ks else k' :: insert_key k rest
  end.

Definition sort_keys (ks : list value) : list value :=
  fold_right insert_key [] ks.

(** The distinct keys of a column, in the order [groupby] yields them. *)
Definition group_keys (c : nat) (rs : list row) : list value :=
  sort_keys (nodup value_eq_dec (map (cell c) rs)).

(** The rows of the group of key [k], in table order. *)
Definition group_rows (c : nat) (k : value) (rs : list row) : list row :=
  filter (fun r => value_eqb (cell c r) k) rs.

(** [df.groupby(label_col, dropna=False)], as the list of [(key, group)] it
    iterates over. *)
Definition groupby (df : DataFrame) (label_col : string)
  : result (list (value * DataFrame)) :=
  c <- column_position label_col (columns df) ;;
  Ok (map (fun k => (k, mk_frame (columns df) (group_rows c k (rows df))))
          (group_keys c (rows df))).

(** ** The random number library *)

Class RandomLib : Type := {
  (** the state of the bit generator of a [Generator] *)
  bit_generator : Type;
  (** the state [default_rng(seed)] starts from, for a seed it accepts *)
  seed_sequence : Z -> bit_generator;
  (** [Generator.shuffle] on an array of length [n]: the position each slot
      takes its element from, and the state after the draw *)
  shuffle_draw : bit_generator -> nat -> list nat * bit_generator;
  shuffle_draw_perm :
    forall g n, Permutation (fst (shuffle_draw g n)) (seq 0 n);
  (** [RandomState(seed).permutation(n)] for a seed it accepts *)
  legacy_permutation : Z -> nat -> list nat;
  legacy_permutation_perm :
    forall s n, Permutation (legacy_permutation s n) (seq 0 n)
}.

(** ** The two functions on values *)

Module Val.

Section Splitting.

Context {R : RandomLib}.

(** [np.random.default_rng(seed)]: a negative seed is refused. *)
Definition default_rng (seed : Z) : result bit_generator :=
  if (seed <? 0)%Z then Raise ValueError else Ok (seed_sequence seed).

(** [rng.shuffle(a)]: the array after the in-place shuffle, and the
    generator after it. *)
Definition shuffle (rng : bit_generator) (a : list nat)
  : list nat * bit_generator :=
  let '(p, rng') := shuffle_draw rng (length a) in
  (map (fun i => nth i a 0) p, rng').

(** [df.sample(frac=1.0, random_state=seed)]: all the rows, in the order of a
    permutation drawn from [RandomState(seed)], which accepts the seeds of
    [0 .. 2^32 - 1]. *)
Definition sample (df : DataFrame) (seed : Z) : result DataFrame :=
  if ((seed <? 0) || (2 ^ 32 <=? seed))%Z then Raise ValueError
  else iloc df (legacy_permutation seed (len df)).

(** ** [_split_dataframe]: "Simple aleatorio: 60%/20%/20%" *)

Definition _split_dataframe (df : DataFrame) (seed : Z)
  : result (DataFrame * DataFrame * DataFrame) :=
  let n := len df in
  rng <- default_rng seed ;;
  let '(indices, _) := shuffle rng (arange n) in
  let t1 := py_int ((6 # 10) * of_len n) in
  let t2 := py_int ((8 # 10) * of_len n) in
  let train_idx := py_slice None (Some t1) indices in
  let val_idx := py_slice (Some t1) (Some t2) indices in
  let test_idx := py_slice (Some t2) None indices in
  train <- iloc df train_idx ;;
  val <- iloc df val_idx ;;
  test <- iloc df test_idx ;;
  Ok (train, val, test).

(** ** [_stratified_split] *)

(** The body of the loop over the groups: the three lists of parts, in group
    order. *)
Fixpoint split_groups (r0 r1 : Q) (rng : bit_generator)
    (groups : list (value * DataFrame))
  : result (list DataFrame * list DataFrame * list DataFrame) :=
  match groups with
  | [] => Ok ([], [], [])
  | (_, group) :: rest =>
      let n := len group in
      let '(idx, rng') := shuffle rng (arange n) in
      let n_train := py_int (r0 * of_len n) in
      let n_val := py_int (r1 * of_len n) in
      train_part <- iloc group (py_slice None (Some n_train) idx) ;;
      val_part <-
        iloc group (py_slice (Some n_train) (Some (n_train + n_val)%Z) idx) ;;
      test_part <- iloc group (py_slice (Some (n_train + n_val)%Z) None idx) ;;
      ' (train_parts, val_parts, test_parts) <-
        split_groups r0 r1 rng' rest ;;
      Ok (train_part :: train_parts, val_part :: val_parts,
          test_part :: test_parts)
  end.

(** [pd.concat(parts, axis=0).sample(frac=1.0, random_state=seed)
       .reset_index(drop=True)] *)
Definition pool (parts : list DataFrame) (seed : Z) : result DataFrame :=
  whole <- pd_concat parts ;;
  shuffled <- sample whole seed ;;
  Ok (reset_index shuffled).

(** [abs(sum(ratios) - 1.0) < 1e-6] *)
Definition ratios_sum_ok (ratios : Q * Q * Q) : bool :=
  let '(r0, r1, r2) := ratios in
  Qltb (Qabs (0 + r0 + r1 + r2 - 1)) (1 # 1000000).

Definition _stratified_split (df : DataFrame) (label_col : string)
    (seed : Z) (ratios : Q * Q * Q)
  : result (DataFrame * DataFrame * DataFrame) :=
  _ <- py_assert (ratios_sum_ok ratios) ;;
  rng <- default_rng seed ;;
  groups <- groupby df label_col ;;
  ' (train_parts, val_parts, test_parts) <-
    split_groups (fst (fst ratios)) (snd (fst ratios)) rng groups ;;
  train_df <- pool train_parts seed ;;
  val_df <- pool val_parts seed ;;
  test_df <- pool test_parts seed ;;
  Ok (train_df, val_df, test_df).

End Splitting.

End Val.

Import Val.

(** ** The two functions on the object store

    The same two functions with Python's objects made explicit: a table, an
    index array and a generator live in a store and are passed by
    reference. [rng.shuffle(a)] writes into the array [a] and into the
    generator; every pandas call used here builds a new table. The lists
    [train_parts], [val_parts] and [test_parts] are local and never aliased:
    they are lists of references. A slice of an index array is taken after
    the last write into the array, so the view NumPy returns reads as a copy. *)

Module Imp.

Section Store.

Context {R : RandomLib}.

Definition loc : Type := nat.

Inductive object : Type :=
| ObjFrame (f : DataFrame)
| ObjArray (a : list nat)
| ObjGenerator (g : bit_generator).

Definition heap : Type := list object.

Definition lookup (h : heap) (l : loc) : option object := nth_error h l.

Fixpoint update (l : loc) (o : object) (h : heap) : heap :=
  match h, l with
  | [], _ => []
  | _ :: rest, O => o :: rest
  | x :: rest, S l' => x :: update l' o rest
  end.

(** A program: from a store to a result (a value or an exception) and the
    store it leaves. *)
Definition prog (A : Type) : Type := heap -> result A * heap.

Definition pret {A : Type} (a : A) : prog A := fun h => (Ok a, h).

Definition pbind {A B : Type} (m : prog A) (k : A -> prog B) : prog B :=
  fun h =>
    match m h with
    | (Ok a, h') => k a h'
    | (Raise e, h') => (Raise e, h')
    end.

Definition lift {A : Type} (r : result A) : prog A := fun h => (r, h).

Definition new (o : object) : prog loc :=
  fun h => (Ok (length h), h ++ [o]).

Definition write (l : loc) (o : object) : prog unit :=
  fun h => (Ok tt, update l o h).

End Store.

Declare Scope prog_scope.
Delimit Scope prog_scope with prog.
Notation "x <- e ;; k" := (pbind e (fun x => k))
  (at level 61, e at next level, right associativity) : prog_scope.
Notation "' p <- e ;; k" := (pbind e (fun x => match x with p => k end))
  (at level 61, p pattern, e at next level, right associativity) : prog_scope.

Section Programs.

Context {R : RandomLib}.

Local Open Scope prog_scope.

(** Reading an object of the expected kind; [TypeError] otherwise. *)
Definition frame_at (l : loc) : prog DataFrame :=
  fun h =>
    match lookup h l with
    | Some (ObjFrame f) => (Ok f, h)
    | _ => (Raise TypeError, h)
    end.

Definition array_at (l : loc) : prog (list nat) :=
  fun h =>
    match lookup h l with
    | Some (ObjArray a) => (Ok a, h)
    | _ => (Raise TypeError, h)
    end.

Definition generator_at (l : loc) : prog bit_generator :=
  fun h =>
    match lookup h l with
    | Some (ObjGenerator g) => (Ok g, h)
    | _ => (Raise TypeError, h)
    end.

(** [len(df)] *)
Definition py_len (df : loc) : prog nat :=
  f <- frame_at df ;; pret (len f).

(** [np.random.default_rng(seed)] *)
Definition np_default_rng (seed : Z) : prog loc :=
  g <- lift (default_rng seed) ;; new (ObjGenerator g).

(** [np.arange(n)] *)
Definition np_arange (n : nat) : prog loc := new (ObjArray (arange n)).

(** [rng.shuffle(a)]: in place, on the array and on the generator. *)
Definition rng_shuffle (rng a : loc) : prog unit :=
  g <- generator_at rng ;;
  arr <- array_at a ;;
  let '(arr', g') := shuffle g arr in
  _ <- write a (ObjArray arr') ;;
  write rng (ObjGenerator g').

(** [a[lo:hi]] *)
Definition np_slice (a : loc) (lo hi : option Z) : prog loc :=
  arr <- array_at a ;; new (ObjArray (py_slice lo hi arr)).

(** [df.iloc[a]] *)
Definition df_iloc (df a : loc) : prog loc :=
  f <- frame_at df ;;
  arr <- array_at a ;;
  out <- lift (iloc f arr) ;;
  new (ObjFrame out).

(** The group tables of a [groupby], one new table per key. *)
Fixpoint new_groups (groups : list (value * DataFrame))
  : prog (list (value * loc)) :=
  match groups with
  | [] => pret []
  | (k, g) :: rest =>
      l <- new (ObjFrame g) ;;
      ls <- new_groups rest ;;
      pret ((k, l) :: ls)
  end.

(** [df.groupby(label_col, dropna=False)] *)
Definition df_groupby (df : loc) (label_col : string)
  : prog (list (value * loc)) :=
  f <- frame_at df ;;
  groups <- lift (groupby f label_col) ;;
  new_groups groups.

Fixpoint frames_at (ls : list loc) : prog (list DataFrame) :=
  match ls with
  | [] => pret []
  | l :: rest =>
      f <- frame_at l ;;
      fs <- frames_at rest ;;
      pret (f :: fs)
  end.

(** [pd.concat(parts, axis=0)] *)
Definition pd_concat_refs (parts : list loc) : prog loc :=
  fs <- frames_at parts ;;
  out <- lift (pd_concat fs) ;;
  new (ObjFrame out).

(** [df.sample(frac=1.0, random_state=seed)] *)
Definition df_sample (df : loc) (seed : Z) : prog loc :=
  f <- frame_at df ;;
  out <- lift (sample f seed) ;;
  new (ObjFrame out).

(** [df.reset_index(drop=True)] *)
Definition df_reset_index (df : loc) : prog loc :=
  f <- frame_at df ;; new (ObjFrame (reset_index f)).

Definition _split_dataframe (df : loc) (seed : Z) : prog (loc * loc * loc) :=
  n <- py_len df ;;
  rng <- np_default_rng seed ;;
  indices <- np_arange n ;;
  _ <- rng_shuffle rng indices ;;
  let t1 := py_int ((6 # 10) * of_len n) in
  let t2 := py_int ((8 # 10) * of_len n) in
  train_idx <- np_slice indices None (Some t1) ;;
  val_idx <- np_slice indices (Some t1) (Some t2) ;;
  test_idx <- np_slice indices (Some t2) None ;;
  train <- df_iloc df train_idx ;;
  val <- df_iloc df val_idx ;;
  test <- df_iloc df test_idx ;;
  pret (train, val, test).

Fixpoint split_groups (r0 r1 : Q) (rng : loc) (groups : list (value * loc))
  : prog (list loc * list loc * list loc) :=
  match groups with
  | [] => pret ([], [], [])
  | (_, group) :: rest =>
      n <- py_len group ;;
      idx <- np_arange n ;;
      _ <- rng_shuffle rng idx ;;
      let n_train := py_int (r0 * of_len n) in
      let n_val := py_int (r1 * of_len n) in
      train_idx <- np_slice idx None (Some n_train) ;;
      train_part <- df_iloc group train_idx ;;
      val_idx <- np_slice idx (Some n_train) (Some (n_train + n_val)%Z) ;;
      val_part <- df_iloc group val_idx ;;
      test_idx <- np_slice idx (Some (n_train + n_val)%Z) None ;;
      test_part <- df_iloc group test_idx ;;
      ' (train_parts, val_parts, test_parts) <-
        split_groups r0 r1 rng rest ;;
      pret (train_part :: train_parts, val_part :: val_parts,
            test_part :: test_parts)
  end.

Definition pool (parts : list loc) (seed : Z) : prog loc :=
  whole <- pd_concat_refs parts ;;
  shuffled <- df_sample whole seed ;;
  df_reset_index shuffled.

Definition _stratified_split (df : loc) (label_col : string) (seed : Z)
    (ratios : Q * Q * Q) : prog (loc * loc * loc) :=
  _ <- lift (py_assert (ratios_sum_ok ratios)) ;;
  rng <- np_default_rng seed ;;
  groups <- df_groupby df label_col ;;
  ' (train_parts, val_parts, test_parts) <-
    split_groups (fst (fst ratios)) (snd (fst ratios)) rng groups ;;
  train_df <- pool train_parts seed ;;
  val_df <- pool val_parts seed ;;
  test_df <- pool test_parts seed ;;
  pret (train_df, val_df, test_df).

End Programs.

End Imp.

(** ** A small instance of the random number library

    A linear congruential generator that builds its permutations by
    insertion. It is one lawful [RandomLib], used to run the model on
    concrete tables; the generators of NumPy are other instances. *)

Module Lcg.

Definition step (s : Z) : Z :=
  ((6364136223846793005 * s + 1442695040888963407) mod 2 ^ 64)%Z.

Definition insert_at {A : Type} (i : nat) (x : A) (l : list A) : list A :=
  firstn i l ++ x :: skipn i l.

Fixpoint draw (s : Z) (n : nat) : list nat * Z :=
  match n with
  | O => ([], s)
  | S m =>
      let '(p, s1) := draw s m in
      let s2 := step s1 in
      (insert_at (Z.to_nat ((s2 / 2 ^ 33) mod Z.of_nat (S m))) m p, s2)
  end.

Lemma insert_at_perm {A : Type} (i : nat) (x : A) (l : list A) :
  Permutation (insert_at i x l) (x :: l).
Proof.
  unfold insert_at.
  rewrite <- (firstn_skipn i l) at 3.
  symmetry. apply Permutation_middle.
Qed.

Lemma draw_perm (s : Z) (n : nat) : Permutation (fst (draw s n)) (seq 0 n).
Proof.
  induction n as [|m IH]; simpl.
  - constructor.
  - destruct (draw s m) as [p s1] eqn:E. simpl in *.
    rewrite insert_at_perm.
    change (Permutation (m :: p) (seq 0 (S m))).
    rewrite seq_S. simpl.
    rewrite IH. apply Permutation_cons_append.
Qed.

End Lcg.

#[export] Instance LcgRandom : RandomLib := {|
  bit_generator := Z;
  seed_sequence := fun seed => Lcg.step seed;
  shuffle_draw := Lcg.draw;
  shuffle_draw_perm := Lcg.draw_perm;
  legacy_permutation := fun seed n => fst (Lcg.draw (Lcg.step (seed + 1)) n);
  legacy_permutation_perm := fun seed n => Lcg.draw_perm _ n
|}.

(** ** Facts on lists, slices and positions *)

Section ListFacts.

Context {A : Type}.

Lemma map_nth_seq (l : list A) (d : A) :
  map (fun i => nth i l d) (seq 0 (length l)) = l.
Proof.
  induction l as [|x l IH]; simpl; [reflexivity|].
  f_equal. rewrite <- seq_shift, map_map. exact IH.
Qed.

Lemma perm_select (l : list A) (d : A) (p : list nat) :
  Permutation p (seq 0 (length l)) ->
  Permutation (map (fun i => nth i l d) p) l.
Proof.
  intros H.
  apply Permutation_trans with (map (fun i => nth i l d) (seq 0 (length l))).
  - apply Permutation_map, H.
  - rewrite map_nth_seq. reflexivity.
Qed.

Lemma slice_split (a b : Z) (l : list A) :
  (0 <= a <= b)%Z ->
  py_slice None (Some a) l ++ py_slice (Some a) (Some b) l
    ++ py_slice (Some b) None l = l.
Proof.
  intros [Ha Hab]. unfold py_slice, slice_bound.
  set (n := Z.of_nat (length l)).
  destruct (a <? 0)%Z eqn:Ea; [apply Z.ltb_lt in Ea; lia|].
  destruct (b <? 0)%Z eqn:Eb; [apply Z.ltb_lt in Eb; lia|].
  simpl skipn.
  replace (Z.to_nat (Z.min a n - 0)) with (Z.to_nat (Z.min a n))
    by (f_equal; lia).
  set (i := Z.to_nat (Z.min a n)).
  set (j := Z.to_nat (Z.min b n)).
  assert (Hij : i <= j) by (unfold i, j; lia).
  assert (Hjn : j <= length l) by (unfold j, n; lia).
  replace (Z.to_nat (Z.min b n - Z.min a n)) with (j - i)
    by (unfold i, j; lia).
  replace (Z.to_nat (n - Z.min b n)) with (length l - j)
    by (unfold j, n; lia).
  rewrite (firstn_all2 (n := length l - j)) by (rewrite length_skipn; lia).
  rewrite <- (firstn_skipn i l) at 4.
  f_equal.
  rewrite <- (firstn_skipn (j - i) (skipn i l)) at 2.
  f_equal.
  rewrite skipn_skipn. f_equal. lia.
Qed.

Lemma slice_head_length (a : Z) (l : list A) :
  (0 <= a)%Z ->
  length (py_slice None (Some a) l) = Nat.min (Z.to_nat a) (length l).
Proof.
  intros Ha. unfold py_slice, slice_bound.
  destruct (a <? 0)%Z eqn:Ea; [apply Z.ltb_lt in Ea; lia|].
  simpl skipn. rewrite length_firstn. lia.
Qed.

Lemma slice_mid_length (a b : Z) (l : list A) :
  (0 <= a <= b)%Z ->
  length (py_slice (Some a) (Some b) l)
  = Nat.min (Z.to_nat b) (length l) - Nat.min (Z.to_nat a) (length l).
Proof.
  intros [Ha Hab]. unfold py_slice, slice_bound.
  destruct (a <? 0)%Z eqn:Ea; [apply Z.ltb_lt in Ea; lia|].
  destruct (b <? 0)%Z eqn:Eb; [apply Z.ltb_lt in Eb; lia|].
  rewrite length_firstn, length_skipn. lia.
Qed.

Lemma slice_tail_length (b : Z) (l : list A) :
  (0 <= b)%Z ->
  length (py_slice (Some b) None l)
  = length l - Nat.min (Z.to_nat b) (length l).
Proof.
  intros Hb. unfold py_slice, slice_bound.
  destruct (b <? 0)%Z eqn:Eb; [apply Z.ltb_lt in Eb; lia|].
  rewrite length_firstn, length_skipn. lia.
Qed.

Lemma firstn_incl (n : nat) (l : list A) : incl (firstn n l) l.
Proof.
  intros x Hx. rewrite <- (firstn_skipn n l). apply in_or_app. now left.
Qed.

Lemma skipn_incl (n : nat) (l : list A) : incl (skipn n l) l.
Proof.
  intros x Hx. rewrite <- (firstn_skipn n l). apply in_or_app. now right.
Qed.

Lemma slice_incl (lo hi : option Z) (l : list A) :
  incl (py_slice lo hi l) l.
Proof.
  unfold py_slice. intros x Hx.
  apply firstn_incl in Hx. apply skipn_incl in Hx. exact Hx.
Qed.

End ListFacts.

(** ** Facts on row selection *)

(** The row read where there is none (never reached below). *)
Definition no_row : row := mk_row 0 [].

(** The frame of the rows of [df] at the given positions. *)
Definition select (df : DataFrame) (positions : list nat) : DataFrame :=
  mk_frame (columns df) (map (fun i => nth i (rows df) no_row) positions).

Definition in_range (n : nat) (positions : list nat) : Prop :=
  forall i, In i positions -> i < n.

Lemma perm_in_range (n : nat) (p : list nat) :
  Permutation p (seq 0 n) -> in_range n p.
Proof.
  intros H i Hi. apply (Permutation_in _ H) in Hi.
  apply in_seq in Hi. lia.
Qed.

Lemma in_range_incl (n : nat) (p q : list nat) :
  incl q p -> in_range n p -> in_range n q.
Proof. intros Hqp Hp i Hi. apply Hp, Hqp, Hi. Qed.

Lemma take_rows_in_range (rs : list row) (ps : list nat) :
  in_range (length rs) ps ->
  take_rows rs ps = Some (map (fun i => nth i rs no_row) ps).
Proof.
  induction ps as [|i ps IH]; intros H; simpl; [reflexivity|].
  assert (Hi : i < length rs) by (apply H; now left).
  rewrite (nth_error_nth' rs no_row Hi).
  rewrite IH; [reflexivity|].
  intros j Hj. apply H. now right.
Qed.

Lemma take_rows_some (rs : list row) (ps : list nat) (out : list row) :
  take_rows rs ps = Some out -> in_range (length rs) ps.
Proof.
  revert out. induction ps as [|i ps IH]; intros out H j Hj.
  - destruct Hj.
  - simpl in H. destruct (nth_error rs i) eqn:E; [|discriminate].
    destruct (take_rows rs ps) eqn:E'; [|discriminate].
    destruct Hj as [<-|Hj].
    + apply nth_error_Some. congruence.
    + eapply IH; eauto.
Qed.

Lemma iloc_in_range (df : DataFrame) (ps : list nat) :
  in_range (len df) ps -> iloc df ps = Ok (select df ps).
Proof.
  intros H. unfold iloc. rewrite take_rows_in_range by exact H. reflexivity.
Qed.

Lemma iloc_ok_iff (df : DataFrame) (ps : list nat) :
  (exists f, iloc df ps = Ok f) <-> in_range (len df) ps.
Proof.
  split.
  - intros [f H]. unfold iloc in H.
    destruct (take_rows (rows df) ps) eqn:E; [|discriminate].
    eapply take_rows_some; eauto.
  - intros H. eexists. apply iloc_in_range, H.
Qed.

Lemma len_select (df : DataFrame) (ps : list nat) :
  len (select df ps) = length ps.
Proof. unfold len, select. simpl. apply length_map. Qed.

Lemma select_select (df : DataFrame) (ps qs : list nat) :
  in_range (length ps) qs ->
  select (select df ps) qs = select df (map (fun i => nth i ps 0) qs).
Proof.
  intros H. unfold select. simpl. f_equal.
  rewrite map_map. apply map_ext_in. intros i Hi.
  apply H in Hi.
  rewrite (nth_indep _ no_row (nth 0 (rows df) no_row))
    by (rewrite length_map; exact Hi).
  change (nth 0 (rows df) no_row)
    with ((fun j => nth j (rows df) no_row) 0).
  apply map_nth.
Qed.

(** ** Facts on the cut points *)

Lemma py_int_scaled (a : Z) (b : positive) (n : nat) :
  (0 <= a)%Z ->
  py_int ((a # b) * of_len n) = (a * Z.of_nat n / Zpos b)%Z.
Proof.
  intros Ha. unfold py_int, of_len. simpl.
  rewrite Pos.mul_1_r.
  apply Z.quot_div_nonneg; lia.
Qed.

Lemma py_int_nonneg (r : Q) (n : nat) :
  (0 <= r)%Q -> (0 <= py_int (r * of_len n))%Z.
Proof.
  intros Hr. destruct r as [a b]. unfold Qle in Hr. simpl in Hr.
  rewrite py_int_scaled by lia.
  apply Z.div_pos; lia.
Qed.

Lemma py_int_le_len (r : Q) (n : nat) :
  (0 <= r)%Q -> (r <= 1)%Q -> (py_int (r * of_len n) <= Z.of_nat n)%Z.
Proof.
  intros Hr Hr1. destruct r as [a b]. unfold Qle in Hr, Hr1. simpl in Hr, Hr1.
  rewrite py_int_scaled by lia.
  apply Z.div_le_upper_bound; nia.
Qed.

Lemma py_int_sum_le_len (r0 r1 : Q) (n : nat) :
  (0 <= r0)%Q -> (0 <= r1)%Q -> (r0 + r1 <= 1)%Q ->
  (py_int (r0 * of_len n) + py_int (r1 * of_len n) <= Z.of_nat n)%Z.
Proof.
  intros H0 H1 Hs. destruct r0 as [a b], r1 as [c d].
  unfold Qle, Qplus in *. simpl in *.
  rewrite !py_int_scaled by lia.
  set (m := Z.of_nat n). assert (Hm : (0 <= m)%Z) by (unfold m; lia).
  assert (Ha := Z.mul_div_le (a * m) (Zpos b) eq_refl).
  assert (Hc := Z.mul_div_le (c * m) (Zpos d) eq_refl).
  set (x := (a * m / Zpos b)%Z) in *.
  set (y := (c * m / Zpos d)%Z) in *.
  assert (Hx : (0 <= x)%Z) by (apply Z.div_pos; nia).
  assert (Hy : (0 <= y)%Z) by (apply Z.div_pos; nia).
  rewrite Pos2Z.inj_mul in Hs.
  assert (Hbd : (Zpos b * Zpos d * (x + y) <= Zpos b * Zpos d * m)%Z) by nia.
  apply Z.mul_le_mono_pos_l in Hbd; [exact Hbd | lia].
Qed.

Lemma uniform_cuts (n : nat) :
  (0 <= py_int ((6 # 10) * of_len n)
     <= py_int ((8 # 10) * of_len n))%Z
  /\ (py_int ((8 # 10) * of_len n) <= Z.of_nat n)%Z.
Proof.
  rewrite !py_int_scaled by lia.
  split; [split|].
  - apply Z.div_pos; lia.
  - apply Z.div_le_mono; lia.
  - apply Z.div_le_upper_bound; lia.
Qed.

(** ** The rational reading of floats, checked against binary64 *)

Lemma float_literals_valid :
  forallb (valid_binary Float64.prec Float64.emax)
    [Float64.f0_6; Float64.f0_8; Float64.f0_2; Float64.f0_5; Float64.f0_3;
     Float64.f1e_6] = true.
Proof. vm_compute. reflexivity. Qed.

(** For every table of less than 2000 rows, [int(0.6 * n)], [int(0.8 * n)]
    and [int(0.2 * n)] computed in binary64 are the integers the model
    computes. *)
Lemma float_cuts_agree (n : nat) :
  n < 2000 ->
  Float64.to_int (Float64.mul Float64.f0_6 (Float64.of_Z (Z.of_nat n)))
  = Some (py_int ((6 # 10) * of_len n))
  /\ Float64.to_int (Float64.mul Float64.f0_8 (Float64.of_Z (Z.of_nat n)))
     = Some (py_int ((8 # 10) * of_len n))
  /\ Float64.to_int (Float64.mul Float64.f0_2 (Float64.of_Z (Z.of_nat n)))
     = Some (py_int ((2 # 10) * of_len n)).
Proof.
  intros Hn.
  assert (H : forallb
                (fun n => Float64.cut_agrees Float64.f0_6 (6 # 10) n
                          && Float64.cut_agrees Float64.f0_8 (8 # 10) n
                          && Float64.cut_agrees Float64.f0_2 (2 # 10) n)
                (seq 0 2000) = true)
    by (vm_compute; reflexivity).
  rewrite forallb_forall in H.
  specialize (H n (proj2 (in_seq 2000 0 n) (conj (Nat.le_0_l n) Hn))).
  apply andb_prop in H. destruct H as [H H2].
  apply andb_prop in H. destruct H as [H6 H8].
  unfold Float64.cut_agrees, py_int, of_len in *.
  repeat split.
  - destruct (Float64.to_int _) as [t|]; [|discriminate].
    apply Z.eqb_eq in H6. now subst.
  - destruct (Float64.to_int (Float64.mul Float64.f0_8 _)) as [t|];
      [|discriminate].
    apply Z.eqb_eq in H8. now subst.
  - destruct (Float64.to_int (Float64.mul Float64.f0_2 _)) as [t|];
      [|discriminate].
    apply Z.eqb_eq in H2. now subst.
Qed.

(** The assertion on the ratios gives the same verdict in binary64 and in
    the model, on the default ratios and on (0.5, 0.3, 0.3). *)
Lemma float_assertion_agrees :
  Float64.ratios_sum_ok Float64.f0_6 Float64.f0_2 Float64.f0_2
  = Val.ratios_sum_ok (6 # 10, 2 # 10, 2 # 10)
  /\ Float64.ratios_sum_ok Float64.f0_5 Float64.f0_3 Float64.f0_3
     = Val.ratios_sum_ok (5 # 10, 3 # 10, 3 # 10).
Proof. split; vm_compute; reflexivity. Qed.

(** ** Facts on grouping *)

Lemma filter_map_comm {A B : Type} (f : B -> bool) (h : A -> B) (l : list A) :
  filter f (map h l) = map h (filter (fun x => f (h x)) l).
Proof.
  induction l as [|x l IH]; simpl; [reflexivity|].
  destruct (f (h x)); simpl; now rewrite IH.
Qed.

Lemma filter_positions {A : Type} (f : A -> bool) (l : list A) (d : A) :
  filter f l
  = map (fun i => nth i l d)
        (filter (fun i => f (nth i l d)) (seq 0 (length l))).
Proof.
  induction l as [|x l IH]; [reflexivity|].
  cbn [length seq filter map nth].
  rewrite <- seq_shift, filter_map_comm.
  cbn [nth]. destruct (f x); cbn [map nth]; rewrite map_map; cbn [nth];
    now rewrite <- IH.
Qed.

Lemma value_eqb_eq (u v : value) : value_eqb u v = true <-> u = v.
Proof.
  unfold value_eqb. destruct (value_eq_dec u v); split; congruence.
Qed.

Lemma value_eqb_refl (u : value) : value_eqb u u = true.
Proof. now apply value_eqb_eq. Qed.

Lemma value_eqb_neq (u v : value) : u <> v -> value_eqb u v = false.
Proof.
  intros H. destruct (value_eqb u v) eqn:E; [|reflexivity].
  apply value_eqb_eq in E. contradiction.
Qed.

Section Classes.

Context {A : Type} (key : A -> value).

Definition class_of (k : value) (l : list A) : list A :=
  filter (fun x => value_eqb (key x) k) l.

Lemma classes_skip (x : A) (l : list A) (ks : list value) :
  ~ In (key x) ks ->
  flat_map (fun k => class_of k (x :: l)) ks
  = flat_map (fun k => class_of k l) ks.
Proof.
  induction ks as [|k ks IH]; intros H; [reflexivity|].
  cbn [flat_map]. rewrite IH by (intros C; apply H; now right).
  f_equal. unfold class_of. cbn [filter].
  rewrite value_eqb_neq; [reflexivity|].
  intros C. apply H. now left.
Qed.

Lemma classes_cons (x : A) (l : list A) (ks : list value) :
  NoDup ks -> In (key x) ks ->
  Permutation (flat_map (fun k => class_of k (x :: l)) ks)
              (x :: flat_map (fun k => class_of k l) ks).
Proof.
  induction ks as [|k ks IH]; intros Hnd Hin; [destruct Hin|].
  inversion Hnd as [|? ? Hk Hnd']; subst.
  cbn [flat_map].
  destruct (value_eq_dec (key x) k) as [E|E].
  - subst k. rewrite classes_skip by exact Hk.
    unfold class_of at 1. cbn [filter]. rewrite value_eqb_refl.
    reflexivity.
  - destruct Hin as [C|Hin]; [congruence|].
    unfold class_of at 1. cbn [filter]. rewrite value_eqb_neq by exact E.
    fold (class_of k l).
    rewrite (IH Hnd' Hin). symmetry. apply Permutation_middle.
Qed.

Lemma classes_partition (l : list A) (ks : list value) :
  NoDup ks -> (forall x, In x l -> In (key x) ks) ->
  Permutation (flat_map (fun k => class_of k l) ks) l.
Proof.
  intros Hnd. induction l as [|x l IH]; intros Hin.
  - clear. induction ks as [|k ks IH]; [constructor | exact IH].
  - rewrite classes_cons; [|exact Hnd|apply Hin; now left].
    constructor. apply IH. intros y Hy. apply Hin. now right.
Qed.

End Classes.

Lemma insert_key_perm (k : value) (ks : list value) :
  Permutation (insert_key k ks) (k :: ks).
Proof.
  induction ks as [|k' ks IH]; simpl; [reflexivity|].
  destruct (value_leb k k'); [reflexivity|].
  rewrite IH. apply perm_swap.
Qed.

Lemma sort_keys_perm (ks : list value) : Permutation (sort_keys ks) ks.
Proof.
  induction ks as [|k ks IH]; simpl; [constructor|].
  rewrite insert_key_perm. now constructor.
Qed.

Lemma group_keys_NoDup (c : nat) (rs : list row) : NoDup (group_keys c rs).
Proof.
  unfold group_keys.
  eapply Permutation_NoDup; [symmetry; apply sort_keys_perm|].
  apply NoDup_nodup.
Qed.

Lemma group_keys_In (c : nat) (rs : list row) (k : value) :
  In k (group_keys c rs) <-> exists r, In r rs /\ cell c r = k.
Proof.
  unfold group_keys. split.
  - intros H. apply (Permutation_in _ (sort_keys_perm _)) in H.
    apply nodup_In, in_map_iff in H. destruct H as [r [E Hr]]. eauto.
  - intros [r [Hr E]].
    apply (Permutation_in _ (Permutation_sym (sort_keys_perm _))).
    apply nodup_In, in_map_iff. eauto.
Qed.

(** The positions of the rows of the group of key [k]. *)
Definition group_positions (c : nat) (k : value) (rs : list row) : list nat :=
  filter (fun i => value_eqb (cell c (nth i rs no_row)) k) (seq 0 (length rs)).

Lemma group_rows_positions (c : nat) (k : value) (rs : list row) :
  group_rows c k rs = map (fun i => nth i rs no_row) (group_positions c k rs).
Proof.
  unfold group_rows, group_positions.
  apply (filter_positions (fun r => value_eqb (cell c r) k)).
Qed.

Lemma group_positions_in_range (c : nat) (k : value) (rs : list row) :
  in_range (length rs) (group_positions c k rs).
Proof.
  intros i Hi. apply filter_In in Hi. destruct Hi as [Hi _].
  apply in_seq in Hi. lia.
Qed.

Lemma group_positions_partition (c : nat) (rs : list row) :
  Permutation (flat_map (fun k => group_positions c k rs) (group_keys c rs))
              (seq 0 (length rs)).
Proof.
  apply (classes_partition (fun i => cell c (nth i rs no_row))).
  - apply group_keys_NoDup.
  - intros i Hi. apply in_seq in Hi. apply group_keys_In.
    exists (nth i rs no_row). split; [apply nth_In; lia | reflexivity].
Qed.

(** ** The two splits, by positions *)

Section SplitFacts.

Context {R : RandomLib}.

Lemma shuffle_arange (rng : bit_generator) (n : nat) :
  shuffle rng (arange n) = shuffle_draw rng n.
Proof.
  unfold shuffle, arange. rewrite length_seq.
  assert (Hp := shuffle_draw_perm rng n).
  destruct (shuffle_draw rng n) as [p rng'] eqn:E. simpl in Hp.
  f_equal. rewrite <- (map_id p) at 2.
  apply map_ext_in. intros i Hi.
  apply (perm_in_range _ _ Hp) in Hi.
  now rewrite seq_nth.
Qed.

(** The three slices of a shuffled index array at cut points [a] and [b]. *)
Definition cuts_at {A : Type} (a b : Z) (idx : list A)
  : list A * list A * list A :=
  (py_slice None (Some a) idx, py_slice (Some a) (Some b) idx,
   py_slice (Some b) None idx).

(** The positions [_split_dataframe] selects for a table of [n] rows. *)
Definition uniform_positions (seed : Z) (n : nat)
  : list nat * list nat * list nat :=
  cuts_at (py_int ((6 # 10) * of_len n)) (py_int ((8 # 10) * of_len n))
          (fst (shuffle_draw (seed_sequence seed) n)).

Lemma split_dataframe_eq (df : DataFrame) (seed : Z) :
  (0 <= seed)%Z ->
  _split_dataframe df seed
  = let '(pt, pv, ps) := uniform_positions seed (len df) in
    Ok (select df pt, select df pv, select df ps).
Proof.
  intros Hs. unfold _split_dataframe, default_rng, uniform_positions, cuts_at.
  destruct (seed <? 0)%Z eqn:E; [apply Z.ltb_lt in E; lia|].
  cbn [bind]. rewrite shuffle_arange.
  assert (Hp := shuffle_draw_perm (seed_sequence seed) (len df)).
  destruct (shuffle_draw (seed_sequence seed) (len df)) as [p rng'].
  cbn [fst] in *.
  assert (Hr := perm_in_range _ _ Hp).
  rewrite !iloc_in_range
    by (eapply in_range_incl; [apply slice_incl | exact Hr]).
  reflexivity.
Qed.

Lemma split_dataframe_bad_seed (df : DataFrame) (seed : Z) :
  (seed < 0)%Z -> _split_dataframe df seed = Raise ValueError.
Proof.
  intros Hs. unfold _split_dataframe, default_rng.
  apply Z.ltb_lt in Hs. now rewrite Hs.
Qed.

(** What one turn of the loop of [_stratified_split] sends to the three parts,
    for a group given by the positions [gp] of its rows in the table and the
    shuffled index array [p] of the turn. *)
Definition one_cut (r0 r1 : Q) (gp p : list nat)
  : list nat * list nat * list nat :=
  let n := length gp in
  let n_train := py_int (r0 * of_len n) in
  let n_val := py_int (r1 * of_len n) in
  let '(a, b, c) := cuts_at n_train (n_train + n_val)%Z p in
  let pick := map (fun i => nth i gp 0) in
  (pick a, pick b, pick c).

(** The loop over the groups: one generator, advanced by each turn. *)
Fixpoint strat_positions (r0 r1 : Q) (rng : bit_generator)
    (groups : list (list nat)) : list (list nat * list nat * list nat) :=
  match groups with
  | [] => []
  | gp :: rest =>
      let '(p, rng') := shuffle_draw rng (length gp) in
      one_cut r0 r1 gp p :: strat_positions r0 r1 rng' rest
  end.

Definition train_of (c : list nat * list nat * list nat) := fst (fst c).
Definition val_of (c : list nat * list nat * list nat) := snd (fst c).
Definition test_of (c : list nat * list nat * list nat) := snd c.

Lemma split_groups_eq (df : DataFrame) (r0 r1 : Q)
    (groups : list (value * list nat)) (rng : bit_generator) :
  let cuts := strat_positions r0 r1 rng (map snd groups) in
  split_groups r0 r1 rng
    (map (fun kg => (fst kg, select df (snd kg))) groups)
  = Ok (map (fun c => select df (train_of c)) cuts,
        map (fun c => select df (val_of c)) cuts,
        map (fun c => select df (test_of c)) cuts).
Proof.
  revert rng. induction groups as [|[k gp] groups IH]; intros rng;
    [reflexivity|].
  cbn [map fst snd split_groups strat_positions].
  rewrite shuffle_arange, len_select.
  assert (Hp := shuffle_draw_perm rng (length gp)).
  destruct (shuffle_draw rng (length gp)) as [p rng'].
  cbn [fst] in Hp.
  assert (Hr := perm_in_range _ _ Hp).
  unfold one_cut, cuts_at.
  rewrite !iloc_in_range
    by (rewrite len_select; eapply in_range_incl;
        [apply slice_incl | exact Hr]).
  cbn [bind]. rewrite IH. cbn [bind map train_of val_of test_of fst snd].
  rewrite !select_select
    by (eapply in_range_incl; [apply slice_incl | exact Hr]).
  reflexivity.
Qed.

(** The order [sample] gives to a pooled list of positions. *)
Definition mix (seed : Z) (L : list nat) : list nat :=
  map (fun i => nth i L 0) (legacy_permutation seed (length L)).

Lemma mix_perm (seed : Z) (L : list nat) : Permutation (mix seed L) L.
Proof. apply perm_select, legacy_permutation_perm. Qed.

Lemma flat_map_rows_select (df : DataFrame) (Ls : list (list nat)) :
  flat_map rows (map (select df) Ls) = rows (select df (List.concat Ls)).
Proof.
  induction Ls as [|L Ls IH]; [reflexivity|].
  cbn [map flat_map List.concat]. rewrite IH.
  unfold select. cbn [rows]. now rewrite map_app.
Qed.

Definition seed32 (seed : Z) : Prop := (0 <= seed < 2 ^ 32)%Z.

Lemma pool_eq (df : DataFrame) (Ls : list (list nat)) (seed : Z) :
  Ls <> [] -> seed32 seed ->
  pool (map (select df) Ls) seed
  = Ok (reset_index (select df (mix seed (List.concat Ls)))).
Proof.
  intros Hne [Hs0 Hs1]. unfold pool, pd_concat.
  destruct Ls as [|L Ls]; [congruence|].
  cbn [map bind]. change (select df L :: map (select df) Ls)
    with (map (select df) (L :: Ls)).
  rewrite flat_map_rows_select.
  change (mk_frame (columns (select df L))
            (rows (select df (List.concat (L :: Ls)))))
    with (select df (List.concat (L :: Ls))).
  unfold sample.
  destruct (seed <? 0)%Z eqn:E0; [apply Z.ltb_lt in E0; lia|].
  destruct (2 ^ 32 <=? seed)%Z eqn:E1; [apply Z.leb_le in E1; lia|].
  cbn [orb]. rewrite len_select.
  assert (Hr := perm_in_range _ _
                  (legacy_permutation_perm seed
                     (length (List.concat (L :: Ls))))).
  rewrite iloc_in_range by (rewrite len_select; exact Hr).
  cbn [bind]. rewrite select_select by exact Hr.
  reflexivity.
Qed.

(** *** One turn of the loop *)

Lemma pick_incl (gp q : list nat) :
  in_range (length gp) q -> incl (map (fun i => nth i gp 0) q) gp.
Proof.
  intros H x Hx. apply in_map_iff in Hx. destruct Hx as [i [<- Hi]].
  apply nth_In, H, Hi.
Qed.

Lemma one_cut_perm (r0 r1 : Q) (gp p : list nat) :
  (0 <= r0)%Q -> (0 <= r1)%Q ->
  Permutation p (seq 0 (length gp)) ->
  let c := one_cut r0 r1 gp p in
  Permutation (train_of c ++ val_of c ++ test_of c) gp.
Proof.
  intros H0 H1 Hp. unfold one_cut, cuts_at. cbn [train_of val_of test_of fst snd].
  rewrite <- !map_app.
  assert (Ha := py_int_nonneg r0 (length gp) H0).
  assert (Hb := py_int_nonneg r1 (length gp) H1).
  rewrite slice_split by lia.
  apply perm_select, Hp.
Qed.

Lemma one_cut_incl (r0 r1 : Q) (gp p : list nat) :
  Permutation p (seq 0 (length gp)) ->
  let c := one_cut r0 r1 gp p in
  incl (train_of c) gp /\ incl (val_of c) gp /\ incl (test_of c) gp.
Proof.
  intros Hp. unfold one_cut, cuts_at. cbn [train_of val_of test_of fst snd].
  assert (Hr := perm_in_range _ _ Hp).
  repeat split; apply pick_incl; eapply in_range_incl;
    try apply slice_incl; exact Hr.
Qed.

(** *** The whole loop *)

Lemma strat_positions_length (r0 r1 : Q) (rng : bit_generator)
    (groups : list (list nat)) :
  length (strat_positions r0 r1 rng groups) = length groups.
Proof.
  revert rng. induction groups as [|gp groups IH]; intros rng; [reflexivity|].
  cbn [strat_positions]. destruct (shuffle_draw rng (length gp)).
  cbn [length]. now rewrite IH.
Qed.

Lemma perm_interleave3 {A : Type} (a b c x y z : list A) :
  Permutation ((a ++ x) ++ (b ++ y) ++ (c ++ z))
              ((a ++ b ++ c) ++ (x ++ y ++ z)).
Proof.
  rewrite <- !app_assoc. apply Permutation_app_head.
  induction b as [|b0 b IHb].
  - cbn [app]. induction c as [|c0 c IHc]; [reflexivity|].
    cbn [app]. symmetry. rewrite (app_assoc x y (c0 :: c ++ z)).
    apply Permutation_cons_app. rewrite <- (app_assoc x y (c ++ z)).
    symmetry. exact IHc.
  - cbn [app]. symmetry. apply Permutation_cons_app. symmetry. exact IHb.
Qed.

Lemma strat_positions_perm (r0 r1 : Q) (rng : bit_generator)
    (groups : list (list nat)) :
  (0 <= r0)%Q -> (0 <= r1)%Q ->
  let cuts := strat_positions r0 r1 rng groups in
  Permutation (List.concat (map train_of cuts)
                 ++ List.concat (map val_of cuts)
                 ++ List.concat (map test_of cuts))
              (List.concat groups).
Proof.
  intros H0 H1. revert rng.
  induction groups as [|gp groups IH]; intros rng; [constructor|].
  cbn [strat_positions].
  assert (Hp := shuffle_draw_perm rng (length gp)).
  destruct (shuffle_draw rng (length gp)) as [p rng']. cbn [fst] in Hp.
  cbn [map List.concat]. cbv zeta.
  rewrite perm_interleave3.
  apply Permutation_app; [|apply IH].
  apply one_cut_perm; assumption.
Qed.

(** The groups of a table, as lists of positions, in [groupby] order. *)
Definition stratified_groups (c : nat) (rs : list row) : list (list nat) :=
  map (fun k => group_positions c k rs) (group_keys c rs).

(** The positions [_stratified_split] selects for its three outputs, before
    the index is reset. *)
Definition stratified_positions (c : nat) (r0 r1 : Q) (seed : Z)
    (rs : list row) : list nat * list nat * list nat :=
  let cuts :=
    strat_positions r0 r1 (seed_sequence seed) (stratified_groups c rs) in
  (mix seed (List.concat (map train_of cuts)),
   mix seed (List.concat (map val_of cuts)),
   mix seed (List.concat (map test_of cuts))).

Lemma group_keys_nonempty (c : nat) (rs : list row) :
  rs <> [] -> group_keys c rs <> [].
Proof.
  intros Hne E. destruct rs as [|r rs]; [congruence|].
  assert (H : In (cell c r) (group_keys c (r :: rs)))
    by (apply group_keys_In; exists r; split; [now left | reflexivity]).
  rewrite E in H. destruct H.
Qed.

Lemma groupby_eq (df : DataFrame) (label_col : string) (c : nat) :
  column_position label_col (columns df) = Ok c ->
  groupby df label_col
  = Ok (map (fun kg => (fst kg, select df (snd kg)))
            (map (fun k => (k, group_positions c k (rows df)))
                 (group_keys c (rows df)))).
Proof.
  intros Hc. unfold groupby. rewrite Hc. cbn [bind]. f_equal.
  rewrite map_map. apply map_ext. intros k. cbn [fst snd].
  unfold select. now rewrite group_rows_positions.
Qed.

Lemma stratified_split_eq (df : DataFrame) (label_col : string) (c : nat)
    (seed : Z) (r0 r1 r2 : Q) :
  ratios_sum_ok (r0, r1, r2) = true ->
  seed32 seed ->
  column_position label_col (columns df) = Ok c ->
  rows df <> [] ->
  _stratified_split df label_col seed (r0, r1, r2)
  = let '(pt, pv, ps) := stratified_positions c r0 r1 seed (rows df) in
    Ok (reset_index (select df pt), reset_index (select df pv),
        reset_index (select df ps)).
Proof.
  intros Hr Hs Hc Hne. unfold _stratified_split.
  rewrite Hr. cbn [py_assert bind]. unfold default_rng.
  destruct Hs as [Hs0 Hs1].
  destruct (seed <? 0)%Z eqn:E; [apply Z.ltb_lt in E; lia|].
  cbn [bind]. rewrite (groupby_eq _ _ _ Hc). cbn [bind fst snd].
  rewrite split_groups_eq. cbn [bind].
  rewrite map_map. cbn [snd].
  fold (stratified_groups c (rows df)).
  set (cuts := strat_positions r0 r1 (seed_sequence seed)
                 (stratified_groups c (rows df))).
  assert (Hcuts : cuts <> []).
  { intros E'. apply (f_equal (@length _)) in E'.
    unfold cuts in E'. rewrite strat_positions_length in E'.
    unfold stratified_groups in E'. rewrite length_map in E'.
    apply (group_keys_nonempty c (rows df) Hne).
    now apply length_zero_iff_nil. }
  rewrite <- (map_map train_of (select df)), <- (map_map val_of (select df)),
    <- (map_map test_of (select df)).
  assert (Hne3 : forall proj : _ -> list nat, map proj cuts <> [])
    by (intros proj; destruct cuts; [congruence | discriminate]).
  rewrite !pool_eq by (try apply Hne3; split; assumption).
  reflexivity.
Qed.

Lemma stratified_positions_perm (c : nat) (r0 r1 : Q) (seed : Z)
    (rs : list row) :
  (0 <= r0)%Q -> (0 <= r1)%Q ->
  let '(pt, pv, ps) := stratified_positions c r0 r1 seed rs in
  Permutation (pt ++ pv ++ ps) (seq 0 (length rs)).
Proof.
  intros H0 H1. unfold stratified_positions.
  rewrite !mix_perm.
  rewrite strat_positions_perm by assumption.
  unfold stratified_groups. rewrite <- flat_map_concat_map.
  apply group_positions_partition.
Qed.

End SplitFacts.

(** ** Facts on the object store *)

Section StoreFacts.

Context {R : RandomLib}.

Import Imp.

Lemma lookup_snoc (h : heap) (o : object) (l : loc) :
  lookup (h ++ [o]) l = if l =? length h then Some o else lookup h l.
Proof.
  unfold lookup. destruct (Nat.eqb_spec l (length h)) as [->|Hne].
  - rewrite nth_error_app2 by lia. now rewrite Nat.sub_diag.
  - destruct (Nat.lt_ge_cases l (length h)) as [Hlt|Hge].
    + now rewrite nth_error_app1.
    + rewrite (proj2 (nth_error_None h l)) by lia.
      apply nth_error_None. rewrite length_app. simpl. lia.
Qed.

Lemma length_update (l : loc) (o : object) (h : heap) :
  length (update l o h) = length h.
Proof.
  revert l. induction h as [|x h IH]; intros [|l]; simpl; auto.
Qed.

Lemma lookup_update (h : heap) (l l' : loc) (o : object) :
  lookup (update l o h) l'
  = if (l' =? l) && (l <? length h) then Some o else lookup h l'.
Proof.
  unfold lookup. revert l l'.
  induction h as [|x h IH]; intros l l'.
  - simpl. rewrite andb_false_r. now destruct l.
  - destruct l as [|l], l' as [|l']; simpl; try reflexivity.
    rewrite IH. reflexivity.
Qed.

Lemma lookup_lt (h : heap) (l : loc) (o : object) :
  lookup h l = Some o -> l < length h.
Proof. intros H. apply nth_error_Some. unfold lookup in H. congruence. Qed.

(** No table of the store is overwritten. *)
Definition frames_kept (h h' : heap) : Prop :=
  forall l f, lookup h l = Some (ObjFrame f) ->
              lookup h' l = Some (ObjFrame f).

Lemma frames_kept_refl (h : heap) : frames_kept h h.
Proof. intros l f H. exact H. Qed.

Lemma frames_kept_trans (h1 h2 h3 : heap) :
  frames_kept h1 h2 -> frames_kept h2 h3 -> frames_kept h1 h3.
Proof. intros H12 H23 l f H. apply H23, H12, H. Qed.

Lemma frames_kept_snoc (h : heap) (o : object) : frames_kept h (h ++ [o]).
Proof.
  intros l f H. rewrite lookup_snoc.
  apply lookup_lt in H as Hl.
  destruct (Nat.eqb_spec l (length h)); [lia | exact H].
Qed.

Lemma frames_kept_update (h : heap) (l : loc) (o : object) :
  (forall f, lookup h l <> Some (ObjFrame f)) ->
  frames_kept h (update l o h).
Proof.
  intros Hl l' f H. rewrite lookup_update.
  destruct (Nat.eqb_spec l' l) as [->|Hne]; [|exact H].
  exfalso. exact (Hl f H).
Qed.

(** A program that overwrites no table, whatever store it starts from. *)
Definition keeps {A : Type} (m : prog A) : Prop :=
  forall h, frames_kept h (snd (m h)).

Lemma keeps_pret {A : Type} (a : A) : keeps (pret a).
Proof. intros h. apply frames_kept_refl. Qed.

Lemma keeps_lift {A : Type} (r : result A) : keeps (lift r).
Proof. intros h. apply frames_kept_refl. Qed.

Lemma keeps_new (o : object) : keeps (new o).
Proof. intros h. apply frames_kept_snoc. Qed.

Lemma keeps_pbind {A B : Type} (m : prog A) (k : A -> prog B) :
  keeps m -> (forall a, keeps (k a)) -> keeps (pbind m k).
Proof.
  intros Hm Hk h. unfold pbind. specialize (Hm h).
  destruct (m h) as [[a|e] h1]; simpl in *.
  - eapply frames_kept_trans; [exact Hm | apply Hk].
  - exact Hm.
Qed.

Lemma keeps_frame_at (l : loc) : keeps (frame_at l).
Proof.
  intros h. unfold frame_at.
  destruct (lookup h l) as [[| |]|]; apply frames_kept_refl.
Qed.

Lemma keeps_array_at (l : loc) : keeps (array_at l).
Proof.
  intros h. unfold array_at.
  destruct (lookup h l) as [[| |]|]; apply frames_kept_refl.
Qed.

Lemma keeps_generator_at (l : loc) : keeps (generator_at l).
Proof.
  intros h. unfold generator_at.
  destruct (lookup h l) as [[| |]|]; apply frames_kept_refl.
Qed.

(** The one in-place operation of the two functions writes into an index
    array and into a generator, and into nothing else. *)
Lemma keeps_rng_shuffle (rng a : loc) : keeps (rng_shuffle rng a).
Proof.
  intros h. unfold rng_shuffle, pbind, generator_at, array_at, write.
  destruct (lookup h rng) as [[| |g]|] eqn:Eg; try apply frames_kept_refl.
  destruct (lookup h a) as [[|arr|]|] eqn:Ea; try apply frames_kept_refl.
  destruct (shuffle g arr) as [arr' g']. simpl.
  eapply frames_kept_trans; apply frames_kept_update.
  - intros f. congruence.
  - intros f. rewrite lookup_update.
    destruct ((rng =? a) && (a <? length h)); congruence.
Qed.

Create HintDb store discriminated.

#[local] Hint Resolve keeps_pret keeps_lift keeps_new keeps_pbind
  keeps_frame_at keeps_array_at keeps_generator_at keeps_rng_shuffle : store.

Ltac split_triple :=
  match goal with
  | x : (_ * _ * _)%type |- _ => destruct x as [[? ?] ?]
  end.

Lemma keeps_py_len (df : loc) : keeps (py_len df).
Proof. unfold py_len. auto with store. Qed.

Lemma keeps_np_default_rng (seed : Z) : keeps (np_default_rng seed).
Proof. unfold np_default_rng. auto with store. Qed.

Lemma keeps_np_arange (n : nat) : keeps (np_arange n).
Proof. unfold np_arange. auto with store. Qed.

Lemma keeps_np_slice (a : loc) (lo hi : option Z) : keeps (np_slice a lo hi).
Proof. unfold np_slice. auto with store. Qed.

Lemma keeps_df_iloc (df a : loc) : keeps (df_iloc df a).
Proof. unfold df_iloc. auto 10 with store. Qed.

Lemma keeps_new_groups (groups : list (value * DataFrame)) :
  keeps (new_groups groups).
Proof.
  induction groups as [|[k g] groups IH]; simpl; auto 10 with store.
Qed.

Lemma keeps_df_groupby (df : loc) (label_col : string) :
  keeps (df_groupby df label_col).
Proof.
  unfold df_groupby. pose proof keeps_new_groups. auto 10 with store.
Qed.

Lemma keeps_frames_at (ls : list loc) : keeps (frames_at ls).
Proof. induction ls as [|l ls IH]; simpl; auto 10 with store. Qed.

Lemma keeps_pd_concat_refs (parts : list loc) : keeps (pd_concat_refs parts).
Proof.
  unfold pd_concat_refs. pose proof keeps_frames_at. auto 10 with store.
Qed.

Lemma keeps_df_sample (df : loc) (seed : Z) : keeps (df_sample df seed).
Proof. unfold df_sample. auto 10 with store. Qed.

Lemma keeps_df_reset_index (df : loc) : keeps (df_reset_index df).
Proof. unfold df_reset_index. auto with store. Qed.

#[local] Hint Resolve keeps_py_len keeps_np_default_rng keeps_np_arange
  keeps_np_slice keeps_df_iloc keeps_df_groupby keeps_pd_concat_refs
  keeps_df_sample keeps_df_reset_index : store.

Lemma keeps_split_dataframe (df : loc) (seed : Z) :
  keeps (Imp._split_dataframe df seed).
Proof. unfold Imp._split_dataframe. auto 30 with store. Qed.

Lemma keeps_split_groups (r0 r1 : Q) (rng : loc)
    (groups : list (value * loc)) :
  keeps (Imp.split_groups r0 r1 rng groups).
Proof.
  induction groups as [|[k g] groups IH]; simpl; [auto with store|].
  repeat (apply keeps_pbind; [auto with store | intros]).
  split_triple. auto with store.
Qed.

Lemma keeps_pool (parts : list loc) (seed : Z) : keeps (Imp.pool parts seed).
Proof. unfold Imp.pool. auto 10 with store. Qed.

Lemma keeps_stratified_split (df : loc) (label_col : string) (seed : Z)
    (ratios : Q * Q * Q) :
  keeps (Imp._stratified_split df label_col seed ratios).
Proof.
  unfold Imp._stratified_split.
  pose proof keeps_split_groups. pose proof keeps_pool.
  repeat (apply keeps_pbind; [auto with store | intros]).
  split_triple. auto 10 with store.
Qed.

(** *** Running a program: what holds of its result and final store *)

Definition wp {A : Type} (m : prog A) (h : heap)
    (Q : result A -> heap -> Prop) : Prop :=
  Q (fst (m h)) (snd (m h)).

(** Every object of the store is still there, unchanged. *)
Definition extends (h h' : heap) : Prop :=
  forall l o, lookup h l = Some o -> lookup h' l = Some o.

Lemma extends_frames_kept (h h' : heap) : extends h h' -> frames_kept h h'.
Proof. intros H l f. apply H. Qed.

Lemma extends_refl (h : heap) : extends h h.
Proof. intros l o H. exact H. Qed.

Lemma extends_trans (h1 h2 h3 : heap) :
  extends h1 h2 -> extends h2 h3 -> extends h1 h3.
Proof. intros H12 H23 l o H. apply H23, H12, H. Qed.

Lemma extends_snoc (h : heap) (o : object) : extends h (h ++ [o]).
Proof.
  intros l o' H. rewrite lookup_snoc. apply lookup_lt in H as Hl.
  destruct (Nat.eqb_spec l (length h)); [lia | exact H].
Qed.

Lemma wp_conseq {A : Type} (m : prog A) (h : heap)
    (P Q : result A -> heap -> Prop) :
  wp m h P -> (forall r h', P r h' -> Q r h') -> wp m h Q.
Proof. unfold wp. intros HP HPQ. apply HPQ, HP. Qed.

Lemma wp_keeps {A : Type} (m : prog A) (h : heap)
    (P : result A -> heap -> Prop) :
  keeps m -> wp m h P -> wp m h (fun r h' => P r h' /\ frames_kept h h').
Proof. unfold wp. intros Hk HP. split; [exact HP | apply Hk]. Qed.

Lemma wp_pret {A : Type} (a : A) (h : heap) (Q : result A -> heap -> Prop) :
  Q (Ok a) h -> wp (pret a) h Q.
Proof. intros H. exact H. Qed.

Lemma wp_lift {A : Type} (r : result A) (h : heap)
    (Q : result A -> heap -> Prop) :
  Q r h -> wp (lift r) h Q.
Proof. intros H. exact H. Qed.

Lemma wp_pbind {A B : Type} (m : prog A) (k : A -> prog B) (h : heap)
    (Q : result B -> heap -> Prop) :
  wp m h (fun r h' =>
            match r with
            | Ok a => wp (k a) h' Q
            | Raise e => Q (Raise e) h'
            end) ->
  wp (pbind m k) h Q.
Proof.
  unfold wp, pbind. destruct (m h) as [[a|e] h']; simpl; auto.
Qed.

Lemma wp_new (o : object) (h : heap) (Q : result loc -> heap -> Prop) :
  (forall l h', extends h h' -> lookup h' l = Some o -> Q (Ok l) h') ->
  wp (new o) h Q.
Proof.
  intros H. unfold wp, new. simpl. apply H.
  - apply extends_snoc.
  - rewrite lookup_snoc, Nat.eqb_refl. reflexivity.
Qed.

Lemma wp_frame_at (l : loc) (f : DataFrame) (h : heap)
    (Q : result DataFrame -> heap -> Prop) :
  lookup h l = Some (ObjFrame f) -> Q (Ok f) h -> wp (frame_at l) h Q.
Proof. intros Hl H. unfold wp, frame_at. rewrite Hl. exact H. Qed.

Lemma wp_array_at (l : loc) (a : list nat) (h : heap)
    (Q : result (list nat) -> heap -> Prop) :
  lookup h l = Some (ObjArray a) -> Q (Ok a) h -> wp (array_at l) h Q.
Proof. intros Hl H. unfold wp, array_at. rewrite Hl. exact H. Qed.

Lemma wp_py_len (df : loc) (f : DataFrame) (h : heap)
    (Q : result nat -> heap -> Prop) :
  lookup h df = Some (ObjFrame f) -> Q (Ok (len f)) h -> wp (py_len df) h Q.
Proof.
  intros Hl H. unfold py_len. apply wp_pbind.
  apply (wp_frame_at _ _ _ _ Hl). apply wp_pret, H.
Qed.

Lemma wp_np_default_rng (seed : Z) (h : heap)
    (Q : result loc -> heap -> Prop) :
  match default_rng seed with
  | Ok g => forall l h', extends h h' ->
                         lookup h' l = Some (ObjGenerator g) -> Q (Ok l) h'
  | Raise e => Q (Raise e) h
  end ->
  wp (np_default_rng seed) h Q.
Proof.
  intros H. unfold np_default_rng. apply wp_pbind, wp_lift.
  destruct (default_rng seed); [apply wp_new, H | exact H].
Qed.

Lemma wp_rng_shuffle (rng a : loc) (g : bit_generator) (arr : list nat)
    (h : heap) (Q : result unit -> heap -> Prop) :
  lookup h rng = Some (ObjGenerator g) ->
  lookup h a = Some (ObjArray arr) ->
  (forall h',
      lookup h' rng = Some (ObjGenerator (snd (shuffle g arr))) ->
      lookup h' a = Some (ObjArray (fst (shuffle g arr))) ->
      frames_kept h h' ->
      Q (Ok tt) h') ->
  wp (rng_shuffle rng a) h Q.
Proof.
  intros Hg Ha H. unfold wp.
  assert (Hk := keeps_rng_shuffle rng a h).
  unfold rng_shuffle, pbind, generator_at, array_at, write in *.
  rewrite Hg, Ha in *.
  destruct (shuffle g arr) as [arr' g']. simpl in *.
  apply lookup_lt in Hg as Hg'. apply lookup_lt in Ha as Ha'.
  assert (Hne : rng <> a) by (intros ->; congruence).
  apply H; [| |exact Hk].
  - rewrite lookup_update, Nat.eqb_refl, length_update.
    destruct (Nat.ltb_spec rng (length h)); [reflexivity | lia].
  - rewrite !lookup_update, length_update, Nat.eqb_refl.
    destruct (Nat.eqb_spec a rng); [congruence|].
    destruct (Nat.ltb_spec a (length h)); [reflexivity | lia].
Qed.

Lemma wp_np_slice (a : loc) (lo hi : option Z) (arr : list nat) (h : heap)
    (Q : result loc -> heap -> Prop) :
  lookup h a = Some (ObjArray arr) ->
  (forall l h', extends h h' ->
                lookup h' l = Some (ObjArray (py_slice lo hi arr)) ->
                Q (Ok l) h') ->
  wp (np_slice a lo hi) h Q.
Proof.
  intros Ha H. unfold np_slice. apply wp_pbind.
  apply (wp_array_at _ _ _ _ Ha). apply wp_new, H.
Qed.

Lemma wp_df_iloc (df a : loc) (f : DataFrame) (arr : list nat) (h : heap)
    (Q : result loc -> heap -> Prop) :
  lookup h df = Some (ObjFrame f) ->
  lookup h a = Some (ObjArray arr) ->
  match iloc f arr with
  | Ok out => forall l h', extends h h' ->
                           lookup h' l = Some (ObjFrame out) -> Q (Ok l) h'
  | Raise e => Q (Raise e) h
  end ->
  wp (df_iloc df a) h Q.
Proof.
  intros Hf Ha H. unfold df_iloc. apply wp_pbind.
  apply (wp_frame_at _ _ _ _ Hf). apply wp_pbind.
  apply (wp_array_at _ _ _ _ Ha). apply wp_pbind, wp_lift.
  destruct (iloc f arr); [apply wp_new, H | exact H].
Qed.

(** *** The functions on the store compute what the functions on values do *)

(** A run returns references to three tables of the final store, those the
    value-level function returns, or raises the exception it raises. *)
Definition returns3 (r : result (DataFrame * DataFrame * DataFrame))
    (out : result (loc * loc * loc)) (h' : heap) : Prop :=
  match r with
  | Ok (a, b, c) =>
      exists la lb lc,
        out = Ok (la, lb, lc)
        /\ lookup h' la = Some (ObjFrame a)
        /\ lookup h' lb = Some (ObjFrame b)
        /\ lookup h' lc = Some (ObjFrame c)
  | Raise e => out = Raise e
  end.

(** Carry what is known of a store to a store that extends it. *)
Ltac push E :=
  repeat match goal with
         | H : lookup ?h _ = Some _ |- _ =>
             match type of E with extends h _ => apply E in H end
         end.

Lemma split_dataframe_refines (df : loc) (f : DataFrame) (seed : Z)
    (h : heap) :
  lookup h df = Some (ObjFrame f) ->
  wp (Imp._split_dataframe df seed) h
     (returns3 (Val._split_dataframe f seed)).
Proof.
  intros Hdf. unfold Imp._split_dataframe, Val._split_dataframe.
  apply wp_pbind, (wp_py_len _ _ _ _ Hdf).
  apply wp_pbind, wp_np_default_rng.
  destruct (default_rng seed) as [g|e]; [|reflexivity].
  intros rng h1 E1 Hrng. push E1. cbn [bind].
  apply wp_pbind, wp_new. intros idx h2 E2 Hidx. push E2.
  apply wp_pbind, (wp_rng_shuffle _ _ _ _ _ _ Hrng Hidx).
  intros h3 _ Hidx3 K3. apply K3 in Hdf.
  destruct (shuffle g (arange (len f))) as [indices rng']. cbn [fst] in Hidx3.
  apply wp_pbind, (wp_np_slice _ _ _ _ _ _ Hidx3).
  intros a h4 E4 Ha. push E4.
  apply wp_pbind, (wp_np_slice _ _ _ _ _ _ Hidx3).
  intros b h5 E5 Hb. push E5.
  apply wp_pbind, (wp_np_slice _ _ _ _ _ _ Hidx3).
  intros c h6 E6 Hc. push E6.
  apply wp_pbind, (wp_df_iloc _ _ _ _ _ _ Hdf Ha).
  destruct (iloc f _) as [train|e]; [|reflexivity].
  intros lt h7 E7 Ht. push E7. cbn [bind].
  apply wp_pbind, (wp_df_iloc _ _ _ _ _ _ Hdf Hb).
  destruct (iloc f _) as [val|e]; [|reflexivity].
  intros lv h8 E8 Hv. push E8. cbn [bind].
  apply wp_pbind, (wp_df_iloc _ _ _ _ _ _ Hdf Hc).
  destruct (iloc f _) as [test|e]; [|reflexivity].
  intros ls h9 E9 Hs. push E9. cbn [bind].
  apply wp_pret. exists lt, lv, ls. auto.
Qed.

Definition points_to (h : heap) (ls : list loc) (fs : list DataFrame) : Prop :=
  Forall2 (fun l f => lookup h l = Some (ObjFrame f)) ls fs.

Definition groups_at (h : heap) (groups : list (value * loc))
    (gfs : list (value * DataFrame)) : Prop :=
  Forall2 (fun kl kf => lookup h (snd kl) = Some (ObjFrame (snd kf)))
          groups gfs.

Lemma points_to_kept (h h' : heap) (ls : list loc) (fs : list DataFrame) :
  frames_kept h h' -> points_to h ls fs -> points_to h' ls fs.
Proof.
  intros K H. induction H; constructor; auto.
Qed.

Lemma groups_at_kept (h h' : heap) (groups : list (value * loc))
    (gfs : list (value * DataFrame)) :
  frames_kept h h' -> groups_at h groups gfs -> groups_at h' groups gfs.
Proof.
  intros K H. induction H; constructor; auto.
Qed.

Lemma new_groups_spec (gfs : list (value * DataFrame)) (h : heap) :
  wp (new_groups gfs) h
     (fun out h' =>
        extends h h'
        /\ exists groups, out = Ok groups /\ groups_at h' groups gfs).
Proof.
  revert h. induction gfs as [|[k g] gfs IH]; intros h.
  - apply wp_pret. split; [apply extends_refl|].
    exists []. split; [reflexivity | constructor].
  - cbn [new_groups]. apply wp_pbind, wp_new. intros l h1 E1 Hl.
    apply wp_pbind.
    eapply wp_conseq; [apply IH|]. intros r h2 [E2 [groups [-> Hg]]].
    apply wp_pret. split; [eapply extends_trans; eauto|].
    exists ((k, l) :: groups). split; [reflexivity|].
    constructor; [apply E2, Hl | exact Hg].
Qed.

Lemma frames_at_spec (ls : list loc) (fs : list DataFrame) (h : heap)
    (Q : result (list DataFrame) -> heap -> Prop) :
  points_to h ls fs -> Q (Ok fs) h -> wp (frames_at ls) h Q.
Proof.
  intros H. revert Q. induction H as [|l f ls fs Hl H IH]; intros Q HQ.
  - exact HQ.
  - cbn [frames_at]. apply wp_pbind, (wp_frame_at _ _ _ _ Hl).
    apply wp_pbind, IH. apply wp_pret, HQ.
Qed.

Lemma pool_refines (parts : list loc) (fs : list DataFrame) (seed : Z)
    (h : heap) :
  points_to h parts fs ->
  wp (Imp.pool parts seed) h
     (fun out h' =>
        extends h h'
        /\ match Val.pool fs seed with
           | Ok f => exists l, out = Ok l /\ lookup h' l = Some (ObjFrame f)
           | Raise e => out = Raise e
           end).
Proof.
  intros H. unfold Imp.pool, Val.pool, pd_concat_refs, df_sample,
    df_reset_index.
  apply wp_pbind, wp_pbind, (frames_at_spec _ _ _ _ H).
  apply wp_pbind, wp_lift.
  destruct (pd_concat fs) as [whole|e];
    [|split; [apply extends_refl | reflexivity]].
  apply wp_new. intros lw h1 E1 Hw. cbn [bind].
  apply wp_pbind, wp_pbind, (wp_frame_at _ _ _ _ Hw).
  apply wp_pbind, wp_lift.
  destruct (sample whole seed) as [shuffled|e]; [|split; [exact E1 | reflexivity]].
  apply wp_new. intros lsh h2 E2 Hsh. cbn [bind].
  apply wp_pbind, (wp_frame_at _ _ _ _ Hsh).
  apply wp_new. intros lr h3 E3 Hr.
  split; [eauto using extends_trans | eauto].
Qed.

Lemma split_groups_refines (r0 r1 : Q) (rng : loc)
    (groups : list (value * loc)) (gfs : list (value * DataFrame))
    (g : bit_generator) (h : heap) :
  lookup h rng = Some (ObjGenerator g) ->
  groups_at h groups gfs ->
  wp (Imp.split_groups r0 r1 rng groups) h
     (fun out h' =>
        match Val.split_groups r0 r1 g gfs with
        | Ok (ts, vs, ss) =>
            exists tl vl sl,
              out = Ok (tl, vl, sl)
              /\ points_to h' tl ts /\ points_to h' vl vs
              /\ points_to h' sl ss
        | Raise e => out = Raise e
        end).
Proof.
  revert gfs g h.
  induction groups as [|[k gl] groups IH]; intros gfs g h Hrng H;
    inversion H as [|? [k' gf] ? gfs' Hgl H']; subst.
  - apply wp_pret. exists [], [], []. repeat split; constructor.
  - cbn [Imp.split_groups Val.split_groups snd] in *.
    apply wp_pbind, (wp_py_len _ _ _ _ Hgl).
    apply wp_pbind, wp_new. intros idx h1 E1 Hidx. push E1.
    apply wp_pbind, (wp_rng_shuffle _ _ _ _ _ _ Hrng Hidx).
    intros h2 Hrng2 Hidx2 K2. apply K2 in Hgl.
    destruct (shuffle g (arange (len gf))) as [p g']. cbn [fst snd] in *.
    apply wp_pbind, (wp_np_slice _ _ _ _ _ _ Hidx2).
    intros a h3 E3 Ha. push E3.
    apply wp_pbind, (wp_df_iloc _ _ _ _ _ _ Hgl Ha).
    destruct (iloc gf _) as [tp|e]; [|reflexivity].
    intros lt h4 E4 Ht. push E4. cbn [bind].
    apply wp_pbind, (wp_np_slice _ _ _ _ _ _ Hidx2).
    intros b h5 E5 Hb. push E5.
    apply wp_pbind, (wp_df_iloc _ _ _ _ _ _ Hgl Hb).
    destruct (iloc gf _) as [vp|e]; [|reflexivity].
    intros lv h6 E6 Hv. push E6. cbn [bind].
    apply wp_pbind, (wp_np_slice _ _ _ _ _ _ Hidx2).
    intros c h7 E7 Hc. push E7.
    apply wp_pbind, (wp_df_iloc _ _ _ _ _ _ Hgl Hc).
    destruct (iloc gf _) as [sp|e]; [|reflexivity].
    intros ls h8 E8 Hs. push E8. cbn [bind].
    assert (K : frames_kept h h8).
    { repeat (eapply frames_kept_trans;
              [first [apply extends_frames_kept; eassumption
                     | eassumption]|]).
      apply frames_kept_refl. }
    apply wp_pbind.
    eapply wp_conseq;
      [apply wp_keeps;
       [apply keeps_split_groups
       | apply (IH gfs' g' h8 Hrng2); eapply groups_at_kept; eauto]|].
    intros r h9 [Hr K9]. cbv beta in Hr.
    destruct (Val.split_groups r0 r1 g' gfs') as [[[ts vs] ss]|e];
      [|subst r; reflexivity].
    destruct Hr as [tl [vl [sl [-> [Pt [Pv Ps]]]]]].
    apply wp_pret. cbn [bind].
    exists (lt :: tl), (lv :: vl), (ls :: sl).
    repeat split; constructor; auto.
Qed.

Lemma stratified_split_refines (df : loc) (f : DataFrame)
    (label_col : string) (seed : Z) (ratios : Q * Q * Q) (h : heap) :
  lookup h df = Some (ObjFrame f) ->
  wp (Imp._stratified_split df label_col seed ratios) h
     (returns3 (Val._stratified_split f label_col seed ratios)).
Proof.
  intros Hdf. unfold Imp._stratified_split, Val._stratified_split.
  apply wp_pbind, wp_lift.
  destruct (py_assert (ratios_sum_ok ratios)) as [[]|e]; [|reflexivity].
  cbn [bind]. apply wp_pbind, wp_np_default_rng.
  destruct (default_rng seed) as [g|e]; [|reflexivity].
  intros rng h1 E1 Hrng. push E1. cbn [bind].
  unfold df_groupby.
  apply wp_pbind, wp_pbind, (wp_frame_at _ _ _ _ Hdf).
  apply wp_pbind, wp_lift.
  destruct (groupby f label_col) as [gfs|e]; [|reflexivity].
  cbn [bind].
  eapply wp_conseq; [apply new_groups_spec|].
  intros r h2 [E2 [groups [-> Hg]]]. push E2.
  apply wp_pbind.
  eapply wp_conseq;
    [apply (split_groups_refines _ _ _ _ _ _ _ Hrng Hg)|].
  intros r h3 Hr. cbv beta in Hr.
  destruct (Val.split_groups _ _ g gfs) as [[[ts vs] ss]|e];
    [|subst r; reflexivity].
  destruct Hr as [tl [vl [sl [-> [Pt [Pv Ps]]]]]]. cbn [bind].
  apply wp_pbind.
  eapply wp_conseq; [apply (pool_refines _ _ seed _ Pt)|].
  intros r h4 [E4 Hr]. cbv beta in Hr.
  destruct (Val.pool ts seed) as [train|e]; [|subst r; reflexivity].
  destruct Hr as [lt [-> Ht]]. cbn [bind].
  apply extends_frames_kept in E4 as K4.
  apply (points_to_kept _ _ _ _ K4) in Pv, Ps.
  apply wp_pbind.
  eapply wp_conseq; [apply (pool_refines _ _ seed _ Pv)|].
  intros r h5 [E5 Hr]. cbv beta in Hr.
  destruct (Val.pool vs seed) as [val|e]; [|subst r; reflexivity].
  destruct Hr as [lv [-> Hv]]. cbn [bind]. push E5.
  apply extends_frames_kept in E5 as K5.
  apply (points_to_kept _ _ _ _ K5) in Ps.
  apply wp_pbind.
  eapply wp_conseq; [apply (pool_refines _ _ seed _ Ps)|].
  intros r h6 [E6 Hr]. cbv beta in Hr.
  destruct (Val.pool ss seed) as [test|e]; [|subst r; reflexivity].
  destruct Hr as [ls [-> Hs]]. cbn [bind]. push E6.
  apply wp_pret. exists lt, lv, ls. auto.
Qed.

End StoreFacts.

(** ** Counting the rows of a label *)

(** The number of rows of [df] whose cell in column [c] is [k]. *)
Definition count_label (c : nat) (k : value) (df : DataFrame) : nat :=
  length (group_rows c k (rows df)).

Lemma filter_length_perm {A : Type} (f : A -> bool) (l l' : list A) :
  Permutation l l' -> length (filter f l) = length (filter f l').
Proof.
  intros H. induction H as [|x l l' H IH|x y l|l l' l'' H1 IH1 H2 IH2];
    simpl; try reflexivity.
  - destruct (f x); simpl; now rewrite IH.
  - destruct (f x), (f y); reflexivity.
  - now rewrite IH1.
Qed.

Lemma cells_relabel (c : nat) (rs : list row) :
  map (cell c) (relabel rs) = map (cell c) rs.
Proof.
  unfold relabel. generalize 0 as s.
  induction rs as [|r rs IH]; intros s; [reflexivity|].
  cbn [length seq combine map]. rewrite IH. reflexivity.
Qed.

Lemma count_label_cells (c : nat) (k : value) (df : DataFrame) :
  count_label c k df
  = length (filter (fun v => value_eqb v k) (map (cell c) (rows df))).
Proof.
  unfold count_label, group_rows.
  rewrite filter_map_comm, length_map. reflexivity.
Qed.

Lemma count_label_positions (c : nat) (k : value) (df : DataFrame) :
  count_label c k df = length (group_positions c k (rows df)).
Proof.
  unfold count_label. rewrite group_rows_positions. apply length_map.
Qed.

Lemma count_label_reset_select (c : nat) (k : value) (df : DataFrame)
    (ps : list nat) :
  count_label c k (reset_index (select df ps))
  = length (filter (fun i => value_eqb (cell c (nth i (rows df) no_row)) k)
                   ps).
Proof.
  rewrite count_label_cells. unfold reset_index, select. cbn [rows].
  rewrite cells_relabel, map_map, filter_map_comm, length_map.
  reflexivity.
Qed.

Section CountFacts.

Context {R : RandomLib}.

Variables (c : nat) (rs : list row) (k : value).

Let has_k (i : nat) : bool := value_eqb (cell c (nth i rs no_row)) k.

Lemma filter_own_group (q : list nat) :
  incl q (group_positions c k rs) -> filter has_k q = q.
Proof.
  induction q as [|i q IH]; intros H; [reflexivity|].
  cbn [filter].
  assert (Hi : has_k i = true).
  { assert (In i (group_positions c k rs)) as Hin by (apply H; now left).
    apply filter_In in Hin. exact (proj2 Hin). }
  rewrite Hi, IH; [reflexivity|].
  intros j Hj. apply H. now right.
Qed.

Lemma filter_other_group (k' : value) (q : list nat) :
  k' <> k -> incl q (group_positions c k' rs) -> filter has_k q = [].
Proof.
  intros Hne. induction q as [|i q IH]; intros H; [reflexivity|].
  cbn [filter].
  assert (Hi : has_k i = false).
  { assert (In i (group_positions c k' rs)) as Hin by (apply H; now left).
    apply filter_In in Hin. destruct Hin as [_ Hin].
    apply value_eqb_eq in Hin. unfold has_k. rewrite Hin.
    now apply value_eqb_neq. }
  rewrite Hi. apply IH. intros j Hj. apply H. now right.
Qed.

End CountFacts.

Lemma group_positions_nil (c : nat) (k : value) (rs : list row) :
  ~ In k (group_keys c rs) -> group_positions c k rs = [].
Proof.
  intros Hn. destruct (group_positions c k rs) as [|i q] eqn:E;
    [reflexivity|].
  exfalso. apply Hn.
  assert (Hi : In i (group_positions c k rs)) by (rewrite E; now left).
  apply filter_In in Hi. destruct Hi as [Hi Hk].
  apply in_seq in Hi. apply value_eqb_eq in Hk.
  apply group_keys_In. exists (nth i rs no_row).
  split; [apply nth_In; lia | exact Hk].
Qed.

(** ** When the stratified split raises *)

Lemma occurrences_nil (name : string) (cols : list string) (i : nat) :
  occurrences name cols i = [] <-> ~ In name cols.
Proof.
  revert i. induction cols as [|col cols IH]; intros i; simpl.
  - tauto.
  - destruct (String.eqb_spec col name) as [->|Hne].
    + split; [discriminate | intros H; exfalso; apply H; now left].
    + rewrite IH. split.
      * intros H [E|Hin]; [congruence | contradiction].
      * intros H Hin. apply H. now right.
Qed.

Lemma column_position_KeyError (name : string) (cols : list string) :
  column_position name cols = Raise KeyError <-> ~ In name cols.
Proof.
  unfold column_position. rewrite <- (occurrences_nil name cols 0).
  destruct (occurrences name cols 0) as [|c [|c' rest]];
    split; intros H; try reflexivity; try discriminate.
Qed.

Lemma column_position_raises (name : string) (cols : list string)
    (e : exception) :
  column_position name cols = Raise e -> e = KeyError \/ e = ValueError.
Proof.
  unfold column_position.
  destruct (occurrences name cols 0) as [|c [|c' rest]]; intros H;
    inversion H; auto.
Qed.

Section StratifiedErrors.

Context {R : RandomLib}.

Lemma stratified_bad_ratios (df : DataFrame) (label_col : string) (seed : Z)
    (ratios : Q * Q * Q) :
  ratios_sum_ok ratios = false ->
  _stratified_split df label_col seed ratios = Raise AssertionError.
Proof. intros H. unfold _stratified_split. now rewrite H. Qed.

Lemma stratified_bad_seed (df : DataFrame) (label_col : string) (seed : Z)
    (ratios : Q * Q * Q) :
  ratios_sum_ok ratios = true -> (seed < 0)%Z ->
  _stratified_split df label_col seed ratios = Raise ValueError.
Proof.
  intros H Hs. unfold _stratified_split, default_rng. rewrite H.
  apply Z.ltb_lt in Hs. now rewrite Hs.
Qed.

Lemma stratified_no_column (df : DataFrame) (label_col : string) (seed : Z)
    (ratios : Q * Q * Q) (e : exception) :
  ratios_sum_ok ratios = true -> (0 <= seed)%Z ->
  column_position label_col (columns df) = Raise e ->
  _stratified_split df label_col seed ratios = Raise e.
Proof.
  intros H Hs Hc. unfold _stratified_split, default_rng, groupby.
  rewrite H, Hc. destruct (seed <? 0)%Z eqn:E; [|reflexivity].
  apply Z.ltb_lt in E. lia.
Qed.

Lemma stratified_empty (df : DataFrame) (label_col : string) (c : nat)
    (seed : Z) (ratios : Q * Q * Q) :
  ratios_sum_ok ratios = true -> (0 <= seed)%Z ->
  column_position label_col (columns df) = Ok c ->
  rows df = [] ->
  _stratified_split df label_col seed ratios = Raise ValueError.
Proof.
  intros H Hs Hc Hrows. unfold _stratified_split, default_rng, groupby.
  rewrite H, Hc, Hrows.
  destruct (seed <? 0)%Z eqn:E; [apply Z.ltb_lt in E; lia|].
  reflexivity.
Qed.

Lemma pool_big_seed (parts : list DataFrame) (seed : Z) :
  parts <> [] -> (2 ^ 32 <= seed)%Z -> pool parts seed = Raise ValueError.
Proof.
  intros Hne Hs. destruct parts as [|p parts]; [congruence|].
  unfold pool, pd_concat, sample. cbn [bind].
  apply Z.leb_le in Hs. rewrite Hs, orb_true_r. reflexivity.
Qed.

End StratifiedErrors.

(** ** The cut points of the uniform split, as natural numbers *)

Lemma py_int_tenths (a : nat) (n : nat) :
  py_int ((Z.of_nat a # 10) * of_len n) = Z.of_nat (a * n / 10).
Proof.
  rewrite py_int_scaled by lia.
  rewrite Nat2Z.inj_div, Nat2Z.inj_mul. reflexivity.
Qed.

Lemma py_slice_head {A : Type} (t : nat) (l : list A) :
  t <= length l -> py_slice None (Some (Z.of_nat t)) l = firstn t l.
Proof.
  intros Ht. unfold py_slice, slice_bound.
  destruct (Z.of_nat t <? 0)%Z eqn:E; [apply Z.ltb_lt in E; lia|].
  cbn [skipn Z.to_nat]. f_equal. lia.
Qed.

Lemma py_slice_mid {A : Type} (a b : nat) (l : list A) :
  a <= b -> b <= length l ->
  py_slice (Some (Z.of_nat a)) (Some (Z.of_nat b)) l
  = firstn (b - a) (skipn a l).
Proof.
  intros Hab Hb. unfold py_slice, slice_bound.
  destruct (Z.of_nat a <? 0)%Z eqn:Ea; [apply Z.ltb_lt in Ea; lia|].
  destruct (Z.of_nat b <? 0)%Z eqn:Eb; [apply Z.ltb_lt in Eb; lia|].
  f_equal; [|f_equal]; lia.
Qed.

Lemma py_slice_tail {A : Type} (a : nat) (l : list A) :
  a <= length l -> py_slice (Some (Z.of_nat a)) None l = skipn a l.
Proof.
  intros Ha. unfold py_slice, slice_bound.
  destruct (Z.of_nat a <? 0)%Z eqn:Ea; [apply Z.ltb_lt in Ea; lia|].
  replace (Z.to_nat (Z.min (Z.of_nat a) (Z.of_nat (length l)))) with a
    by lia.
  apply firstn_all2. rewrite length_skipn. lia.
Qed.

(** ** The index of the outputs *)




(** ** One generator for all the groups *)

Section SharedGenerator.

Context {R : RandomLib}.

(** The generator after the loop has shuffled groups of the given sizes. *)
Fixpoint state_after (rng : bit_generator) (sizes : list nat)
  : bit_generator :=
  match sizes with
  | [] => rng
  | n :: rest => state_after (snd (shuffle rng (arange n))) rest
  end.

Definition group_sizes (groups : list (value * DataFrame)) : list nat :=
  map (fun kg => len (snd kg)) groups.

End SharedGenerator.

(** ** The stratified split on binary64 floats

    [Val._stratified_split] reads the ratios as exact rationals. Module
    [Val64] is the same function with the ratios as binary64 floats and the
    float operations of the source ([sum], [-], [abs], [<], [*], [int])
    rounded as Python rounds them. It is the reading to use for ratios other
    than the default ones: the exact product [r * n] and the rounded one
    need not have the same integer part ([int(0.7 * 90)] is 62), nor the two
    sums the same distance to 1. *)

Module Val64.

(** A Python [float]. *)
Definition float : Type := spec_float.

(** The float of an [int] operand of a float operation; [OverflowError] (int
    too large to convert to float) beyond the range. *)
Definition float_of_int (n : Z) : result float :=
  match Float64.of_Z n with
  | S754_infinity _ => Raise OverflowError
  | x => Ok x
  end.

(** [int(x)]: truncation toward zero; [OverflowError] on an infinity,
    [ValueError] on a NaN. *)
Definition py_int (x : float) : result Z :=
  match x with
  | S754_nan => Raise ValueError
  | S754_infinity _ => Raise OverflowError
  | S754_zero _ => Ok 0%Z
  | S754_finite s m e =>
      let v := if (0 <=? e)%Z then (Zpos m * 2 ^ e)%Z
               else (Zpos m / 2 ^ (- e))%Z in
      Ok (if s then (- v)%Z else v)
  end.

(** [int(r * n)] for a float [r] and a length [n]. *)
Definition cut (r : float) (n : nat) : result Z :=
  x <- float_of_int (Z.of_nat n) ;;
  py_int (Float64.mul r x).

(** [abs(sum(ratios) - 1.0) < 1e-6]; [sum] adds from left to right, starting
    from the integer 0 (CPython up to 3.11; later versions compensate the
    rounding errors of the additions). *)
Definition ratios_sum_ok (ratios : float * float * float) : bool :=
  let '(r0, r1, r2) := ratios in
  Float64.ratios_sum_ok r0 r1 r2.

Section Splitting.

Context {R : RandomLib}.

(** The body of the loop over the groups. *)
Fixpoint split_groups (r0 r1 : float) (rng : bit_generator)
    (groups : list (value * DataFrame))
  : result (list DataFrame * list DataFrame * list DataFrame) :=
  match groups with
  | [] => Ok ([], [], [])
  | (_, group) :: rest =>
      let n := len group in
      let '(idx, rng') := Val.shuffle rng (arange n) in
      n_train <- cut r0 n ;;
      n_val <- cut r1 n ;;
      train_part <- iloc group (py_slice None (Some n_train) idx) ;;
      val_part <-
        iloc group (py_slice (Some n_train) (Some (n_train + n_val)%Z) idx) ;;
      test_part <- iloc group (py_slice (Some (n_train + n_val)%Z) None idx) ;;
      ' (train_parts, val_parts, test_parts) <-
        split_groups r0 r1 rng' rest ;;
      Ok (train_part :: train_parts, val_part :: val_parts,
          test_part :: test_parts)
  end.

Definition _stratified_split (df : DataFrame) (label_col : string)
    (seed : Z) (ratios : float * float * float)
  : result (DataFrame * DataFrame * DataFrame) :=
  _ <- py_assert (ratios_sum_ok ratios) ;;
  rng <- Val.default_rng seed ;;
  groups <- groupby df label_col ;;
  ' (train_parts, val_parts, test_parts) <-
    split_groups (fst (fst ratios)) (snd (fst ratios)) rng groups ;;
  train_df <- Val.pool train_parts seed ;;
  val_df <- Val.pool val_parts seed ;;
  test_df <- Val.pool test_parts seed ;;
  Ok (train_df, val_df, test_df).

End Splitting.

(** The literals [0.7], [0.1], [1.0] and [2.0]. *)
Definition f0_7 : float := S754_finite false 6305039478318694 (-53).
Definition f1 : float := S754_finite false 4503599627370496 (-52).
Definition f2 : float := S754_finite false 4503599627370496 (-51).

(** A non-negative float (a NaN is not). *)
Definition nonneg (r : float) : Prop :=
  valid_binary Float64.prec Float64.emax r = true
  /\ SFleb (S754_zero false) r = true.

(** Ratios as the specification wants them, in binary64: non-negative, and
    summing to 1 within the tolerance of the assertion. *)
Definition valid_ratios (ratios : float * float * float) : Prop :=
  let '(r0, r1, r2) := ratios in
  nonneg r0 /\ nonneg r1 /\ nonneg r2 /\ ratios_sum_ok ratios = true.

(** A ratio [r] with [0 <= r < 2], as the ratios of a valid triple are
    ([valid_ratios_below_2]). *)
Definition is_ratio (r : float) : Prop :=
  valid_binary Float64.prec Float64.emax r = true
  /\ SFleb (S754_zero false) r = true
  /\ SFltb r f2 = true.

End Val64.

(** *** Rounding in binary64 *)

Section Rounding64.

Local Open Scope Z_scope.

Lemma digits2_size (p : positive) : Zpos (digits2_pos p) = Z.log2 (Zpos p) + 1.
Proof.
  destruct p as [p|p|]; [| |reflexivity].
  - cbn [digits2_pos Z.log2]. rewrite Pos2Z.inj_succ. f_equal.
    induction p as [p IH|p IH|]; cbn [digits2_pos Pos.size]; try reflexivity;
      now rewrite !Pos2Z.inj_succ, IH.
  - cbn [digits2_pos Z.log2]. rewrite Pos2Z.inj_succ. f_equal.
    induction p as [p IH|p IH|]; cbn [digits2_pos Pos.size]; try reflexivity;
      now rewrite !Pos2Z.inj_succ, IH.
Qed.

Lemma Zdigits2_nonneg (m : Z) : 0 <= Zdigits2 m.
Proof. destruct m; simpl; lia. Qed.

Lemma Zdigits2_lt (m : Z) : 0 <= m -> m < 2 ^ Zdigits2 m.
Proof.
  intros Hm. destruct m as [|p|p]; [reflexivity| |lia].
  cbn [Zdigits2]. rewrite digits2_size.
  apply Z.log2_spec. lia.
Qed.

Lemma Zdigits2_le (m n : Z) : 0 <= m < 2 ^ n -> 0 <= n -> Zdigits2 m <= n.
Proof.
  intros [Hm Hlt] Hn. destruct m as [|p|p]; [exact Hn| |lia].
  cbn [Zdigits2]. rewrite digits2_size.
  assert (Z.log2 (Zpos p) < n) by (apply Z.log2_lt_pow2; lia). lia.
Qed.

Lemma shr_1_m (mrs : shr_record) :
  0 <= shr_m mrs -> shr_m (shr_1 mrs) = shr_m mrs / 2.
Proof.
  destruct mrs as [m r s]. cbn [shr_m]. intros Hm.
  destruct m as [|[p|p|]|p]; cbn [shr_1 shr_m].
  - reflexivity.
  - apply Z.div_unique with 1; lia.
  - apply Z.div_unique with 0; lia.
  - reflexivity.
  - lia.
Qed.

Lemma iter_shr_m (p : positive) (mrs : shr_record) :
  0 <= shr_m mrs -> shr_m (iter_pos shr_1 p mrs) = shr_m mrs / 2 ^ Zpos p.
Proof.
  revert mrs. induction p as [p IH|p IH|]; intros mrs Hm; cbn [iter_pos].
  - assert (H1 : 0 <= shr_m (shr_1 mrs))
      by (rewrite shr_1_m by exact Hm; apply Z.div_pos; lia).
    assert (H2 : 0 <= shr_m (iter_pos shr_1 p (shr_1 mrs)))
      by (rewrite IH by exact H1; apply Z.div_pos; [exact H1 | lia]).
    rewrite IH by exact H2. rewrite IH by exact H1. rewrite shr_1_m by exact Hm.
    rewrite !Z.div_div by lia. f_equal.
    rewrite Pos2Z.inj_xI, <- Z.pow_add_r, <- (Z.pow_1_r 2) at 1 by lia.
    rewrite <- Z.pow_add_r by lia. f_equal. lia.
  - assert (H2 : 0 <= shr_m (iter_pos shr_1 p mrs))
      by (rewrite IH by exact Hm; apply Z.div_pos; [exact Hm | lia]).
    rewrite IH by exact H2. rewrite IH by exact Hm.
    rewrite Z.div_div by lia. f_equal.
    rewrite Pos2Z.inj_xO, <- Z.pow_add_r by lia. f_equal. lia.
  - rewrite shr_1_m by exact Hm. reflexivity.
Qed.

Lemma rne_bounds (m : Z) (l : location) :
  m <= round_nearest_even m l <= m + 1.
Proof.
  destruct l as [|[]]; cbn [round_nearest_even]; try lia.
  destruct (Z.even m); lia.
Qed.

Definition fexp64 (e : Z) : Z := Z.max (e - 53) (-1074).

Lemma fexp_64 (e : Z) : fexp 53 1024 e = fexp64 e.
Proof. reflexivity. Qed.

(** One alignment step: the mantissa is divided by a power of two and the
    exponent raised to [fexp] of the magnitude, when that is above it. *)
Lemma shr_fexp_spec (m e : Z) (l : location) :
  0 <= m ->
  let '(mrs, e1) := shr_fexp 53 1024 m e l in
  e1 = Z.max e (fexp64 (Zdigits2 m + e))
  /\ shr_m mrs = m / 2 ^ (e1 - e).
Proof.
  intros Hm. unfold shr_fexp. rewrite fexp_64.
  set (k := fexp64 (Zdigits2 m + e) - e).
  assert (Hr : shr_m (shr_record_of_loc m l) = m)
    by (destruct l as [|[]]; reflexivity).
  unfold shr. destruct k as [|p|p] eqn:Ek.
  - split; [lia|]. rewrite Hr, Z.sub_diag, Z.pow_0_r, Z.div_1_r. reflexivity.
  - split; [lia|]. rewrite iter_shr_m by (rewrite Hr; exact Hm).
    rewrite Hr. f_equal. f_equal. lia.
  - split; [lia|]. rewrite Hr, Z.sub_diag, Z.pow_0_r, Z.div_1_r. reflexivity.
Qed.

Lemma div_pow2_lt (x d k : Z) :
  0 <= x < 2 ^ d -> 0 <= d -> 0 <= k -> x / 2 ^ k < 2 ^ Z.max 0 (d - k).
Proof.
  intros [Hx Hlt] Hd Hk.
  assert (Hp : 0 < 2 ^ k) by (apply Z.pow_pos_nonneg; lia).
  destruct (Z.le_gt_cases k d) as [Hkd|Hkd].
  - replace (Z.max 0 (d - k)) with (d - k) by lia.
    apply Z.div_lt_upper_bound; [exact Hp|].
    rewrite <- Z.pow_add_r by lia. now replace (k + (d - k)) with d by lia.
  - replace (Z.max 0 (d - k)) with 0 by lia.
    rewrite Z.div_small; [reflexivity|]. split; [exact Hx|].
    apply Z.lt_le_trans with (2 ^ d); [exact Hlt|].
    apply Z.pow_le_mono_r; lia.
Qed.

Lemma Zdigits2_ge (m n : Z) : 0 <= n -> 2 ^ n <= m -> n + 1 <= Zdigits2 m.
Proof.
  intros Hn Hm.
  assert (Hp : 0 < 2 ^ n) by (apply Z.pow_pos_nonneg; lia).
  destruct m as [|p|p]; try lia.
  cbn [Zdigits2]. rewrite digits2_size.
  assert (n <= Z.log2 (Zpos p)) by (apply Z.log2_le_pow2; lia). lia.
Qed.

Lemma Zdigits2_mono (a b : Z) : 0 <= a <= b -> Zdigits2 a <= Zdigits2 b.
Proof.
  intros [Ha Hab]. destruct a as [|p|p]; [apply Zdigits2_nonneg| |lia].
  destruct b as [|q|q]; try lia.
  cbn [Zdigits2]. rewrite !digits2_size.
  assert (Z.log2 (Zpos p) <= Z.log2 (Zpos q)) by (apply Z.log2_le_mono; lia).
  lia.
Qed.

Lemma Zdigits2_low (m : Z) : 0 < m -> 2 ^ (Zdigits2 m - 1) <= m.
Proof.
  intros Hm. destruct m as [|p|p]; try lia.
  cbn [Zdigits2]. rewrite digits2_size.
  replace (Z.log2 (Zpos p) + 1 - 1) with (Z.log2 (Zpos p)) by lia.
  apply Z.log2_spec. lia.
Qed.

(** Dividing by [2 ^ k] takes [k] digits away, as long as some remain. *)
Lemma div_pow2_digits (x k : Z) :
  0 < x -> 0 <= k -> k < Zdigits2 x ->
  Zdigits2 x - k <= Zdigits2 (x / 2 ^ k).
Proof.
  intros Hx Hk Hlt.
  replace (Zdigits2 x - k) with ((Zdigits2 x - 1 - k) + 1) by lia.
  apply Zdigits2_ge; [lia|].
  apply Z.div_le_lower_bound; [apply Z.pow_pos_nonneg; lia|].
  rewrite <- Z.pow_add_r by lia.
  replace (k + (Zdigits2 x - 1 - k)) with (Zdigits2 x - 1) by lia.
  now apply Zdigits2_low.
Qed.

(** Rounding a positive mantissa: a zero when the number is below the
    range, an infinity when it is above, and otherwise a finite number with
    a mantissa of at most 53 bits whose magnitude is that of the input, or
    one more. The sign is kept. *)
Lemma round_aux_spec (s : bool) (M : positive) (E : Z) :
  let d := Zpos (digits2_pos M) in
  let z := binary_round_aux 53 1024 s (Zpos M) E loc_Exact in
  (z = S754_zero s /\ d + E <= -1074)
  \/ (z = S754_infinity s /\ (971 < E \/ 1023 < d + E))
  \/ exists m e,
       z = S754_finite s m e
       /\ Zpos (digits2_pos m) <= 53
       /\ e <= 971
       /\ d + E <= Zpos (digits2_pos m) + e <= Z.max (d + E) (-1074) + 1.
Proof.
  intros d z. unfold z, binary_round_aux.
  assert (H1 := shr_fexp_spec (Zpos M) E loc_Exact (Pos2Z.is_nonneg M)).
  destruct (shr_fexp 53 1024 (Zpos M) E loc_Exact) as [mrs' e'].
  destruct H1 as [He' Hm1].
  cbn [Zdigits2] in He'. fold d in He'.
  assert (Hd : 1 <= d) by (unfold d; lia).
  assert (HM : 0 <= Zpos M < 2 ^ d)
    by (split; [lia | apply (Zdigits2_lt (Zpos M)); lia]).
  assert (Hk : 0 <= e' - E) by lia.
  assert (Hm1lt := div_pow2_lt (Zpos M) d (e' - E) HM ltac:(lia) Hk).
  rewrite <- Hm1 in Hm1lt.
  assert (Hm1pos : 0 <= shr_m mrs')
    by (rewrite Hm1; apply Z.div_pos; [lia | apply Z.pow_pos_nonneg; lia]).
  assert (Hm1low : e' - E < d -> d - (e' - E) <= Zdigits2 (shr_m mrs')).
  { intros Hlt. rewrite Hm1.
    apply (div_pow2_digits (Zpos M) (e' - E)); cbn [Zdigits2]; fold d; lia. }
  set (a := Z.max 0 (d - (e' - E))) in *.
  assert (Ha : 0 <= a <= 53) by (unfold a, fexp64 in *; lia).
  assert (Hr := rne_bounds (shr_m mrs') (loc_of_shr_record mrs')).
  set (m' := round_nearest_even (shr_m mrs') (loc_of_shr_record mrs')) in *.
  assert (Hm' : 0 <= m' < 2 ^ (a + 1)).
  { split; [lia|]. rewrite Z.pow_add_r, Z.pow_1_r by lia. lia. }
  assert (HDm := Zdigits2_le m' (a + 1) Hm' ltac:(lia)).
  assert (HDm0 := Zdigits2_nonneg m').
  assert (HDmlow : 0 < m' -> d + E <= Zdigits2 m' + e').
  { intros Hpos. destruct (Z.lt_ge_cases (e' - E) d) as [Hlt|Hge].
    - assert (H := Zdigits2_mono (shr_m mrs') m' ltac:(lia)).
      specialize (Hm1low Hlt). lia.
    - assert (1 <= Zdigits2 m'); [|lia].
      apply (Zdigits2_ge m' 0); simpl; lia. }
  assert (H2 := shr_fexp_spec m' e' loc_Exact (proj1 Hm')).
  destruct (shr_fexp 53 1024 m' e' loc_Exact) as [mrs'' e''].
  destruct H2 as [He'' Hm2].
  assert (Hk' : 0 <= e'' - e') by lia.
  assert (Hm2lt := div_pow2_lt m' (Zdigits2 m') (e'' - e')
                     (conj (proj1 Hm') (Zdigits2_lt m' (proj1 Hm')))
                     HDm0 Hk').
  rewrite <- Hm2 in Hm2lt.
  set (c := Z.max 0 (Zdigits2 m' - (e'' - e'))) in *.
  assert (Hc : 0 <= c <= 53) by (unfold c, fexp64 in *; lia).
  assert (Hm2low : 0 < m' -> Zdigits2 m' - (e'' - e') <= Zdigits2 (shr_m mrs'')).
  { intros Hpos. rewrite Hm2.
    assert (1 <= Zdigits2 m') by (apply (Zdigits2_ge m' 0); simpl; lia).
    apply (div_pow2_digits m' (e'' - e')); unfold fexp64 in *; lia. }
  destruct (shr_m mrs'') as [|m|m] eqn:Em.
  - left. split; [reflexivity|].
    destruct (Z.eq_dec m' 0) as [E0|Hn0].
    + (* the first shift left nothing *)
      destruct (Z.lt_ge_cases (e' - E) d) as [Hlt|Hge].
      * specialize (Hm1low Hlt).
        assert (Zdigits2 (shr_m mrs') <= Zdigits2 m')
          by (apply Zdigits2_mono; lia).
        rewrite E0 in *. cbn [Zdigits2] in *. lia.
      * unfold fexp64 in *. lia.
    + specialize (Hm2low ltac:(lia)). cbn [Zdigits2] in Hm2low.
      assert (1 <= Zdigits2 m') by (apply (Zdigits2_ge m' 0); simpl; lia).
      unfold fexp64 in *. lia.
  - right.
    assert (Hdm : Zpos (digits2_pos m) <= c)
      by (apply (Zdigits2_le (Zpos m) c); lia).
    assert (Hc0 : c <> 0).
    { intros E0. rewrite E0 in Hm2lt. simpl in Hm2lt. lia. }
    assert (Hpos : 0 < m').
    { destruct (Z.eq_dec m' 0) as [E0|]; [|lia].
      rewrite E0, Z.div_0_l in Hm2; [lia|].
      apply Z.pow_nonzero; lia. }
    specialize (HDmlow Hpos). specialize (Hm2low Hpos).
    cbn [Zdigits2] in Hm2low.
    destruct (Z.leb_spec e'' (1024 - 53)) as [Hle|Hgt].
    + right. exists m, e''. split; [reflexivity|].
      repeat split; unfold a, c, fexp64 in *; lia.
    + left. split; [reflexivity|]. unfold a, c, fexp64 in *. lia.
  - exfalso.
    assert (0 <= m' / 2 ^ (e'' - e'))
      by (apply Z.div_pos; [lia | apply Z.pow_pos_nonneg; lia]).
    lia.
Qed.

(** Within the exponent range the result is a zero or a finite number. *)
Lemma round_aux_finite (s : bool) (M : positive) (E : Z) :
  E <= 971 -> Zpos (digits2_pos M) + E <= 1023 ->
  binary_round_aux 53 1024 s (Zpos M) E loc_Exact = S754_zero s
  \/ exists m e,
       binary_round_aux 53 1024 s (Zpos M) E loc_Exact = S754_finite s m e
       /\ Zpos (digits2_pos m) <= 53
       /\ Zpos (digits2_pos m) + e
          <= Z.max (Zpos (digits2_pos M) + E) (-1074) + 1
       /\ e <= 971.
Proof.
  intros HE Hmag.
  destruct (round_aux_spec s M E)
    as [[E0 _]|[[_ Hov]|[m [e [E0 [H1 [H2 [_ H3]]]]]]]].
  - now left.
  - lia.
  - right. exists m, e. repeat split; assumption.
Qed.

Lemma shl_align_spec (mx : positive) (ex ex' : Z) :
  let '(mz, ez) := shl_align mx ex ex' in
  ez <= ex
  /\ Zpos (digits2_pos mz) + ez = Zpos (digits2_pos mx) + ex.
Proof.
  unfold shl_align. destruct (ex' - ex) as [|d|d] eqn:Ed; try (split; lia).
  split; [lia|].
  assert (Hz : Zpos (Pos.iter xO mx d) = Zpos mx * 2 ^ Zpos d).
  { clear Ed. induction d as [|d IH] using Pos.peano_ind.
    - cbn [Pos.iter]. lia.
    - rewrite Pos.iter_succ, Pos2Z.inj_xO, IH, Pos2Z.inj_succ,
        Z.pow_succ_r by lia. lia. }
  rewrite !digits2_size, Hz, Z.log2_mul_pow2 by lia. lia.
Qed.

Lemma of_Z_cases (n : Z) :
  0 <= n -> Zdigits2 n <= 1023 ->
  Float64.of_Z n = S754_zero false
  \/ exists m e,
       Float64.of_Z n = S754_finite false m e
       /\ Zpos (digits2_pos m) <= 53
       /\ Zpos (digits2_pos m) + e <= Zdigits2 n + 1
       /\ e <= 971.
Proof.
  intros Hn Hd. unfold Float64.of_Z, Float64.prec, Float64.emax.
  destruct n as [|p|p]; [now left| |lia].
  cbn [binary_normalize Zdigits2] in *. unfold binary_round.
  assert (Ha := shl_align_spec p 0 (fexp 53 1024 (Zpos (digits2_pos p) + 0))).
  destruct (shl_align p 0 _) as [mz ez]. destruct Ha as [Hez Hmag].
  destruct (round_aux_finite false mz ez) as [E|[m [e [E [H1 [H2 H3]]]]]];
    try lia.
  - now left.
  - right. exists m, e. repeat split; try assumption. lia.
Qed.

Lemma mul_cases (sx sy : bool) (mx my : positive) (ex ey : Z) :
  ex + ey <= 971 ->
  Zpos (digits2_pos mx) + ex + (Zpos (digits2_pos my) + ey) <= 1023 ->
  let z := Float64.mul (S754_finite sx mx ex) (S754_finite sy my ey) in
  z = S754_zero (xorb sx sy)
  \/ exists m e, z = S754_finite (xorb sx sy) m e
                 /\ Zpos (digits2_pos m) <= 53.
Proof.
  intros He Hmag. unfold Float64.mul, Float64.prec, Float64.emax.
  cbn [SFmul]. cbv zeta.
  assert (Hd : Zpos (digits2_pos (mx * my))
               <= Zpos (digits2_pos mx) + Zpos (digits2_pos my)).
  { apply (Zdigits2_le (Zpos (mx * my))); [|lia].
    split; [lia|]. rewrite Z.pow_add_r, Pos2Z.inj_mul by lia.
    assert (Hx := Zdigits2_lt (Zpos mx) ltac:(lia)).
    assert (Hy := Zdigits2_lt (Zpos my) ltac:(lia)).
    cbn [Zdigits2] in Hx, Hy. nia. }
  destruct (round_aux_finite (xorb sx sy) (mx * my) (ex + ey))
    as [E|[m [e [E [H1 _]]]]]; try lia.
  - now left.
  - right. now exists m, e.
Qed.

End Rounding64.

(** *** The cuts of a ratio *)

Section Cuts64.

Local Open Scope Z_scope.

Lemma compare_cont_lt (m k : positive) :
  Pos.compare_cont Eq m k = Lt -> Zpos m < Zpos k.
Proof.
  intros H. exact H.
Qed.

Lemma is_ratio_cases (r : Val64.float) :
  Val64.is_ratio r ->
  (exists s, r = S754_zero s)
  \/ exists m e, r = S754_finite false m e
                 /\ Zpos (digits2_pos m) <= 53
                 /\ Zpos (digits2_pos m) + e <= 1.
Proof.
  intros [Hv [H0 H2]].
  destruct r as [s|s| |s m e]; try discriminate.
  - left. now exists s.
  - destruct s; try discriminate.
  - destruct s; [discriminate|]. right. exists m, e.
    split; [reflexivity|].
    unfold valid_binary, bounded, canonical_mantissa in Hv.
    apply andb_prop in Hv. destruct Hv as [Hc _].
    apply Z.eqb_eq in Hc. rewrite fexp_64 in Hc. unfold fexp64 in Hc.
    assert (Hd : Zpos (digits2_pos m) <= 53) by lia.
    split; [exact Hd|].
    unfold SFltb, Val64.f2 in H2. cbn [SFcompare] in H2.
    destruct (Z.compare_spec e (-51)) as [E|E|E]; try discriminate; [|lia].
    subst e.
    destruct (Pos.compare_cont Eq m 4503599627370496) eqn:Ec;
      try discriminate.
    apply compare_cont_lt in Ec.
    assert (Zpos (digits2_pos m) <= 52); [|lia].
    apply (Zdigits2_le (Zpos m) 52); lia.
Qed.

Lemma float_of_len (n : nat) :
  Z.of_nat n < 2 ^ 53 ->
  Val64.float_of_int (Z.of_nat n) = Ok (S754_zero false)
  \/ exists m e,
       Val64.float_of_int (Z.of_nat n) = Ok (S754_finite false m e)
       /\ Zpos (digits2_pos m) + e <= 54
       /\ e <= 971.
Proof.
  intros Hn. unfold Val64.float_of_int.
  assert (Hd : Zdigits2 (Z.of_nat n) <= 53)
    by (apply Zdigits2_le; lia).
  destruct (of_Z_cases (Z.of_nat n)) as [E|[m [e [E [H1 [H2 H3]]]]]];
    try lia; rewrite E.
  - now left.
  - right. exists m, e. repeat split; [lia | exact H3].
Qed.

(** A ratio times a length that binary64 holds exactly: a non-negative
    finite product, with a mantissa of at most 53 bits. *)
Lemma ratio_product (r : Val64.float) (n : nat) :
  Val64.is_ratio r -> Z.of_nat n < 2 ^ 53 ->
  exists x,
    Val64.float_of_int (Z.of_nat n) = Ok x
    /\ Float64.of_Z (Z.of_nat n) = x
    /\ ((exists s, Float64.mul r x = S754_zero s)
        \/ exists m e, Float64.mul r x = S754_finite false m e
                       /\ Zpos (digits2_pos m) <= 53).
Proof.
  intros Hr Hn.
  assert (Hof : forall x, Val64.float_of_int (Z.of_nat n) = Ok x ->
                          Float64.of_Z (Z.of_nat n) = x).
  { unfold Val64.float_of_int. intros x.
    destruct (Float64.of_Z (Z.of_nat n)); intros H; inversion H;
      reflexivity. }
  destruct (float_of_len n Hn) as [En|[my [ey [En [Hy1 Hy2]]]]];
    destruct (is_ratio_cases r Hr) as [[s ->]|[mx [ex [-> [Hx1 Hx2]]]]];
    eexists; (split; [exact En|]); (split; [exact (Hof _ En)|]).
  - left. eexists. reflexivity.
  - left. eexists. reflexivity.
  - left. eexists. reflexivity.
  - assert (Hmx : 1 <= Zpos (digits2_pos mx)) by lia.
    assert (Hmy : 1 <= Zpos (digits2_pos my)) by lia.
    destruct (mul_cases false false mx my ex ey) as [E|[m [e [E Hd]]]];
      try lia.
    + left. eexists. exact E.
    + right. exists m, e. split; [exact E | exact Hd].
Qed.

Lemma cut_defined (r : Val64.float) (n : nat) :
  Val64.is_ratio r -> Z.of_nat n < 2 ^ 53 ->
  exists a, Val64.cut r n = Ok a /\ 0 <= a.
Proof.
  intros Hr Hn. unfold Val64.cut.
  destruct (ratio_product r n Hr Hn) as [x [En [_ [[s E]|[m [e [E _]]]]]]];
    rewrite En; cbn [bind]; rewrite E; cbn [Val64.py_int].
  - exists 0. split; [reflexivity | lia].
  - eexists. split; [reflexivity|].
    destruct (Z.leb_spec 0 e).
    + apply Z.mul_nonneg_nonneg; [lia | apply Z.pow_nonneg; lia].
    + apply Z.div_pos; [lia | apply Z.pow_pos_nonneg; lia].
Qed.

(** A product below [1.0] is cut to 0. *)
Lemma cut_below_one (r : Val64.float) (n : nat) :
  Val64.is_ratio r -> Z.of_nat n < 2 ^ 53 ->
  SFltb (Float64.mul r (Float64.of_Z (Z.of_nat n))) Val64.f1 = true ->
  Val64.cut r n = Ok 0.
Proof.
  intros Hr Hn Hlt. unfold Val64.cut.
  destruct (ratio_product r n Hr Hn)
    as [x [En [Ex [[s E]|[m [e [E Hd]]]]]]];
    rewrite Ex in Hlt; rewrite E in Hlt; rewrite En; cbn [bind];
    rewrite E; cbn [Val64.py_int]; [reflexivity|].
  unfold SFltb, Val64.f1 in Hlt. cbn [SFcompare] in Hlt.
  assert (Hm := Zdigits2_lt (Zpos m) ltac:(lia)). cbn [Zdigits2] in Hm.
  assert (Hm53 : Zpos m < 2 ^ 53).
  { apply Z.lt_le_trans with (2 ^ Zpos (digits2_pos m)); [exact Hm|].
    apply Z.pow_le_mono_r; lia. }
  destruct (Z.compare_spec e (-52)) as [E52|E52|E52]; try discriminate.
  - subst e.
    destruct (Pos.compare_cont Eq m 4503599627370496) eqn:Ec;
      try discriminate.
    apply compare_cont_lt in Ec.
    cbn [Z.leb Z.compare]. f_equal. apply Z.div_small. lia.
  - destruct (0 <=? e) eqn:E0; [apply Z.leb_le in E0; lia|].
    f_equal. apply Z.div_small. split; [lia|].
    apply Z.lt_le_trans with (2 ^ 53); [exact Hm53|].
    apply Z.pow_le_mono_r; lia.
Qed.

End Cuts64.

(** *** The sum of the ratios *)

Section Sums64.

Local Open Scope Z_scope.

Lemma shl_align_value (mx : positive) (ex ez : Z) :
  ez <= ex ->
  snd (shl_align mx ex ez) = ez
  /\ Zpos (fst (shl_align mx ex ez)) = Zpos mx * 2 ^ (ex - ez).
Proof.
  intros Hle. unfold shl_align.
  destruct (ez - ex) as [|d|d] eqn:Ed; try lia; cbn [fst snd].
  - split; [lia|]. replace (ex - ez) with 0 by lia. lia.
  - split; [reflexivity|].
    replace (ex - ez) with (Zpos d) by lia. clear Ed Hle.
    induction d as [|d IH] using Pos.peano_ind.
    + cbn [Pos.iter]. lia.
    + rewrite Pos.iter_succ, Pos2Z.inj_xO, IH, Pos2Z.inj_succ,
        Z.pow_succ_r by lia. lia.
Qed.

Lemma digits_scaled (m : positive) (k : Z) :
  0 <= k -> Zdigits2 (Zpos m * 2 ^ k) = Zpos (digits2_pos m) + k.
Proof.
  intros Hk. assert (Hp : 0 < 2 ^ k) by (apply Z.pow_pos_nonneg; lia).
  destruct (Zpos m * 2 ^ k) as [|p|p] eqn:E; try lia.
  cbn [Zdigits2]. rewrite !digits2_size, <- E, Z.log2_mul_pow2 by lia. lia.
Qed.

(** A non-negative float: a zero, the positive infinity, or a positive
    finite number with a mantissa of at most 53 bits. *)
Definition nonneg_shape (x : spec_float) : Prop :=
  (exists s, x = S754_zero s)
  \/ x = S754_infinity false
  \/ exists m e, x = S754_finite false m e /\ Zpos (digits2_pos m) <= 53.

(** A float that is at least 2. *)
Definition at_least_2 (x : spec_float) : Prop :=
  x = S754_infinity false
  \/ exists m e, x = S754_finite false m e
                 /\ Zpos (digits2_pos m) <= 53
                 /\ 2 <= Zpos (digits2_pos m) + e.

Lemma nonneg_is_shape (x : spec_float) :
  Val64.nonneg x -> nonneg_shape x.
Proof.
  intros [Hv H0]. destruct x as [s|s| |s m e]; try discriminate.
  - left. now exists s.
  - destruct s; [discriminate|]. right. now left.
  - destruct s; [discriminate|]. right. right. exists m, e.
    split; [reflexivity|].
    unfold valid_binary, bounded, canonical_mantissa in Hv.
    apply andb_prop in Hv. destruct Hv as [Hc _].
    apply Z.eqb_eq in Hc. rewrite fexp_64 in Hc. unfold fexp64 in Hc. lia.
Qed.

Lemma not_below_2 (x : spec_float) :
  Val64.nonneg x -> SFltb x Val64.f2 = false -> at_least_2 x.
Proof.
  intros [Hv H0] H2. destruct x as [s|s| |s m e]; try discriminate.
  - destruct s; [discriminate|]. now left.
  - destruct s; [discriminate|]. right. exists m, e.
    split; [reflexivity|].
    unfold valid_binary, bounded, canonical_mantissa in Hv.
    apply andb_prop in Hv. destruct Hv as [Hc _].
    apply Z.eqb_eq in Hc. rewrite fexp_64 in Hc. unfold fexp64 in Hc.
    unfold SFltb, Val64.f2 in H2. cbn [SFcompare] in H2.
    destruct (Z.compare_spec e (-51)) as [E|E|E]; try discriminate; lia.
Qed.

Lemma normalize_sum (p : positive) (ez : Z) :
  let z := binary_normalize 53 1024 (Zpos p) ez false in
  (z = S754_zero false /\ Zpos (digits2_pos p) + ez <= -1074)
  \/ z = S754_infinity false
  \/ exists m e, z = S754_finite false m e
                 /\ Zpos (digits2_pos m) <= 53
                 /\ Zpos (digits2_pos p) + ez <= Zpos (digits2_pos m) + e.
Proof.
  cbn [binary_normalize]. unfold binary_round.
  assert (Ha := shl_align_spec p ez (fexp 53 1024 (Zpos (digits2_pos p) + ez))).
  destruct (shl_align p ez _) as [mz e1]. destruct Ha as [_ Hmag].
  destruct (round_aux_spec false mz e1)
    as [[E Hz]|[[E _]|[m [e [E [H1 [_ [H2 _]]]]]]]]; rewrite E.
  - left. split; [reflexivity | lia].
  - right. now left.
  - right. right. exists m, e. split; [reflexivity|]. split; [exact H1 | lia].
Qed.

Lemma add_nonneg (x y : spec_float) :
  nonneg_shape x -> nonneg_shape y ->
  nonneg_shape (Float64.add x y)
  /\ (at_least_2 x \/ at_least_2 y -> at_least_2 (Float64.add x y)).
Proof.
  unfold Float64.add, Float64.prec, Float64.emax.
  intros [[sx ->]|[->|[mx [ex [-> Hx]]]]] [[sy ->]|[->|[my [ey [-> Hy]]]]];
    cbn [SFadd].
  - split.
    + left. destruct sx, sy; eexists; reflexivity.
    + intros [[H|[m [e [H _]]]]|[H|[m [e [H _]]]]]; discriminate.
  - split; [right; now left | intros _; now left].
  - split; [right; right; now exists my, ey | ].
    intros [[H|[m [e [H _]]]]|H]; [discriminate | discriminate | exact H].
  - split; [right; now left | intros _; now left].
  - split; [right; now left | intros _; now left].
  - split; [right; now left | intros _; now left].
  - split; [right; right; now exists mx, ex | ].
    intros [H|[H|[m [e [H _]]]]]; [exact H | discriminate | discriminate].
  - split; [right; now left | intros _; now left].
  - cbv zeta. cbn [cond_Zopp].
    set (ez := Z.min ex ey).
    destruct (shl_align_value mx ex ez ltac:(lia)) as [_ Ea].
    destruct (shl_align_value my ey ez ltac:(lia)) as [_ Eb].
    set (a := fst (shl_align mx ex ez)) in *.
    set (b := fst (shl_align my ey ez)) in *.
    change (Zpos a + Zpos b) with (Zpos (a + b)).
    assert (Hda : Zpos (digits2_pos mx) + ex <= Zpos (digits2_pos (a + b)) + ez).
    { assert (H := Zdigits2_mono (Zpos a) (Zpos (a + b)) ltac:(lia)).
      rewrite Ea, digits_scaled in H by lia. cbn [Zdigits2] in H. lia. }
    assert (Hdb : Zpos (digits2_pos my) + ey <= Zpos (digits2_pos (a + b)) + ez).
    { assert (H := Zdigits2_mono (Zpos b) (Zpos (a + b)) ltac:(lia)).
      rewrite Eb, digits_scaled in H by lia. cbn [Zdigits2] in H. lia. }
    destruct (normalize_sum (a + b) ez)
      as [[E Hz]|[E|[m [e [E [H1 H2]]]]]]; rewrite E.
    + split; [left; now exists false|].
      intros [[H|[m [e [H [_ Hm]]]]]|[H|[m [e [H [_ Hm]]]]]];
        try discriminate; inversion H; subst; lia.
    + split; [right; now left | intros _; now left].
    + split; [right; right; now exists m, e|].
      intros H. right. exists m, e. split; [reflexivity|]. split; [exact H1|].
      destruct H as [[H|[m0 [e0 [H [_ Hm]]]]]|[H|[m0 [e0 [H [_ Hm]]]]]];
        try discriminate; inversion H; subst; lia.
Qed.

(** A sum that is at least 2 fails the assertion. *)
Lemma far_from_one (x : spec_float) :
  at_least_2 x ->
  SFltb (SFabs (Float64.sub x (Float64.of_Z 1))) Float64.f1e_6 = false.
Proof.
  change (Float64.of_Z 1) with Val64.f1.
  unfold Float64.sub, Float64.prec, Float64.emax, Val64.f1.
  intros [->|[m [e [-> [Hd Hmag]]]]]; [reflexivity|].
  cbn [SFsub]. cbv zeta. cbn [cond_Zopp].
  set (ez := Z.min e (-52)).
  destruct (shl_align_value m e ez ltac:(lia)) as [_ Ea].
  destruct (shl_align_value 4503599627370496 (-52) ez ltac:(lia)) as [_ Eb].
  set (a := fst (shl_align m e ez)) in *.
  set (b := fst (shl_align 4503599627370496 (-52) ez)) in *.
  assert (Hb : Zpos b = 2 ^ (- ez)).
  { rewrite Eb. change (Zpos 4503599627370496) with (2 ^ 52).
    rewrite <- Z.pow_add_r by lia. f_equal. lia. }
  assert (Ha : 2 ^ (1 - ez) <= Zpos a).
  { rewrite Ea.
    assert (Hm := Zdigits2_low (Zpos m) ltac:(lia)). cbn [Zdigits2] in Hm.
    apply Z.le_trans
      with (2 ^ (Zpos (digits2_pos m) - 1) * 2 ^ (e - ez)).
    - rewrite <- Z.pow_add_r by lia. apply Z.pow_le_mono_r; lia.
    - apply Z.mul_le_mono_nonneg_r; [apply Z.pow_nonneg; lia | exact Hm]. }
  assert (Hp : 0 < 2 ^ (- ez)) by (apply Z.pow_pos_nonneg; lia).
  assert (H2 : 2 ^ (1 - ez) = 2 * 2 ^ (- ez)).
  { replace (1 - ez) with (Z.succ (- ez)) by lia.
    apply Z.pow_succ_r. lia. }
  destruct (Zpos a - Zpos b) as [|p|p] eqn:Ep; try lia.
  assert (Hdp : - ez + 1 <= Zpos (digits2_pos p)).
  { apply (Zdigits2_ge (Zpos p) (- ez)); lia. }
  destruct (normalize_sum p ez) as [[E Hz]|[E|[m' [e' [E [H1 H3]]]]]];
    rewrite E; cbn [SFabs].
  - lia.
  - reflexivity.
  - unfold SFltb, Float64.f1e_6. cbn [SFcompare].
    destruct (Z.compare_spec e' (-72)) as [E72|E72|E72];
      [lia | lia | reflexivity].
Qed.

(** No ratio of a non-negative triple that passes the assertion reaches 2. *)
Lemma valid_ratios_below_2 (r0 r1 r2 : Val64.float) :
  Val64.valid_ratios (r0, r1, r2) ->
  Val64.is_ratio r0 /\ Val64.is_ratio r1 /\ Val64.is_ratio r2.
Proof.
  intros [H0 [H1 [H2 Hr]]].
  assert (S0 := nonneg_is_shape r0 H0).
  assert (S1 := nonneg_is_shape r1 H1).
  assert (S2 := nonneg_is_shape r2 H2).
  assert (Sz : nonneg_shape (Float64.of_Z 0)) by (left; now exists false).
  destruct (add_nonneg _ _ Sz S0) as [Sa Pa].
  destruct (add_nonneg _ _ Sa S1) as [Sb Pb].
  destruct (add_nonneg _ _ Sb S2) as [_ Pc].
  unfold Val64.ratios_sum_ok, Float64.ratios_sum_ok in Hr.
  assert (Hlow : ~ at_least_2
                   (Float64.add (Float64.add (Float64.add (Float64.of_Z 0) r0)
                                   r1) r2)).
  { intros H. apply far_from_one in H. rewrite H in Hr. discriminate. }
  unfold Val64.is_ratio. destruct H0 as [V0 N0], H1 as [V1 N1], H2 as [V2 N2].
  repeat split; try assumption.
  - destruct (SFltb r0 Val64.f2) eqn:E; [reflexivity|]. exfalso.
    apply Hlow, Pc. left. apply Pb. left. apply Pa. right.
    apply not_below_2; [split|]; assumption.
  - destruct (SFltb r1 Val64.f2) eqn:E; [reflexivity|]. exfalso.
    apply Hlow, Pc. left. apply Pb. right.
    apply not_below_2; [split|]; assumption.
  - destruct (SFltb r2 Val64.f2) eqn:E; [reflexivity|]. exfalso.
    apply Hlow, Pc. right.
    apply not_below_2; [split|]; assumption.
Qed.

End Sums64.

(** *** The positions the binary64 split selects *)

(** [int(r * n)], 0 where it is not defined. *)
Definition cut_value (r : Val64.float) (n : nat) : Z :=
  match Val64.cut r n with
  | Ok a => a
  | Raise _ => 0%Z
  end.

(** What one turn of the loop sends to the three parts when the cuts are
    [a] and [b]. *)
Definition one_cut_at (a b : Z) (gp p : list nat)
  : list nat * list nat * list nat :=
  let '(x, y, z) := cuts_at a (a + b)%Z p in
  let pick := map (fun i => nth i gp 0) in
  (pick x, pick y, pick z).

(** The number of rows a group of [g] rows sends to Train, Validation and
    Test when its cuts are [a] and [b]. *)
Definition train_size (a : Z) (g : nat) : nat := Nat.min (Z.to_nat a) g.
Definition val_size (a b : Z) (g : nat) : nat :=
  Nat.min (Z.to_nat (a + b)) g - Nat.min (Z.to_nat a) g.
Definition test_size (a b : Z) (g : nat) : nat :=
  g - Nat.min (Z.to_nat (a + b)) g.

Lemma one_cut_at_perm (a b : Z) (gp p : list nat) :
  (0 <= a)%Z -> (0 <= b)%Z ->
  Permutation p (seq 0 (length gp)) ->
  let c := one_cut_at a b gp p in
  Permutation (train_of c ++ val_of c ++ test_of c) gp.
Proof.
  intros Ha Hb Hp. unfold one_cut_at, cuts_at.
  cbn [train_of val_of test_of fst snd].
  rewrite <- !map_app. rewrite slice_split by lia.
  apply perm_select, Hp.
Qed.

Lemma one_cut_at_incl (a b : Z) (gp p : list nat) :
  Permutation p (seq 0 (length gp)) ->
  let c := one_cut_at a b gp p in
  incl (train_of c) gp /\ incl (val_of c) gp /\ incl (test_of c) gp.
Proof.
  intros Hp. unfold one_cut_at, cuts_at. cbn [train_of val_of test_of fst snd].
  assert (Hr := perm_in_range _ _ Hp).
  repeat split; apply pick_incl; eapply in_range_incl;
    try apply slice_incl; exact Hr.
Qed.

Lemma one_cut_at_sizes (a b : Z) (gp p : list nat) :
  (0 <= a)%Z -> (0 <= b)%Z ->
  Permutation p (seq 0 (length gp)) ->
  let c := one_cut_at a b gp p in
  length (train_of c) = train_size a (length gp)
  /\ length (val_of c) = val_size a b (length gp)
  /\ length (test_of c) = test_size a b (length gp).
Proof.
  intros Ha Hb Hp. unfold one_cut_at, cuts_at.
  cbn [train_of val_of test_of fst snd].
  assert (Hl : length p = length gp)
    by (rewrite (Permutation_length Hp); apply length_seq).
  unfold train_size, val_size, test_size.
  rewrite !length_map, slice_head_length, slice_mid_length, slice_tail_length
    by lia.
  rewrite Hl. repeat split.
Qed.

Lemma sizes_sum (a b : Z) (g : nat) :
  (0 <= a)%Z -> (0 <= b)%Z ->
  train_size a g + val_size a b g + test_size a b g = g.
Proof. intros Ha Hb. unfold train_size, val_size, test_size. lia. Qed.

Lemma sizes_fit (a b : Z) (g : nat) :
  (0 <= a)%Z -> (0 <= b)%Z -> (a + b <= Z.of_nat g)%Z ->
  Z.of_nat (train_size a g) = a
  /\ Z.of_nat (val_size a b g) = b
  /\ Z.of_nat (test_size a b g) = (Z.of_nat g - a - b)%Z.
Proof. intros Ha Hb Hab. unfold train_size, val_size, test_size. lia. Qed.

Section Positions64.

Context {R : RandomLib}.

Variables r0 r1 : Val64.float.

Hypothesis ratio0 : Val64.is_ratio r0.
Hypothesis ratio1 : Val64.is_ratio r1.

(** The loop over the groups, on positions. *)
Fixpoint strat_positions64 (rng : bit_generator) (groups : list (list nat))
  : list (list nat * list nat * list nat) :=
  match groups with
  | [] => []
  | gp :: rest =>
      let '(p, rng') := shuffle_draw rng (length gp) in
      one_cut_at (cut_value r0 (length gp)) (cut_value r1 (length gp)) gp p
      :: strat_positions64 rng' rest
  end.

(** Every group is short enough for binary64 to hold its length. *)
Definition short_groups (groups : list (list nat)) : Prop :=
  Forall (fun gp => (Z.of_nat (length gp) < 2 ^ 53)%Z) groups.

Lemma cut_value_spec (r : Val64.float) (n : nat) :
  Val64.is_ratio r -> (Z.of_nat n < 2 ^ 53)%Z ->
  Val64.cut r n = Ok (cut_value r n) /\ (0 <= cut_value r n)%Z.
Proof.
  intros Hr Hn. unfold cut_value.
  destruct (cut_defined r n Hr Hn) as [a [-> Ha]]. now split.
Qed.

Lemma split_groups64_eq (df : DataFrame)
    (groups : list (value * list nat)) (rng : bit_generator) :
  short_groups (map snd groups) ->
  let cuts := strat_positions64 rng (map snd groups) in
  Val64.split_groups r0 r1 rng
    (map (fun kg => (fst kg, select df (snd kg))) groups)
  = Ok (map (fun c => select df (train_of c)) cuts,
        map (fun c => select df (val_of c)) cuts,
        map (fun c => select df (test_of c)) cuts).
Proof.
  revert rng. induction groups as [|[k gp] groups IH]; intros rng Hs;
    [reflexivity|].
  cbn [map fst snd] in Hs. inversion Hs as [|? ? Hgp Hrest]; subst.
  cbn [map fst snd Val64.split_groups strat_positions64].
  rewrite shuffle_arange, len_select.
  assert (Hp := shuffle_draw_perm rng (length gp)).
  destruct (shuffle_draw rng (length gp)) as [p rng'].
  cbn [fst] in Hp.
  assert (Hr := perm_in_range _ _ Hp).
  destruct (cut_value_spec r0 (length gp) ratio0 Hgp) as [-> _].
  destruct (cut_value_spec r1 (length gp) ratio1 Hgp) as [-> _].
  cbn [bind]. unfold one_cut_at, cuts_at.
  rewrite !iloc_in_range
    by (rewrite len_select; eapply in_range_incl;
        [apply slice_incl | exact Hr]).
  cbn [bind]. rewrite (IH rng' Hrest).
  cbn [bind map train_of val_of test_of fst snd].
  rewrite !select_select
    by (eapply in_range_incl; [apply slice_incl | exact Hr]).
  reflexivity.
Qed.

Lemma strat_positions64_length (rng : bit_generator)
    (groups : list (list nat)) :
  length (strat_positions64 rng groups) = length groups.
Proof.
  revert rng. induction groups as [|gp groups IH]; intros rng; [reflexivity|].
  cbn [strat_positions64]. destruct (shuffle_draw rng (length gp)).
  cbn [length]. now rewrite IH.
Qed.

Lemma strat_positions64_perm (rng : bit_generator)
    (groups : list (list nat)) :
  short_groups groups ->
  let cuts := strat_positions64 rng groups in
  Permutation (List.concat (map train_of cuts)
                 ++ List.concat (map val_of cuts)
                 ++ List.concat (map test_of cuts))
              (List.concat groups).
Proof.
  revert rng.
  induction groups as [|gp groups IH]; intros rng Hs; [constructor|].
  inversion Hs as [|? ? Hgp Hrest]; subst.
  cbn [strat_positions64].
  assert (Hp := shuffle_draw_perm rng (length gp)).
  destruct (shuffle_draw rng (length gp)) as [p rng']. cbn [fst] in Hp.
  cbn [map List.concat]. cbv zeta.
  rewrite perm_interleave3.
  apply Permutation_app; [|apply IH, Hrest].
  apply one_cut_at_perm;
    [apply cut_value_spec | apply cut_value_spec | exact Hp]; assumption.
Qed.

(** The positions [_stratified_split] selects for its three outputs, before
    the index is reset. *)
Definition stratified_positions64 (c : nat) (seed : Z) (rs : list row)
  : list nat * list nat * list nat :=
  let cuts := strat_positions64 (seed_sequence seed) (stratified_groups c rs) in
  (mix seed (List.concat (map train_of cuts)),
   mix seed (List.concat (map val_of cuts)),
   mix seed (List.concat (map test_of cuts))).

Lemma group_positions_length (c : nat) (k : value) (rs : list row) :
  length (group_positions c k rs) <= length rs.
Proof.
  unfold group_positions.
  apply Nat.le_trans with (length (seq 0 (length rs)));
    [apply filter_length_le | now rewrite length_seq].
Qed.

Lemma stratified_groups_short (c : nat) (rs : list row) :
  (Z.of_nat (length rs) < 2 ^ 53)%Z ->
  short_groups (stratified_groups c rs).
Proof.
  intros Hn. unfold short_groups, stratified_groups.
  apply Forall_forall. intros gp Hgp. apply in_map_iff in Hgp.
  destruct Hgp as [k [<- _]].
  assert (H := group_positions_length c k rs). lia.
Qed.

Lemma stratified_split64_eq (df : DataFrame) (label_col : string) (c : nat)
    (seed : Z) (r2 : Val64.float) :
  Val64.ratios_sum_ok (r0, r1, r2) = true ->
  (Z.of_nat (len df) < 2 ^ 53)%Z ->
  seed32 seed ->
  column_position label_col (columns df) = Ok c ->
  rows df <> [] ->
  Val64._stratified_split df label_col seed (r0, r1, r2)
  = let '(pt, pv, ps) := stratified_positions64 c seed (rows df) in
    Ok (reset_index (select df pt), reset_index (select df pv),
        reset_index (select df ps)).
Proof.
  intros Hr Hn Hs Hc Hne. unfold Val64._stratified_split.
  rewrite Hr. cbn [py_assert bind]. unfold Val.default_rng.
  destruct Hs as [Hs0 Hs1].
  destruct (seed <? 0)%Z eqn:E; [apply Z.ltb_lt in E; lia|].
  cbn [bind]. rewrite (groupby_eq _ _ _ Hc). cbn [bind fst snd].
  rewrite split_groups64_eq
    by (rewrite map_map; cbn [snd]; apply stratified_groups_short, Hn).
  cbn [bind]. rewrite map_map. cbn [snd].
  fold (stratified_groups c (rows df)).
  set (cuts := strat_positions64 (seed_sequence seed)
                 (stratified_groups c (rows df))).
  assert (Hcuts : cuts <> []).
  { intros E'. apply (f_equal (@length _)) in E'.
    unfold cuts in E'. rewrite strat_positions64_length in E'.
    unfold stratified_groups in E'. rewrite length_map in E'.
    apply (group_keys_nonempty c (rows df) Hne).
    now apply length_zero_iff_nil. }
  rewrite <- (map_map train_of (select df)), <- (map_map val_of (select df)),
    <- (map_map test_of (select df)).
  assert (Hne3 : forall proj : _ -> list nat, map proj cuts <> [])
    by (intros proj; destruct cuts; [congruence | discriminate]).
  rewrite !pool_eq by (try apply Hne3; split; assumption).
  reflexivity.
Qed.

Lemma stratified_positions64_perm (c : nat) (seed : Z) (rs : list row) :
  (Z.of_nat (length rs) < 2 ^ 53)%Z ->
  let '(pt, pv, ps) := stratified_positions64 c seed rs in
  Permutation (pt ++ pv ++ ps) (seq 0 (length rs)).
Proof.
  intros Hn. unfold stratified_positions64.
  rewrite !mix_perm.
  rewrite strat_positions64_perm by apply stratified_groups_short, Hn.
  unfold stratified_groups. rewrite <- flat_map_concat_map.
  apply group_positions_partition.
Qed.

(** In the pooled parts, the rows of label [k] are those its own group
    sent. *)
Lemma count_in_cuts64 (c : nat) (rs : list row) (k : value)
    (proj : list nat * list nat * list nat -> list nat)
    (sz : Z -> Z -> nat -> nat) :
  (Z.of_nat (length rs) < 2 ^ 53)%Z ->
  (forall a b gp p, (0 <= a)%Z -> (0 <= b)%Z ->
                    Permutation p (seq 0 (length gp)) ->
                    incl (proj (one_cut_at a b gp p)) gp
                    /\ length (proj (one_cut_at a b gp p))
                       = sz a b (length gp)) ->
  forall (keys : list value) (rng : bit_generator),
    NoDup keys ->
    length
      (filter (fun i => value_eqb (cell c (nth i rs no_row)) k)
         (List.concat
            (map proj
               (strat_positions64 rng
                  (map (fun k' => group_positions c k' rs) keys)))))
    = if in_dec value_eq_dec k keys
      then let g := length (group_positions c k rs) in
           sz (cut_value r0 g) (cut_value r1 g) g
      else 0.
Proof.
  intros Hn Hproj keys. induction keys as [|k' keys IH]; intros rng Hnd;
    [reflexivity|].
  inversion Hnd as [|? ? Hk' Hnd']; subst.
  cbn [map strat_positions64].
  assert (Hp := shuffle_draw_perm rng (length (group_positions c k' rs))).
  destruct (shuffle_draw rng (length (group_positions c k' rs)))
    as [p rng']. cbn [fst] in Hp.
  cbn [map List.concat]. rewrite filter_app, length_app, (IH rng' Hnd').
  assert (Hg : (Z.of_nat (length (group_positions c k' rs)) < 2 ^ 53)%Z)
    by (assert (H := group_positions_length c k' rs); lia).
  destruct (Hproj _ _ _ _
              (proj2 (cut_value_spec r0 _ ratio0 Hg))
              (proj2 (cut_value_spec r1 _ ratio1 Hg)) Hp) as [Hincl Hlen].
  destruct (value_eq_dec k' k) as [->|Hne].
  - rewrite (filter_own_group c rs k) by exact Hincl. rewrite Hlen.
    destruct (in_dec value_eq_dec k keys) as [Hin|_]; [contradiction|].
    destruct (in_dec value_eq_dec k (k :: keys)) as [_|Hn'];
      [cbv zeta; lia | exfalso; apply Hn'; now left].
  - rewrite (filter_other_group c rs k k') by assumption. cbn [length].
    destruct (in_dec value_eq_dec k keys) as [Hin|Hn'];
      destruct (in_dec value_eq_dec k (k' :: keys)) as [Hin'|Hn''];
      try reflexivity.
    + exfalso. apply Hn''. now right.
    + destruct Hin' as [E|Hin']; [congruence | contradiction].
Qed.

Lemma pooled_count64 (c : nat) (rs : list row) (k : value) (seed : Z)
    (proj : list nat * list nat * list nat -> list nat)
    (sz : Z -> Z -> nat -> nat) :
  (Z.of_nat (length rs) < 2 ^ 53)%Z ->
  (forall a b, sz a b 0 = 0) ->
  (forall a b gp p, (0 <= a)%Z -> (0 <= b)%Z ->
                    Permutation p (seq 0 (length gp)) ->
                    incl (proj (one_cut_at a b gp p)) gp
                    /\ length (proj (one_cut_at a b gp p))
                       = sz a b (length gp)) ->
  length
    (filter (fun i => value_eqb (cell c (nth i rs no_row)) k)
       (mix seed
          (List.concat
             (map proj
                (strat_positions64 (seed_sequence seed)
                   (stratified_groups c rs))))))
  = let g := length (group_positions c k rs) in
    sz (cut_value r0 g) (cut_value r1 g) g.
Proof.
  intros Hn Hz Hproj.
  rewrite (filter_length_perm _ _ _ (mix_perm seed _)).
  unfold stratified_groups.
  rewrite (count_in_cuts64 c rs k proj sz Hn Hproj)
    by apply group_keys_NoDup.
  destruct (in_dec value_eq_dec k (group_keys c rs)) as [_|Hn'];
    [reflexivity|].
  rewrite (group_positions_nil _ _ _ Hn'). cbn [length]. cbv zeta.
  now rewrite Hz.
Qed.

(** Each label of the table is cut on its own: of its [g] rows, the cuts
    [a = int(r0 * g)] and [b = int(r1 * g)] send the first [a] of the shuffled
    group to Train, the next [b] to Validation and the rest to Test, as far
    as the group goes. *)
Lemma stratified_counts64 (df : DataFrame) (c : nat) (seed : Z) (k : value) :
  (Z.of_nat (len df) < 2 ^ 53)%Z ->
  let g := count_label c k df in
  let a := cut_value r0 g in
  let b := cut_value r1 g in
  let '(pt, pv, ps) := stratified_positions64 c seed (rows df) in
  count_label c k (reset_index (select df pt)) = train_size a g
  /\ count_label c k (reset_index (select df pv)) = val_size a b g
  /\ count_label c k (reset_index (select df ps)) = test_size a b g.
Proof.
  intros Hn g a b. unfold stratified_positions64.
  rewrite !count_label_reset_select.
  unfold a, b, g. rewrite count_label_positions.
  repeat split.
  - apply (pooled_count64 c (rows df) k seed train_of
             (fun a _ g => train_size a g) Hn).
    + intros; unfold train_size; lia.
    + intros a' b' gp p Ha Hb Hp. split.
      * apply (one_cut_at_incl a' b' gp p Hp).
      * apply (one_cut_at_sizes a' b' gp p Ha Hb Hp).
  - apply (pooled_count64 c (rows df) k seed val_of val_size Hn).
    + intros; unfold val_size; lia.
    + intros a' b' gp p Ha Hb Hp. split.
      * apply (one_cut_at_incl a' b' gp p Hp).
      * apply (one_cut_at_sizes a' b' gp p Ha Hb Hp).
  - apply (pooled_count64 c (rows df) k seed test_of test_size Hn).
    + intros; unfold test_size; lia.
    + intros a' b' gp p Ha Hb Hp. split.
      * apply (one_cut_at_incl a' b' gp p Hp).
      * apply (one_cut_at_sizes a' b' gp p Ha Hb Hp).
Qed.

End Positions64.

(** *** When the binary64 split returns, and how it raises *)

Section Stratified64.

Context {R : RandomLib}.

Lemma valid_ratios_default :
  Val64.valid_ratios (Float64.f0_6, Float64.f0_2, Float64.f0_2).
Proof. repeat split; vm_compute; reflexivity. Qed.

(** With valid ratios the split returns, and every label is cut on its
    own. *)
Lemma stratified64_counts_ok (df : DataFrame) (label_col : string) (c : nat)
    (seed : Z) (r0 r1 r2 : Val64.float) :
  rows df <> [] ->
  (Z.of_nat (len df) < 2 ^ 53)%Z ->
  Val64.valid_ratios (r0, r1, r2) ->
  seed32 seed ->
  column_position label_col (columns df) = Ok c ->
  exists train val test,
    Val64._stratified_split df label_col seed (r0, r1, r2)
    = Ok (train, val, test)
    /\ forall k,
         let g := count_label c k df in
         exists a b,
           Val64.cut r0 g = Ok a /\ Val64.cut r1 g = Ok b
           /\ (0 <= a)%Z /\ (0 <= b)%Z
           /\ count_label c k train = train_size a g
           /\ count_label c k val = val_size a b g
           /\ count_label c k test = test_size a b g.
Proof.
  intros Hne Hn Hv Hs Hc.
  destruct (valid_ratios_below_2 r0 r1 r2 Hv) as [H0 [H1 _]].
  destruct Hv as [_ [_ [_ Hr]]].
  rewrite (stratified_split64_eq r0 r1 H0 H1 df label_col c seed r2
             Hr Hn Hs Hc Hne).
  assert (Hk := fun k => stratified_counts64 r0 r1 H0 H1 df c seed k Hn).
  destruct (stratified_positions64 r0 r1 c seed (rows df)) as [[pt pv] ps].
  do 3 eexists. split; [reflexivity|].
  intros k g. specialize (Hk k). cbv zeta in Hk. fold g in Hk.
  assert (Hg : (Z.of_nat g < 2 ^ 53)%Z).
  { unfold g. rewrite count_label_positions.
    assert (H := group_positions_length c k (rows df)).
    unfold len in Hn. lia. }
  destruct (cut_value_spec r0 g H0 Hg) as [Ea Ha].
  destruct (cut_value_spec r1 g H1 Hg) as [Eb Hb].
  exists (cut_value r0 g), (cut_value r1 g).
  repeat split; try assumption; apply Hk.
Qed.

Lemma cut_raises (r : Val64.float) (n : nat) (e : exception) :
  Val64.cut r n = Raise e -> e = OverflowError \/ e = ValueError.
Proof.
  unfold Val64.cut, Val64.float_of_int.
  destruct (Float64.of_Z (Z.of_nat n)) as [s|s| |s m x]; cbn [bind];
    try (intros H; inversion H; now left);
    destruct (Float64.mul r _); cbn [Val64.py_int]; intros H; inversion H;
    auto.
Qed.

Lemma iloc_raises (df : DataFrame) (ps : list nat) (e : exception) :
  iloc df ps = Raise e -> e = IndexError.
Proof.
  unfold iloc. destruct (take_rows (rows df) ps); intros H; now inversion H.
Qed.

Lemma pool_raises (parts : list DataFrame) (seed : Z) (e : exception) :
  Val.pool parts seed = Raise e -> e = ValueError \/ e = IndexError.
Proof.
  unfold Val.pool, pd_concat. destruct parts as [|p parts]; cbn [bind];
    [intros H; inversion H; now left|].
  unfold Val.sample. destruct ((seed <? 0) || (2 ^ 32 <=? seed))%Z;
    cbn [bind]; [intros H; inversion H; now left|].
  destruct (iloc _ _) eqn:E; cbn [bind]; intros H; inversion H; subst.
  right. now apply iloc_raises in E.
Qed.

Lemma split_groups64_raises (r0 r1 : Val64.float) (rng : bit_generator)
    (groups : list (value * DataFrame)) (e : exception) :
  Val64.split_groups r0 r1 rng groups = Raise e ->
  e = OverflowError \/ e = ValueError \/ e = IndexError.
Proof.
  revert rng. induction groups as [|[k g] groups IH]; intros rng;
    cbn [Val64.split_groups]; [discriminate|].
  destruct (Val.shuffle rng (arange (len g))) as [idx rng'].
  destruct (Val64.cut r0 (len g)) as [a|e0] eqn:E0; cbn [bind];
    [|intros H; inversion H; subst;
      destruct (cut_raises _ _ _ E0); auto].
  destruct (Val64.cut r1 (len g)) as [b|e1] eqn:E1; cbn [bind];
    [|intros H; inversion H; subst;
      destruct (cut_raises _ _ _ E1); auto].
  destruct (iloc g (py_slice None (Some a) idx)) eqn:I0; cbn [bind];
    [|intros H; inversion H; subst; apply iloc_raises in I0; auto].
  destruct (iloc g (py_slice (Some a) (Some (a + b)%Z) idx)) eqn:I1;
    cbn [bind];
    [|intros H; inversion H; subst; apply iloc_raises in I1; auto].
  destruct (iloc g (py_slice (Some (a + b)%Z) None idx)) eqn:I2; cbn [bind];
    [|intros H; inversion H; subst; apply iloc_raises in I2; auto].
  destruct (Val64.split_groups r0 r1 rng' groups) as [[[tp vp] sp]|e'] eqn:Es;
    cbn [bind]; [discriminate|].
  intros H; inversion H; subst. now apply (IH rng').
Qed.

(** The stratified split, exception by exception. *)
Lemma stratified64_raises (df : DataFrame) (label_col : string) (seed : Z)
    (ratios : Val64.float * Val64.float * Val64.float) (e : exception) :
  Val64._stratified_split df label_col seed ratios = Raise e ->
  (e = AssertionError /\ Val64.ratios_sum_ok ratios = false)
  \/ (Val64.ratios_sum_ok ratios = true
      /\ (e = ValueError \/ e = OverflowError \/ e = IndexError
          \/ (e = KeyError /\ (0 <= seed)%Z
              /\ ~ In label_col (columns df)))).
Proof.
  unfold Val64._stratified_split.
  destruct (Val64.ratios_sum_ok ratios) eqn:Hr; cbn [py_assert bind];
    [|intros H; inversion H; now left].
  intros H. right. split; [reflexivity|]. revert H.
  unfold Val.default_rng.
  destruct (Z.ltb_spec seed 0) as [Hneg|Hpos]; cbn [bind];
    [intros H; inversion H; now left|].
  unfold groupby.
  destruct (column_position label_col (columns df)) as [c|e'] eqn:Hc;
    cbn [bind].
  - destruct (Val64.split_groups _ _ _ _) as [[[tp vp] sp]|e'] eqn:Es;
      cbn [bind].
    + destruct (Val.pool tp seed) as [t|e'] eqn:Pt; cbn [bind];
        [|intros H; inversion H; subst;
          destruct (pool_raises _ _ _ Pt); auto].
      destruct (Val.pool vp seed) as [v|e'] eqn:Pv; cbn [bind];
        [|intros H; inversion H; subst;
          destruct (pool_raises _ _ _ Pv); auto].
      destruct (Val.pool sp seed) as [s|e'] eqn:Ps; cbn [bind];
        [discriminate|].
      intros H; inversion H; subst.
      destruct (pool_raises _ _ _ Ps); auto.
    + intros H; inversion H; subst.
      destruct (split_groups64_raises _ _ _ _ _ Es) as [->|[->| ->]]; auto.
  - intros H; inversion H; subst.
    destruct (column_position_raises _ _ _ Hc) as [->| ->]; [|now left].
    right. right. right. repeat split; [exact Hpos|].
    now apply column_position_KeyError.
Qed.

Lemma stratified64_bad_ratios (df : DataFrame) (label_col : string)
    (seed : Z) (ratios : Val64.float * Val64.float * Val64.float) :
  Val64.ratios_sum_ok ratios = false ->
  Val64._stratified_split df label_col seed ratios = Raise AssertionError.
Proof. intros H. unfold Val64._stratified_split. now rewrite H. Qed.

Lemma stratified64_bad_seed (df : DataFrame) (label_col : string) (seed : Z)
    (ratios : Val64.float * Val64.float * Val64.float) :
  Val64.ratios_sum_ok ratios = true -> (seed < 0)%Z ->
  Val64._stratified_split df label_col seed ratios = Raise ValueError.
Proof.
  intros H Hs. unfold Val64._stratified_split, Val.default_rng. rewrite H.
  apply Z.ltb_lt in Hs. now rewrite Hs.
Qed.

Lemma stratified64_no_column (df : DataFrame) (label_col : string)
    (seed : Z) (ratios : Val64.float * Val64.float * Val64.float)
    (e : exception) :
  Val64.ratios_sum_ok ratios = true -> (0 <= seed)%Z ->
  column_position label_col (columns df) = Raise e ->
  Val64._stratified_split df label_col seed ratios = Raise e.
Proof.
  intros H Hs Hc.
  unfold Val64._stratified_split, Val.default_rng, groupby.
  rewrite H, Hc. destruct (seed <? 0)%Z eqn:E; [|reflexivity].
  apply Z.ltb_lt in E. lia.
Qed.

Lemma stratified64_empty (df : DataFrame) (label_col : string) (c : nat)
    (seed : Z) (ratios : Val64.float * Val64.float * Val64.float) :
  Val64.ratios_sum_ok ratios = true -> (0 <= seed)%Z ->
  column_position label_col (columns df) = Ok c ->
  rows df = [] ->
  Val64._stratified_split df label_col seed ratios = Raise ValueError.
Proof.
  intros H Hs Hc Hrows.
  unfold Val64._stratified_split, Val.default_rng, groupby.
  rewrite H, Hc, Hrows.
  destruct (seed <? 0)%Z eqn:E; [apply Z.ltb_lt in E; lia|].
  reflexivity.
Qed.

Lemma stratified64_big_seed (df : DataFrame) (label_col : string) (c : nat)
    (seed : Z) (r0 r1 r2 : Val64.float) :
  Val64.valid_ratios (r0, r1, r2) ->
  (Z.of_nat (len df) < 2 ^ 53)%Z ->
  (2 ^ 32 <= seed)%Z ->
  column_position label_col (columns df) = Ok c ->
  rows df <> [] ->
  Val64._stratified_split df label_col seed (r0, r1, r2) = Raise ValueError.
Proof.
  intros Hv Hn Hs Hc Hne.
  destruct (valid_ratios_below_2 r0 r1 r2 Hv) as [H0 [H1 _]].
  destruct Hv as [_ [_ [_ H]]].
  unfold Val64._stratified_split, Val.default_rng.
  rewrite H. cbn [py_assert bind].
  destruct (seed <? 0)%Z eqn:E; [apply Z.ltb_lt in E; lia|].
  cbn [bind]. rewrite (groupby_eq _ _ _ Hc). cbn [bind fst snd].
  rewrite (split_groups64_eq r0 r1 H0 H1)
    by (rewrite map_map; cbn [snd]; apply stratified_groups_short, Hn).
  cbn [bind].
  rewrite pool_big_seed; [reflexivity | | exact Hs].
  intros E'. apply (f_equal (@length _)) in E'.
  rewrite !length_map, strat_positions64_length, !length_map in E'.
  apply (group_keys_nonempty c (rows df) Hne).
  now apply length_zero_iff_nil.
Qed.

End Stratified64.

(** *** The two readings on the default ratios

    For the ratios the view uses, (0.6, 0.2, 0.2), and a table of less than
    2000 rows the binary64 split is the split on exact rationals. *)

Lemma py_int_to_int (x : Val64.float) (t : Z) :
  Float64.to_int x = Some t -> Val64.py_int x = Ok t.
Proof.
  destruct x as [s|s| |s m e]; cbn [Float64.to_int Val64.py_int];
    intros H; inversion H; reflexivity.
Qed.

Lemma cut_to_int (r : Val64.float) (n : nat) (t : Z) :
  Float64.to_int (Float64.mul r (Float64.of_Z (Z.of_nat n))) = Some t ->
  Val64.cut r n = Ok t.
Proof.
  intros H. unfold Val64.cut, Val64.float_of_int.
  destruct (Float64.of_Z (Z.of_nat n)) as [s|s| |s m e] eqn:E; cbn [bind];
    try (now apply py_int_to_int).
  destruct r as [s'|s'| |s' m' e']; discriminate.
Qed.

Section Agreement.

Context {R : RandomLib}.

Lemma split_groups_agree (rng : bit_generator)
    (groups : list (value * DataFrame)) :
  Forall (fun kg => len (snd kg) < 2000) groups ->
  Val64.split_groups Float64.f0_6 Float64.f0_2 rng groups
  = Val.split_groups (6 # 10) (2 # 10) rng groups.
Proof.
  revert rng. induction groups as [|[k g] groups IH]; intros rng H;
    [reflexivity|].
  inversion H as [|? ? Hg Hrest]; subst. cbn [snd] in Hg.
  cbn [Val64.split_groups Val.split_groups].
  destruct (Val.shuffle rng (arange (len g))) as [idx rng'].
  destruct (float_cuts_agree (len g) Hg) as [E6 [_ E2]].
  rewrite (cut_to_int _ _ _ E6), (cut_to_int _ _ _ E2). cbn [bind].
  rewrite (IH rng' Hrest). reflexivity.
Qed.

Lemma default_ratios_agree (df : DataFrame) (label_col : string) (seed : Z) :
  len df < 2000 ->
  Val64._stratified_split df label_col seed
    (Float64.f0_6, Float64.f0_2, Float64.f0_2)
  = Val._stratified_split df label_col seed (6 # 10, 2 # 10, 2 # 10).
Proof.
  intros Hn. unfold Val64._stratified_split, Val._stratified_split.
  change (Val64.ratios_sum_ok (Float64.f0_6, Float64.f0_2, Float64.f0_2))
    with true.
  change (Val.ratios_sum_ok (6 # 10, 2 # 10, 2 # 10)) with true.
  cbn [py_assert bind fst snd].
  destruct (Val.default_rng seed) as [rng|e]; [|reflexivity]. cbn [bind].
  unfold groupby.
  destruct (column_position label_col (columns df)) as [c|e]; [|reflexivity].
  cbn [bind]. rewrite split_groups_agree; [reflexivity|].
  apply Forall_forall. intros kg Hkg. apply in_map_iff in Hkg.
  destruct Hkg as [k [<- _]]. cbn [snd]. unfold len, group_rows. cbn [rows].
  apply Nat.le_lt_trans with (length (rows df)); [apply filter_length_le|].
  exact Hn.
Qed.

End Agreement.

(** *** The binary64 reading on some ratios

    [0.6 + 0.2 + 0.199999] is rounded to within 1e-6 of 1, though the exact
    sum is not; [0.7 + 0.2 + 0.09999900000000007] is the other way round.
    [0.7 * 90] is rounded below 63 and [0.3333333333333333 * 3] to 1.0. The
    ratios (1e308, -1e308, 1.0) pass the assertion, and the first product
    overflows. *)

Module Lit.

Definition f0_199999 : Val64.float :=
  S754_finite false 7205723374995775 (-55).
Definition f0_09999900000000007 : Val64.float :=
  S754_finite false 7205687346198761 (-56).
Definition f0_3333333333333333 : Val64.float :=
  S754_finite false 6004799503160661 (-54).
Definition f1e308 : Val64.float :=
  S754_finite false 5010420900022432 971.

End Lit.

Lemma binary64_examples :
  Val64.ratios_sum_ok (Float64.f0_6, Float64.f0_2, Lit.f0_199999) = true
  /\ Val64.ratios_sum_ok
       (Val64.f0_7, Float64.f0_2, Lit.f0_09999900000000007) = false
  /\ Val64.cut Val64.f0_7 90 = Ok 62%Z
  /\ Val64.cut Lit.f0_3333333333333333 3 = Ok 1%Z
  /\ Val64.ratios_sum_ok (Lit.f1e308, SFopp Lit.f1e308, Val64.f1) = true
  /\ Val64.cut Lit.f1e308 6 = Raise OverflowError.
Proof. repeat split; vm_compute; reflexivity. Qed.

(** ** Concrete tables *)

Module Demo.

Local Open Scope string_scope.

Definition labelled (i : Z) (l : value) : row :=
  mk_row i [Num (Q2Qc (inject_Z i)); l].

(** Ten rows with index labels 10 .. 19: six A, three B, one missing. *)
Definition table : DataFrame :=
  mk_frame ["x"; "label"]
    [labelled 10 (Text "A"); labelled 11 (Text "B"); labelled 12 (Text "A");
     labelled 13 (Text "A"); labelled 14 (Text "B"); labelled 15 (Text "A");
     labelled 16 (Text "A"); labelled 17 Missing; labelled 18 (Text "B");
     labelled 19 (Text "A")].

Definition empty_table : DataFrame := mk_frame ["x"; "label"] [].

(** A hundred rows: fifty A, thirty B, twenty C. *)
Definition table_abc : DataFrame :=
  mk_frame ["x"; "label"]
    (map (fun i => labelled (Z.of_nat i) (Text "A")) (seq 0 50)
     ++ map (fun i => labelled (Z.of_nat i) (Text "B")) (seq 50 30)
     ++ map (fun i => labelled (Z.of_nat i) (Text "C")) (seq 80 20)).

(** The same five B rows, alone and after three A rows. *)
Definition b_rows : list row :=
  map (fun i => labelled (Z.of_nat i) (Text "B")) (seq 100 5).

Definition table_b : DataFrame := mk_frame ["x"; "label"] b_rows.

Definition table_ab : DataFrame :=
  mk_frame ["x"; "label"]
    (map (fun i => labelled (Z.of_nat i) (Text "A")) (seq 0 3) ++ b_rows).

Definition ratios : Q * Q * Q := (6 # 10, 2 # 10, 2 # 10).

(** The default ratios, and (0.7, 0.1, 0.2), in binary64. *)
Definition ratios64 : Val64.float * Val64.float * Val64.float :=
  (Float64.f0_6, Float64.f0_2, Float64.f0_2).



End Demo.

(** With the ratios (1e308, -1e308, 1.0), which pass the assertion, the
    stratified split raises [OverflowError] at the first cut. *)
Lemma overflow_example :
  Val64._stratified_split Demo.table "label" 42
    (Lit.f1e308, SFopp Lit.f1e308, Val64.f1)
  = Raise OverflowError.
Proof. vm_compute. reflexivity. Qed.

(** ** The claims *)

(** Ratios as the specification wants them: non-negative, and summing to 1
    within the tolerance of the assertion. *)
Definition valid_ratios (ratios : Q * Q * Q) : Prop :=
  let '(r0, r1, r2) := ratios in
  (0 <= r0)%Q /\ (0 <= r1)%Q /\ (0 <= r2)%Q /\ ratios_sum_ok ratios = true.



Lemma uniform_split_positions {R : RandomLib} (df : DataFrame) (seed : Z) :
  (0 <= seed)%Z ->
  exists pt pv ps,
    Val._split_dataframe df seed
    = Ok (select df pt, select df pv, select df ps)
    /\ Permutation (pt ++ pv ++ ps) (seq 0 (len df)).
Proof.
  intros Hs. rewrite split_dataframe_eq by exact Hs.
  unfold uniform_positions, cuts_at.
  do 3 eexists. split; [reflexivity|].
  rewrite slice_split by (destruct (uniform_cuts (len df)); lia).
  apply shuffle_draw_perm.
Qed.



Lemma seed32_42 : seed32 42.
Proof. unfold seed32. lia. Qed.


(** C3, as the code has it. The uniform split takes no ratios: for every
    table and every seed the generator accepts, it draws one permutation of
    the positions [0, n) from the seed and cuts it at [t1 = floor(0.6 n)] and
    [t2 = floor(0.8 n)]; Train is the permuted positions [0, t1), Validation
    [t1, t2), Test [t2, n), of sizes [t1], [t2 - t1] and [n - t2] (so Test
    takes what rounding leaves); for [n = 100] the sizes are 60, 20, 20. *)
Theorem C3_uniform_cuts {R : RandomLib} (df : DataFrame) (seed : Z) :
  (0 <= seed)%Z ->
  let n := len df in
  let p := fst (shuffle_draw (seed_sequence seed) n) in
  let t1 := 6 * n / 10 in
  let t2 := 8 * n / 10 in
  Permutation p (seq 0 n)
  /\ t1 <= t2 <= n
  /\ Val._split_dataframe df seed
     = Ok (select df (firstn t1 p),
           select df (firstn (t2 - t1) (skipn t1 p)),
           select df (skipn t2 p))
  /\ len (select df (firstn t1 p)) = t1
  /\ len (select df (firstn (t2 - t1) (skipn t1 p))) = t2 - t1
  /\ len (select df (skipn t2 p)) = n - t2
  /\ (n = 100 -> t1 = 60 /\ t2 - t1 = 20 /\ n - t2 = 20).
Proof.
  intros Hs n p t1 t2.
  assert (Hp : Permutation p (seq 0 n)) by apply shuffle_draw_perm.
  assert (Hl : length p = n)
    by (rewrite (Permutation_length Hp); apply length_seq).
  assert (H12 : t1 <= t2)
    by (unfold t1, t2; apply Nat.Div0.div_le_mono; lia).
  assert (H2n : t2 <= n)
    by (unfold t2; apply Nat.Div0.div_le_upper_bound; lia).
  repeat split; try assumption.
  - rewrite split_dataframe_eq by exact Hs.
    unfold uniform_positions, cuts_at. fold n. fold p.
    change (6 # 10) with (Z.of_nat 6 # 10).
    change (8 # 10) with (Z.of_nat 8 # 10).
    rewrite !py_int_tenths. fold t1. fold t2.
    rewrite py_slice_head, py_slice_mid, py_slice_tail by lia.
    reflexivity.
  - rewrite len_select, length_firstn. lia.
  - rewrite len_select, length_firstn, length_skipn. lia.
  - rewrite len_select, length_skipn. lia.
  - unfold t1. rewrite H. reflexivity.
  - unfold t1, t2. rewrite H. reflexivity.
  - unfold t2. rewrite H. reflexivity.
Qed.

Lemma C3_uniform_cuts_witness :
  let n := len Demo.table_abc in
  let p := fst (shuffle_draw (seed_sequence 42) n) in
  let t1 := 6 * n / 10 in
  let t2 := 8 * n / 10 in
  Permutation p (seq 0 n)
  /\ t1 <= t2 <= n
  /\ Val._split_dataframe Demo.table_abc 42
     = Ok (select Demo.table_abc (firstn t1 p),
           select Demo.table_abc (firstn (t2 - t1) (skipn t1 p)),
           select Demo.table_abc (skipn t2 p))
  /\ len (select Demo.table_abc (firstn t1 p)) = t1
  /\ len (select Demo.table_abc (firstn (t2 - t1) (skipn t1 p))) = t2 - t1
  /\ len (select Demo.table_abc (skipn t2 p)) = n - t2
  /\ (n = 100 -> t1 = 60 /\ t2 - t1 = 20 /\ n - t2 = 20).
Proof.
  apply (C3_uniform_cuts Demo.table_abc 42). lia.
Defined.

(** C3, as stated, fails: with the valid ratios (0.5, 0.25, 0.25) the Train
    part of the ten-row table would have [floor(0.5 * 10) = 5] rows; the
    uniform split gives it 6, whatever ratios the caller has in mind. *)
Lemma C3_counterexample :
  ~ (forall r0 r1 r2 : Q,
        valid_ratios (r0, r1, r2) ->
        forall train val test,
          Val._split_dataframe Demo.table 42 = Ok (train, val, test) ->
          Z.of_nat (len train) = py_int (r0 * of_len (len Demo.table))).
Proof.
  intros H.
  assert (Hv : valid_ratios (1 # 2, 1 # 4, 1 # 4))
    by (unfold valid_ratios; repeat split; unfold Qle; simpl; lia).
  specialize (H _ _ _ Hv).
  destruct (Val._split_dataframe Demo.table 42) as [[[train val] test]|e] eqn:E;
    [|vm_compute in E; discriminate].
  specialize (H _ _ _ eq_refl).
  vm_compute in E. inversion E; subst. vm_compute in H. discriminate.
Qed.

(** ** Two calls in a row, and the input table *)

(** Two results name the same three tables, by value and row order, or the
    same exception. *)
Definition same_tables {R : RandomLib} (h : Imp.heap)
    (r1 r2 : result (Imp.loc * Imp.loc * Imp.loc)) : Prop :=
  match r1, r2 with
  | Ok (a1, b1, c1), Ok (a2, b2, c2) =>
      exists fa fb fc,
        (Imp.lookup h a1 = Some (Imp.ObjFrame fa)
         /\ Imp.lookup h a2 = Some (Imp.ObjFrame fa))
        /\ (Imp.lookup h b1 = Some (Imp.ObjFrame fb)
            /\ Imp.lookup h b2 = Some (Imp.ObjFrame fb))
        /\ (Imp.lookup h c1 = Some (Imp.ObjFrame fc)
            /\ Imp.lookup h c2 = Some (Imp.ObjFrame fc))
  | Raise e1, Raise e2 => e1 = e2
  | _, _ => False
  end.

(** The same call made twice, the second in the store the first leaves. *)
Definition twice {R : RandomLib} {A : Type} (m : Imp.prog A) (h : Imp.heap)
  : result A * result A * Imp.heap :=
  let '(r1, h1) := m h in
  let '(r2, h2) := m h1 in
  (r1, r2, h2).

Lemma twice_same_tables {R : RandomLib}
    (m : Imp.prog (Imp.loc * Imp.loc * Imp.loc))
    (r : result (DataFrame * DataFrame * DataFrame))
    (df : Imp.loc) (f : DataFrame) (h : Imp.heap) :
  keeps m ->
  (forall h0, Imp.lookup h0 df = Some (Imp.ObjFrame f) ->
              wp m h0 (returns3 r)) ->
  Imp.lookup h df = Some (Imp.ObjFrame f) ->
  let '(r1, r2, h2) := twice m h in same_tables h2 r1 r2.
Proof.
  intros Hk Hm Hdf. unfold twice.
  assert (W1 := Hm h Hdf). assert (K1 := Hk h). unfold wp in W1.
  destruct (m h) as [r1 h1]. cbn [fst snd] in *.
  assert (W2 := Hm h1 (K1 _ _ Hdf)). assert (K2 := Hk h1). unfold wp in W2.
  destruct (m h1) as [r2 h2]. cbn [fst snd] in *.
  unfold returns3 in *. destruct r as [[[a b] c]|e].
  - destruct W1 as [a1 [b1 [c1 [-> [Ha1 [Hb1 Hc1]]]]]].
    destruct W2 as [a2 [b2 [c2 [-> [Ha2 [Hb2 Hc2]]]]]].
    exists a, b, c. repeat split; auto.
  - subst. reflexivity.
Qed.

(** C4. Calling the same split twice on the same table with the same seed
    (and, for the stratified split, the same label column and ratios) gives
    the same Train, Validation and Test tables, equal by value and by row
    order, or the same exception both times; the second call runs in the
    store the first one leaves. *)
Theorem C4_same_outputs_twice {R : RandomLib} (h : Imp.heap) (df : Imp.loc)
    (f : DataFrame) (label_col : string) (seed : Z) (ratios : Q * Q * Q) :
  Imp.lookup h df = Some (Imp.ObjFrame f) ->
  (let '(r1, r2, h2) := twice (Imp._split_dataframe df seed) h in
   same_tables h2 r1 r2)
  /\ (let '(r1, r2, h2) :=
        twice (Imp._stratified_split df label_col seed ratios) h in
      same_tables h2 r1 r2).
Proof.
  intros Hdf. split.
  - apply (twice_same_tables _ (Val._split_dataframe f seed) df f h).
    + apply keeps_split_dataframe.
    + intros h0 H0. now apply split_dataframe_refines.
    + exact Hdf.
  - apply (twice_same_tables _
             (Val._stratified_split f label_col seed ratios) df f h).
    + apply keeps_stratified_split.
    + intros h0 H0. now apply stratified_split_refines.
    + exact Hdf.
Qed.

Lemma C4_same_outputs_twice_witness :
  (let '(r1, r2, h2) :=
     twice (Imp._split_dataframe 0 42) [Imp.ObjFrame Demo.table] in
   same_tables h2 r1 r2)
  /\ (let '(r1, r2, h2) :=
        twice (Imp._stratified_split 0 "label" 42 Demo.ratios)
              [Imp.ObjFrame Demo.table] in
      same_tables h2 r1 r2).
Proof.
  apply (C4_same_outputs_twice [Imp.ObjFrame Demo.table] 0 Demo.table).
  reflexivity.
Defined.

(** C9. Neither split writes into the input table: in the store a uniform or
    a stratified split leaves, whether it returns or raises, the reference
    of the input still holds the table it held, with the same column names
    and the same rows (index labels, values and order). *)
Theorem C9_input_not_mutated {R : RandomLib} (h : Imp.heap) (df : Imp.loc)
    (f : DataFrame) (label_col : string) (seed : Z) (ratios : Q * Q * Q) :
  Imp.lookup h df = Some (Imp.ObjFrame f) ->
  Imp.lookup (snd (Imp._split_dataframe df seed h)) df
  = Some (Imp.ObjFrame f)
  /\ Imp.lookup (snd (Imp._stratified_split df label_col seed ratios h)) df
     = Some (Imp.ObjFrame f).
Proof.
  intros Hdf. split.
  - apply (keeps_split_dataframe df seed h), Hdf.
  - apply (keeps_stratified_split df label_col seed ratios h), Hdf.
Qed.

Lemma C9_input_not_mutated_witness :
  Imp.lookup (snd (Imp._split_dataframe 0 42 [Imp.ObjFrame Demo.table])) 0
  = Some (Imp.ObjFrame Demo.table)
  /\ Imp.lookup
       (snd (Imp._stratified_split 0 "label" 42 Demo.ratios
               [Imp.ObjFrame Demo.table])) 0
     = Some (Imp.ObjFrame Demo.table).
Proof.
  apply (C9_input_not_mutated [Imp.ObjFrame Demo.table] 0 Demo.table).
  reflexivity.
Defined.

(** C5, as the code has it. The stratified split raises [AssertionError], and
    returns nothing, exactly when the assertion of the source fails: the
    ratios, added from left to right in binary64, do not sum to 1.0 within
    1e-6. With ratios that pass and a seed the generator accepts, it raises
    [KeyError] exactly when no column of the table has the name of the label
    column. The uniform split takes no ratios and checks none: it returns for
    every table and every seed the generator accepts. *)
Theorem C5_stratified_rejects {R : RandomLib} (df : DataFrame)
    (label_col : string) (seed : Z)
    (ratios : Val64.float * Val64.float * Val64.float) :
  (Val64._stratified_split df label_col seed ratios = Raise AssertionError
   <-> Val64.ratios_sum_ok ratios = false)
  /\ (Val64.ratios_sum_ok ratios = true -> (0 <= seed)%Z ->
      (Val64._stratified_split df label_col seed ratios = Raise KeyError
       <-> ~ In label_col (columns df)))
  /\ ((0 <= seed)%Z -> exists out, Val._split_dataframe df seed = Ok out).
Proof.
  split; [split|split].
  - intros H.
    destruct (stratified64_raises _ _ _ _ _ H)
      as [[_ Hr]|[_ [E|[E|[E|[E _]]]]]]; [exact Hr | discriminate ..].
  - apply stratified64_bad_ratios.
  - intros Hok Hs. split.
    + intros H.
      destruct (stratified64_raises _ _ _ _ _ H)
        as [[E _]|[_ [E|[E|[E|[_ [_ Hn]]]]]]];
        [discriminate .. | exact Hn].
    + intros Hn. apply stratified64_no_column; try assumption.
      now apply column_position_KeyError.
  - intros Hs. rewrite split_dataframe_eq by exact Hs.
    destruct (uniform_positions seed (len df)) as [[pt pv] ps]. eauto.
Qed.

Lemma C5_stratified_rejects_witness :
  Val64._stratified_split Demo.table "label" 42
    (Float64.f0_5, Float64.f0_3, Float64.f0_3)
  = Raise AssertionError
  /\ Val64._stratified_split Demo.table "protocol_type" 42 Demo.ratios64
     = Raise KeyError
  /\ exists out, Val._split_dataframe Demo.table 42 = Ok out.
Proof.
  split; [|split].
  - apply (C5_stratified_rejects Demo.table "label" 42
             (Float64.f0_5, Float64.f0_3, Float64.f0_3)).
    reflexivity.
  - apply (C5_stratified_rejects Demo.table "protocol_type" 42
             Demo.ratios64).
    + reflexivity.
    + lia.
    + simpl. intros [H|[H|[]]]; discriminate.
  - apply (C5_stratified_rejects Demo.table "label" 42 Demo.ratios64). lia.
Defined.

(** C5, as stated, fails. The ratios (0.5, 0.3, 0.3) do not sum to 1, yet the
    uniform split, which has no ratios parameter, returns its three tables;
    and the stratified split raises (a [ValueError]) on an empty table whose
    ratios pass and whose label column exists. *)
Lemma C5_counterexample :
  (Val64.ratios_sum_ok (Float64.f0_5, Float64.f0_3, Float64.f0_3) = false
   /\ exists out, Val._split_dataframe Demo.table 42 = Ok out)
  /\ (Val64.ratios_sum_ok Demo.ratios64 = true
      /\ In "label"%string (columns Demo.empty_table)
      /\ Val64._stratified_split Demo.empty_table "label" 42 Demo.ratios64
         = Raise ValueError).
Proof.
  split; [split|repeat split].
  - reflexivity.
  - eexists. vm_compute. reflexivity.
  - simpl. auto.
Qed.




(** ** Proportions per label *)




(** C7. In the stratified split the rows whose label is missing form a group
    of their own: [groupby] yields the missing key with exactly those rows
    when there are any, and every group holds rows of its own key only. The
    call does not fail because of them, and the [m] rows with a missing label
    are cut as the rows of any label are, by [a = int(r_train * m)] and
    [b = int(r_val * m)]: [min(a, m)] go to Train,
    [min(a + b, m) - min(a, m)] to Validation and the rest to Test, so that
    all [m] are in the outputs. *)
Theorem C7_missing_label_group {R : RandomLib} (df : DataFrame)
    (label_col : string) (c : nat) (seed : Z) (r0 r1 r2 : Val64.float) :
  rows df <> [] ->
  (Z.of_nat (len df) < 2 ^ 53)%Z ->
  Val64.valid_ratios (r0, r1, r2) ->
  seed32 seed ->
  column_position label_col (columns df) = Ok c ->
  let m := count_label c Missing df in
  (exists groups,
      groupby df label_col = Ok groups
      /\ (0 < m ->
          In (Missing,
              mk_frame (columns df)
                (filter (fun r => value_eqb (cell c r) Missing) (rows df)))
             groups)
      /\ (forall k g r, In (k, g) groups -> In r (rows g) -> cell c r = k))
  /\ (exists train val test,
         Val64._stratified_split df label_col seed (r0, r1, r2)
         = Ok (train, val, test)
         /\ (exists a b,
                Val64.cut r0 m = Ok a /\ Val64.cut r1 m = Ok b
                /\ (0 <= a)%Z /\ (0 <= b)%Z
                /\ Z.of_nat (count_label c Missing train)
                   = Z.min a (Z.of_nat m)
                /\ Z.of_nat (count_label c Missing val)
                   = (Z.min (a + b) (Z.of_nat m) - Z.min a (Z.of_nat m))%Z)
         /\ count_label c Missing train + count_label c Missing val
            + count_label c Missing test = m).
Proof.
  intros Hne Hn Hv Hs Hc m. split.
  - unfold groupby. rewrite Hc. cbn [bind]. eexists.
    split; [reflexivity|]. split.
    + intros Hm. apply in_map_iff. exists Missing. split; [reflexivity|].
      unfold m, count_label in Hm.
      destruct (group_rows c Missing (rows df)) as [|r rs] eqn:E;
        [simpl in Hm; lia|].
      assert (Hr : In r (group_rows c Missing (rows df)))
        by (rewrite E; now left).
      apply filter_In in Hr. destruct Hr as [Hr Hk].
      apply value_eqb_eq in Hk. apply group_keys_In. eauto.
    + intros k g r Hg Hr. apply in_map_iff in Hg.
      destruct Hg as [k' [E _]]. inversion E; subst. cbn [rows] in Hr.
      apply filter_In in Hr. apply value_eqb_eq. exact (proj2 Hr).
  - destruct (stratified64_counts_ok df label_col c seed r0 r1 r2
                Hne Hn Hv Hs Hc) as [train [val [test [E Hk]]]].
    exists train, val, test. split; [exact E|].
    destruct (Hk Missing) as [a [b [Ea [Eb [Ha [Hb [Ht [Hva Hte]]]]]]]].
    fold m in Ea, Eb, Ht, Hva, Hte.
    rewrite Ht, Hva, Hte. unfold train_size, val_size, test_size. split.
    + exists a, b. repeat split; try assumption; lia.
    + lia.
Qed.

Lemma C7_missing_label_group_witness :
  let m := count_label 1 Missing Demo.table in
  (exists groups,
      groupby Demo.table "label" = Ok groups
      /\ (0 < m ->
          In (Missing,
              mk_frame (columns Demo.table)
                (filter (fun r => value_eqb (cell 1 r) Missing)
                        (rows Demo.table)))
             groups)
      /\ (forall k g r, In (k, g) groups -> In r (rows g) -> cell 1 r = k))
  /\ (exists train val test,
         Val64._stratified_split Demo.table "label" 42 Demo.ratios64
         = Ok (train, val, test)
         /\ (exists a b,
                Val64.cut Float64.f0_6 m = Ok a
                /\ Val64.cut Float64.f0_2 m = Ok b
                /\ (0 <= a)%Z /\ (0 <= b)%Z
                /\ Z.of_nat (count_label 1 Missing train)
                   = Z.min a (Z.of_nat m)
                /\ Z.of_nat (count_label 1 Missing val)
                   = (Z.min (a + b) (Z.of_nat m) - Z.min a (Z.of_nat m))%Z)
         /\ count_label 1 Missing train + count_label 1 Missing val
            + count_label 1 Missing test = m).
Proof.
  apply (C7_missing_label_group Demo.table "label" 1 42
           Float64.f0_6 Float64.f0_2 Float64.f0_2).
  - discriminate.
  - vm_compute. reflexivity.
  - exact valid_ratios_default.
  - exact seed32_42.
  - reflexivity.
Defined.

(** C8, as the code has it. All the groups are shuffled by one generator,
    the one [_stratified_split] creates from the seed before the loop, which
    every shuffle advances, in the order [groupby] yields the groups: the
    parts of the groups that follow a prefix of groups are those the loop
    computes from the generator state the prefix leaves, a state that depends
    on the generator the loop starts from and on the sizes of the groups of
    the prefix. *)
Theorem C8_one_generator_for_all_groups {R : RandomLib} (r0 r1 : Q)
    (rng : bit_generator) (before rest : list (value * DataFrame)) :
  Val.split_groups r0 r1 rng (before ++ rest)
  = bind (Val.split_groups r0 r1 rng before)
      (fun '(t1, v1, s1) =>
         bind (Val.split_groups r0 r1
                 (state_after rng (group_sizes before)) rest)
           (fun '(t2, v2, s2) => Ok (t1 ++ t2, v1 ++ v2, s1 ++ s2))).
Proof.
  revert rng. induction before as [|[k g] before IH]; intros rng.
  - cbn [app Val.split_groups bind group_sizes map state_after].
    destruct (Val.split_groups r0 r1 rng rest) as [[[t2 v2] s2]|e];
      reflexivity.
  - cbn [app Val.split_groups group_sizes map state_after snd].
    destruct (shuffle rng (arange (len g))) as [idx rng']. cbn [snd].
    destruct (iloc g _) as [tp|e]; [|reflexivity]. cbn [bind].
    destruct (iloc g _) as [vp|e]; [|reflexivity]. cbn [bind].
    destruct (iloc g _) as [sp|e]; [|reflexivity]. cbn [bind].
    rewrite IH. fold (group_sizes before).
    destruct (Val.split_groups r0 r1 rng' before) as [[[t1 v1] s1]|e];
      [|reflexivity].
    cbn [bind].
    destruct (Val.split_groups r0 r1
                (state_after rng' (group_sizes before)) rest)
      as [[[t2 v2] s2]|e]; reflexivity.
Qed.

(** C8, as stated, fails. The tables [Demo.table_b] and [Demo.table_ab]
    contain the same group B (same key, same five rows, index labels
    100 .. 104). Run with the generator [LcgRandom] under seed 42, the loop
    sends rows 102, 104, 101 of the group to Train in the first table and,
    after the group A that precedes it in the second, other rows: the
    shuffle of B starts from the state the shuffle of A leaves. *)
Lemma C8_counterexample :
  exists ga gb t1 v1 s1 ta va sa t2 v2 s2,
    groupby Demo.table_b "label" = Ok [(Text "B", gb)]
    /\ groupby Demo.table_ab "label" = Ok [(Text "A", ga); (Text "B", gb)]
    /\ Val.split_groups (6 # 10) (2 # 10) (seed_sequence 42)
         [(Text "B", gb)]
       = Ok ([t1], [v1], [s1])
    /\ Val.split_groups (6 # 10) (2 # 10) (seed_sequence 42)
         [(Text "A", ga); (Text "B", gb)]
       = Ok ([ta; t2], [va; v2], [sa; s2])
    /\ index t1 = [102; 104; 101]%Z
    /\ index t1 <> index t2.
Proof.
  do 11 eexists.
  split; [vm_compute; reflexivity|].
  split; [vm_compute; reflexivity|].
  split; [vm_compute; reflexivity|].
  split; [vm_compute; reflexivity|].
  split; [vm_compute; reflexivity|].
  vm_compute. discriminate.
Qed.



(** * The rest of [analyzer/views.py]: what [analyze_arff_view] does with the
      table, and the plots *)

(** ** Python strings

    A [str] is read as its code units ([string]). [str.lower] is an
    interface: the model fixes what it does on ASCII text, where it maps
    [A .. Z] to [a .. z] and keeps every other character. *)

Definition ascii_lower (a : ascii) : ascii :=
  let n := nat_of_ascii a in
  if (65 <=? n) && (n <=? 90) then ascii_of_nat (n + 32) else a.

Fixpoint lower_ascii_text (s : string) : string :=
  match s with
  | EmptyString => EmptyString
  | String a rest => String (ascii_lower a) (lower_ascii_text rest)
  end.

Fixpoint is_ascii_text (s : string) : bool :=
  match s with
  | EmptyString => true
  | String a rest => (nat_of_ascii a <? 128) && is_ascii_text rest
  end.

Class PyStr : Type := {
  (** [s.lower()] *)
  lower : string -> string;
  lower_on_ascii :
    forall s, is_ascii_text s = true -> lower s = lower_ascii_text s
}.

(** The instance used to run the model on concrete tables. *)
#[export] Instance AsciiStr : PyStr := {|
  lower := lower_ascii_text;
  lower_on_ascii := fun s _ => eq_refl
|}.

(** ** A [dict] with string keys, in insertion order: setting a key that is
    there replaces its value. *)

Definition dict (V : Type) : Type := list (string * V).

Fixpoint dict_set {V : Type} (k : string) (v : V) (d : dict V) : dict V :=
  match d with
  | [] => [(k, v)]
  | (k', v') :: rest =>
      if String.eqb k' k then (k, v) :: rest
      else (k', v') :: dict_set k v rest
  end.

Fixpoint dict_get {V : Type} (k : string) (d : dict V) : option V :=
  match d with
  | [] => None
  | (k', v') :: rest => if String.eqb k' k then Some v' else dict_get k rest
  end.

(** ** The choice of the split in [analyze_arff_view] *)

Module View.

Section Choice.

Context {R : RandomLib} {S : PyStr}.

(** [{c.lower(): c for c in df.columns}] *)
Definition lower_map (cols : list string) : dict string :=
  fold_left (fun d c => dict_set (lower c) c d) cols [].

(** [pt_col]: [lower_map['protocol_type']] when the key is there, else
    [None]. *)
Definition pt_col (cols : list string) : option string :=
  dict_get "protocol_type" (lower_map cols).

(** The split the view makes: stratified by [pt_col] when there is one,
    uniform otherwise, with seed 42 and the default ratios. *)
Definition split (df : DataFrame)
  : result (DataFrame * DataFrame * DataFrame) :=
  match pt_col (columns df) with
  | Some c => Val._stratified_split df c 42 (6 # 10, 2 # 10, 2 # 10)
  | None => Val._split_dataframe df 42
  end.

End Choice.

End View.

(** *** Facts on the dictionary *)

Lemma dict_get_set_same {V : Type} (k : string) (v : V) (d : dict V) :
  dict_get k (dict_set k v d) = Some v.
Proof.
  induction d as [|[k' v'] d IH]; simpl.
  - now rewrite String.eqb_refl.
  - destruct (String.eqb k' k) eqn:E; simpl.
    + now rewrite String.eqb_refl.
    + now rewrite E.
Qed.

Lemma dict_get_set_other {V : Type} (k k0 : string) (v : V) (d : dict V) :
  k0 <> k -> dict_get k (dict_set k0 v d) = dict_get k d.
Proof.
  intros Hne. induction d as [|[k' v'] d IH]; simpl.
  - destruct (String.eqb_spec k0 k); [contradiction | reflexivity].
  - destruct (String.eqb_spec k' k0) as [->|Hk]; simpl.
    + destruct (String.eqb_spec k0 k); [contradiction | reflexivity].
    + destruct (String.eqb_spec k' k); [reflexivity | exact IH].
Qed.

Lemma find_app_or {A : Type} (f : A -> bool) (l1 l2 : list A) :
  find f (l1 ++ l2)
  = match find f l1 with Some x => Some x | None => find f l2 end.
Proof.
  induction l1 as [|x l1 IH]; simpl; [reflexivity|].
  destruct (f x); [reflexivity | exact IH].
Qed.

Lemma dict_get_fold {V : Type} (key : V -> string) (k : string)
    (vs : list V) (d : dict V) :
  dict_get k (fold_left (fun d v => dict_set (key v) v d) vs d)
  = match find (fun v => String.eqb (key v) k) (rev vs) with
    | Some v => Some v
    | None => dict_get k d
    end.
Proof.
  revert d. induction vs as [|v vs IH]; intros d; [reflexivity|].
  cbn [fold_left rev]. rewrite IH, find_app_or.
  destruct (find (fun v0 => String.eqb (key v0) k) (rev vs)); [reflexivity|].
  cbn [find]. destruct (String.eqb_spec (key v) k) as [<-|Hne].
  - apply dict_get_set_same.
  - now apply dict_get_set_other.
Qed.

(** *** Facts on the choice of the split *)

Lemma occurrences_NoDup (name : string) (cols : list string) (i : nat) :
  NoDup cols -> In name cols -> exists j, occurrences name cols i = [j].
Proof.
  revert i. induction cols as [|col cols IH]; intros i Hnd Hin;
    [destruct Hin|].
  inversion Hnd as [|? ? Hcol Hnd']; subst. cbn [occurrences].
  destruct (String.eqb_spec col name) as [->|Hne].
  - exists i. f_equal. now apply occurrences_nil.
  - destruct Hin as [E|Hin]; [contradiction|]. now apply IH.
Qed.

Lemma column_position_NoDup (name : string) (cols : list string) :
  NoDup cols -> In name cols -> exists c, column_position name cols = Ok c.
Proof.
  intros Hnd Hin. unfold column_position.
  destruct (occurrences_NoDup name cols 0 Hnd Hin) as [j ->]. eauto.
Qed.

Lemma column_position_In (name : string) (cols : list string) :
  In name cols ->
  (exists c, column_position name cols = Ok c)
  \/ column_position name cols = Raise ValueError.
Proof.
  intros Hin. unfold column_position.
  destruct (occurrences name cols 0) as [|c [|c' rest]] eqn:E; eauto.
  apply occurrences_nil in E. contradiction.
Qed.

Lemma default_ratios_sum_ok :
  ratios_sum_ok (6 # 10, 2 # 10, 2 # 10) = true.
Proof. reflexivity. Qed.

(** Two tables with the same columns and the same cells, row by row. *)
Definition same_cells (a b : DataFrame) : Prop :=
  columns a = columns b
  /\ map row_cells (rows a) = map row_cells (rows b).

Lemma same_cells_refl (a : DataFrame) : same_cells a a.
Proof. split; reflexivity. Qed.

Lemma same_cells_reset_index (a : DataFrame) : same_cells (reset_index a) a.
Proof.
  split; [reflexivity|]. unfold reset_index, relabel. cbn [rows].
  generalize 0 as s. induction (rows a) as [|r rs IH]; intros s;
    [reflexivity|].
  cbn [length seq combine map row_cells]. now rewrite IH.
Qed.

Section ViewFacts.

Context {R : RandomLib} {S : PyStr}.

Lemma pt_col_find (cols : list string) :
  View.pt_col cols
  = find (fun c => String.eqb (lower c) "protocol_type") (rev cols).
Proof.
  unfold View.pt_col, View.lower_map.
  rewrite (dict_get_fold lower "protocol_type" cols []).
  destruct (find _ (rev cols)); reflexivity.
Qed.

Lemma pt_col_In (cols : list string) (c : string) :
  View.pt_col cols = Some c -> In c cols /\ lower c = "protocol_type"%string.
Proof.
  rewrite pt_col_find. intros H. apply find_some in H.
  destruct H as [Hin Hc]. split.
  - now apply in_rev.
  - now apply String.eqb_eq.
Qed.

Lemma find_rev_split {A : Type} (f : A -> bool) (l : list A) (x : A) :
  find f (rev l) = Some x ->
  exists before after,
    l = before ++ x :: after
    /\ f x = true
    /\ forall y, In y after -> f y = false.
Proof.
  induction l as [|a l IH] using rev_ind; [discriminate|].
  rewrite rev_app_distr. cbn [rev app find].
  destruct (f a) eqn:Ea.
  - intros H. inversion H; subst. exists l, []. repeat split; auto.
    intros y [].
  - intros H. destruct (IH H) as [before [after [-> [Hx Hafter]]]].
    exists before, (after ++ [a]). rewrite <- app_assoc. repeat split; auto.
    intros y Hy. apply in_app_or in Hy. destruct Hy as [Hy|[<-|[]]]; auto.
Qed.

(** X1. When several column names give [protocol_type] once put in lower
    case, the view stratifies by the last of them (a later key of the
    dictionary replaces an earlier one); there is no stratification column
    exactly when no column name does. *)
Theorem pt_col_last_match (cols : list string) :
  match View.pt_col cols with
  | Some c =>
      exists before after,
        cols = before ++ c :: after
        /\ lower c = "protocol_type"%string
        /\ forall c', In c' after -> lower c' <> "protocol_type"%string
  | None => forall c, In c cols -> lower c <> "protocol_type"%string
  end.
Proof.
  rewrite pt_col_find.
  destruct (find _ (rev cols)) as [c|] eqn:E.
  - destruct (find_rev_split _ _ _ E) as [before [after [-> [Hc Hafter]]]].
    exists before, after. repeat split.
    + now apply String.eqb_eq.
    + intros c' Hc' Heq. apply Hafter in Hc'.
      apply String.eqb_neq in Hc'. contradiction.
  - intros c Hc Heq. apply in_rev in Hc.
    apply (find_none _ _ E) in Hc. apply String.eqb_neq in Hc. contradiction.
Qed.

(** X2. For a non-empty table whose column names are pairwise distinct, the
    split the view makes returns three tables that have the columns of the
    table and, row by row, the cells of the table's rows at three lists of
    positions which together hold every position exactly once. *)
Theorem view_split_exact_partition (df : DataFrame) :
  rows df <> [] ->
  NoDup (columns df) ->
  exists train val test pt pv ps,
    View.split df = Ok (train, val, test)
    /\ Permutation (pt ++ pv ++ ps) (seq 0 (len df))
    /\ same_cells train (select df pt)
    /\ same_cells val (select df pv)
    /\ same_cells test (select df ps).
Proof.
  intros Hne Hnd. unfold View.split.
  destruct (View.pt_col (columns df)) as [c|] eqn:Ec.
  - destruct (pt_col_In _ _ Ec) as [Hin _].
    destruct (column_position_NoDup c (columns df) Hnd Hin) as [i Hi].
    rewrite (stratified_split_eq df c i 42 _ _ _ default_ratios_sum_ok
               seed32_42 Hi Hne).
    assert (Hp := stratified_positions_perm i (6 # 10) (2 # 10) 42 (rows df)).
    destruct (stratified_positions i (6 # 10) (2 # 10) 42 (rows df))
      as [[pt pv] ps].
    do 3 eexists. exists pt, pv, ps. split; [reflexivity|].
    split; [apply Hp; unfold Qle; simpl; lia|].
    repeat split; apply same_cells_reset_index.
  - destruct (uniform_split_positions df 42) as [pt [pv [ps [E Hp]]]]; [lia|].
    do 3 eexists. exists pt, pv, ps. split; [exact E|].
    split; [exact Hp|]. repeat split.
Qed.

(** X3. The split the view makes raises in two cases only, both with a
    stratification column and both a [ValueError]: the table has no row, or
    the name of the stratification column heads several columns. It never
    raises for the ratios, the seed or a missing column. *)
Theorem view_split_raises (df : DataFrame) (e : exception) :
  View.split df = Raise e <->
  e = ValueError
  /\ exists c,
       View.pt_col (columns df) = Some c
       /\ (rows df = []
           \/ column_position c (columns df) = Raise ValueError).
Proof.
  unfold View.split.
  destruct (View.pt_col (columns df)) as [c|] eqn:Ec.
  - destruct (pt_col_In _ _ Ec) as [Hin _].
    destruct (column_position_In c (columns df) Hin) as [[i Hi]|Hc].
    + destruct (rows df) as [|r rs] eqn:Hrows.
      * rewrite (stratified_empty df c i 42 _ default_ratios_sum_ok
                   ltac:(lia) Hi Hrows).
        split.
        -- intros H. inversion H. split; [reflexivity|]. eauto.
        -- intros [-> _]. reflexivity.
      * assert (Hne : rows df <> []) by (rewrite Hrows; discriminate).
        rewrite (stratified_split_eq df c i 42 _ _ _ default_ratios_sum_ok
                   seed32_42 Hi Hne).
        destruct (stratified_positions i (6 # 10) (2 # 10) 42 (rows df))
          as [[pt pv] ps].
        split; [discriminate|].
        intros [_ [c' [E [H|H]]]].
        -- discriminate.
        -- inversion E; subst. congruence.
    + rewrite (stratified_no_column df c 42 _ ValueError
                 default_ratios_sum_ok ltac:(lia) Hc).
      split.
      * intros H. inversion H. split; [reflexivity|]. eauto.
      * intros [-> _]. reflexivity.
  - destruct (uniform_split_positions df 42) as [pt [pv [ps [E _]]]]; [lia|].
    rewrite E. split; [discriminate|].
    intros [_ [c [H _]]]. discriminate.
Qed.

End ViewFacts.

(** ** The column names the view gives the table *)

(** [str(n)] for a natural number. *)
Definition decimal (n : nat) : string :=
  NilEmpty.string_of_uint (Nat.to_uint n).

(** [f'Columna_{i+1}'] *)
Definition fallback_name (i : nat) : string :=
  ("Columna_" ++ decimal (i + 1))%string.

(** The table after
    [if len(attribute_names) == len(df.columns): df.columns = attribute_names]
    [else: df.columns = [f'Columna_{i+1}' for i in range(len(df.columns))]]. *)
Definition name_columns (attribute_names : list string) (df : DataFrame)
  : DataFrame :=
  if length attribute_names =? length (columns df)
  then mk_frame attribute_names (rows df)
  else mk_frame (map fallback_name (seq 0 (length (columns df)))) (rows df).

Lemma decimal_inj (n m : nat) : decimal n = decimal m -> n = m.
Proof.
  unfold decimal. intros H.
  apply (f_equal NilEmpty.uint_of_string) in H.
  rewrite !NilEmpty.usu in H. inversion H as [H'].
  now apply DecimalNat.Unsigned.to_uint_inj.
Qed.

Lemma fallback_name_inj (i j : nat) :
  fallback_name i = fallback_name j -> i = j.
Proof.
  unfold fallback_name. intros H. cbn [String.append] in H.
  inversion H as [H']. apply decimal_inj in H'. lia.
Qed.

Lemma uint_digits_ascii (d : Decimal.uint) :
  is_ascii_text (NilEmpty.string_of_uint d) = true.
Proof. induction d; simpl; auto. Qed.

Lemma fallback_name_not_protocol {S : PyStr} (i : nat) :
  lower (fallback_name i) <> "protocol_type"%string.
Proof.
  rewrite lower_on_ascii.
  - unfold fallback_name. cbn. discriminate.
  - unfold fallback_name, decimal. cbn. apply uint_digits_ascii.
Qed.

Lemma name_columns_rows (attribute_names : list string) (df : DataFrame) :
  rows (name_columns attribute_names df) = rows df.
Proof.
  unfold name_columns.
  destruct (length attribute_names =? length (columns df)); reflexivity.
Qed.

(** X4. The view never changes the number of columns nor the rows; and when
    the header does not give one attribute name per column, the names it
    makes up are pairwise distinct. *)
Theorem name_columns_shape (attribute_names : list string) (df : DataFrame) :
  length (columns (name_columns attribute_names df)) = length (columns df)
  /\ rows (name_columns attribute_names df) = rows df
  /\ (length attribute_names <> length (columns df) ->
      NoDup (columns (name_columns attribute_names df))).
Proof.
  unfold name_columns.
  destruct (Nat.eqb_spec (length attribute_names) (length (columns df)))
    as [E|Hne]; cbn [columns rows].
  - repeat split; [exact E | contradiction].
  - rewrite length_map, length_seq. repeat split. intros _.
    generalize (seq_NoDup (length (columns df)) 0).
    induction (seq 0 (length (columns df))) as [|i l IH]; intros Hnd;
      [constructor|].
    inversion Hnd as [|? ? Hi Hl]; subst. cbn [map]. constructor.
    + intros Hin. apply in_map_iff in Hin. destruct Hin as [j [E Hj]].
      apply fallback_name_inj in E. now subst.
    + now apply IH.
Qed.

(** X5. When the header does not give one attribute name per column, no
    made-up name is a stratification column: the view makes the uniform
    split, which returns three tables of [floor(0.6 n)],
    [floor(0.8 n) - floor(0.6 n)] and [n - floor(0.8 n)] rows. *)
Theorem mismatched_header_uniform {R : RandomLib} {S : PyStr}
    (attribute_names : list string) (df : DataFrame) :
  length attribute_names <> length (columns df) ->
  let named := name_columns attribute_names df in
  let n := len df in
  View.pt_col (columns named) = None
  /\ View.split named = Val._split_dataframe named 42
  /\ exists train val test,
       View.split named = Ok (train, val, test)
       /\ len train = 6 * n / 10
       /\ len val = 8 * n / 10 - 6 * n / 10
       /\ len test = n - 8 * n / 10.
Proof.
  intros Hne named n.
  assert (Hpt : View.pt_col (columns named) = None).
  { rewrite pt_col_find.
    destruct (find _ (rev (columns named))) as [c|] eqn:E; [|reflexivity].
    apply find_some in E. destruct E as [Hin Hc].
    apply in_rev in Hin. unfold named, name_columns in Hin.
    destruct (Nat.eqb_spec (length attribute_names) (length (columns df)));
      [contradiction|].
    cbn [columns] in Hin. apply in_map_iff in Hin.
    destruct Hin as [i [<- _]]. apply String.eqb_eq in Hc.
    now apply fallback_name_not_protocol in Hc. }
  assert (Hsplit : View.split named = Val._split_dataframe named 42)
    by (unfold View.split; now rewrite Hpt).
  repeat split; try assumption.
  assert (Hn : len named = n)
    by (unfold len, named; now rewrite name_columns_rows).
  rewrite Hsplit, split_dataframe_eq by lia.
  unfold uniform_positions, cuts_at. rewrite Hn.
  assert (Hp := shuffle_draw_perm (seed_sequence 42) n).
  assert (Hl := Permutation_length Hp). rewrite length_seq in Hl.
  change (6 # 10) with (Z.of_nat 6 # 10).
  change (8 # 10) with (Z.of_nat 8 # 10).
  rewrite !py_int_tenths.
  assert (H12 : 6 * n / 10 <= 8 * n / 10)
    by (apply Nat.Div0.div_le_mono; lia).
  assert (H2n : 8 * n / 10 <= n)
    by (apply Nat.Div0.div_le_upper_bound; lia).
  do 3 eexists. split; [reflexivity|].
  rewrite !len_select, slice_head_length, slice_mid_length,
    slice_tail_length by lia.
  rewrite Hl. lia.
Qed.

(** ** What the stratified split does with a rare label *)

(** X6. With valid ratios and a table of fewer than [2^53] rows, every label
    value keeps all its rows across Train, Validation and Test, so a label of
    the table is never absent from all three; and a label with so few rows
    [g] that the binary64 product [r_train * g] is below 1.0 has no row in
    Train (likewise for Validation): with the default ratios a label carried
    by one row only is in Test, never in Train. *)
Theorem stratified_rare_labels {R : RandomLib} (df : DataFrame)
    (label_col : string) (c : nat) (seed : Z) (r0 r1 r2 : Val64.float) :
  rows df <> [] ->
  (Z.of_nat (len df) < 2 ^ 53)%Z ->
  Val64.valid_ratios (r0, r1, r2) ->
  seed32 seed ->
  column_position label_col (columns df) = Ok c ->
  exists train val test,
    Val64._stratified_split df label_col seed (r0, r1, r2)
    = Ok (train, val, test)
    /\ forall k,
         let g := count_label c k df in
         let below_one r :=
           SFltb (Float64.mul r (Float64.of_Z (Z.of_nat g))) Val64.f1 in
         count_label c k train + count_label c k val + count_label c k test
         = g
         /\ (below_one r0 = true -> count_label c k train = 0)
         /\ (below_one r1 = true -> count_label c k val = 0)
         /\ (below_one r0 = true -> below_one r1 = true ->
             count_label c k test = g).
Proof.
  intros Hne Hn Hv Hs Hc.
  destruct (stratified64_counts_ok df label_col c seed r0 r1 r2
              Hne Hn Hv Hs Hc) as [train [val [test [E Hk]]]].
  destruct (valid_ratios_below_2 r0 r1 r2 Hv) as [H0 [H1 _]].
  exists train, val, test. split; [exact E|].
  intros k g below_one.
  destruct (Hk k) as [a [b [Ea [Eb [Ha [Hb [Ht [Hva Hte]]]]]]]].
  fold g in Ea, Eb, Ht, Hva, Hte.
  assert (Hg : (Z.of_nat g < 2 ^ 53)%Z).
  { unfold g. rewrite count_label_positions.
    assert (H := group_positions_length c k (rows df)).
    unfold len in Hn. lia. }
  rewrite Ht, Hva, Hte. unfold train_size, val_size, test_size.
  repeat split.
  - lia.
  - intros B0. rewrite (cut_below_one r0 g H0 Hg B0) in Ea.
    inversion Ea; subst a. lia.
  - intros B1. rewrite (cut_below_one r1 g H1 Hg B1) in Eb.
    inversion Eb; subst b. lia.
  - intros B0 B1. rewrite (cut_below_one r0 g H0 Hg B0) in Ea.
    rewrite (cut_below_one r1 g H1 Hg B1) in Eb.
    inversion Ea; inversion Eb; subst a b. lia.
Qed.

(** ** The bars of [_plot_protocol_histogram]

    The function is modelled up to its call of [ax.bar]: the categories and
    the heights it passes. How pandas prints a number and how
    [value_counts] orders categories of equal frequency are an interface. *)

Definition count_str (l : list string) (s : string) : nat :=
  count_occ string_dec l s.

Definition in_strs (s : string) (l : list string) : bool :=
  if in_dec string_dec s l then true else false.

Class PandasLib : Type := {
  (** [str(x)] for a numeric cell, as [astype(str)] prints it *)
  num_str : Qc -> string;
  (** the index of [Series.value_counts()]: the distinct values, the most
      frequent first *)
  value_counts_index : list string -> list string;
  value_counts_index_perm :
    forall l, Permutation (value_counts_index l) (nodup string_dec l);
  value_counts_index_sorted :
    forall l, StronglySorted (fun a b => count_str l b <= count_str l a)
                             (value_counts_index l)
}.

Module Plot.

Section Bars.

Context {P : PandasLib}.

(** [series.astype(str)]: a missing cell prints as [nan]. *)
Definition astype_str (v : value) : string :=
  match v with
  | Text s => s
  | Missing => "nan"
  | Num x => num_str x
  end.

(** [vc.loc[labels].values]: the count of each label, [KeyError] when a
    label is not in the index. *)
Fixpoint vc_loc (strs : list string) (labels : list string)
  : result (list nat) :=
  match labels with
  | [] => Ok []
  | c :: rest =>
      if in_strs c (value_counts_index strs)
      then heights <- vc_loc strs rest ;; Ok (count_str strs c :: heights)
      else Raise KeyError
  end.

(** [ordered], from [vc.index] and the requested order ([None] and the empty
    list both count as no order). *)
Definition ordered_labels (vc_index : list string)
    (order : option (list string)) : list string :=
  match order with
  | Some ((_ :: _) as o) =>
      let present := filter (fun c => in_strs c vc_index) o in
      let others := filter (fun c => negb (in_strs c present)) vc_index in
      present ++ others
  | _ => vc_index
  end.

(** The two arguments of [ax.bar]. *)
Definition _plot_protocol_histogram (series : list value)
    (order : option (list string)) : result (list string * list nat) :=
  let strs := map astype_str series in
  let ordered := ordered_labels (value_counts_index strs) order in
  heights <- vc_loc strs ordered ;;
  Ok (ordered, heights).

(** [desired_test_order] of [analyze_arff_view], from the stratification
    column of the whole table. *)
Definition desired_test_order (series : list value) : option (list string) :=
  let uniques := map astype_str series in
  if in_strs "tcp" uniques
  then Some (filter (fun c => in_strs c uniques) ["udp"; "tcp"; "icmp"]%string)
  else None.

End Bars.

End Plot.

(** An instance for concrete runs: numbers print as the decimal of their
    numerator (enough for the text columns of the examples), ties keep the
    order of first appearance. *)
Module CountSort.

(** The distinct values, in the order of their first appearance. *)
Definition distinct (l : list string) : list string :=
  rev (nodup string_dec (rev l)).

Fixpoint insert (l : list string) (s : string) (sorted : list string)
  : list string :=
  match sorted with
  | [] => [s]
  | t :: rest =>
      if count_str l s <? count_str l t then t :: insert l s rest
      else s :: sorted
  end.

Definition index (l : list string) : list string :=
  fold_right (insert l) [] (distinct l).

Lemma distinct_perm (l : list string) :
  Permutation (distinct l) (nodup string_dec l).
Proof.
  unfold distinct. apply NoDup_Permutation.
  - apply NoDup_rev, NoDup_nodup.
  - apply NoDup_nodup.
  - intros x. rewrite <- in_rev, !nodup_In, <- in_rev. reflexivity.
Qed.

Lemma insert_perm (l : list string) (s : string) (sorted : list string) :
  Permutation (insert l s sorted) (s :: sorted).
Proof.
  induction sorted as [|t rest IH]; simpl; [reflexivity|].
  destruct (count_str l s <? count_str l t); [|reflexivity].
  rewrite IH. apply perm_swap.
Qed.

Lemma index_perm (l : list string) :
  Permutation (index l) (nodup string_dec l).
Proof.
  unfold index. rewrite <- distinct_perm.
  induction (distinct l) as [|s ks IH]; simpl; [constructor|].
  rewrite insert_perm. now constructor.
Qed.

Lemma insert_sorted (l : list string) (s : string) (sorted : list string) :
  StronglySorted (fun a b => count_str l b <= count_str l a) sorted ->
  StronglySorted (fun a b => count_str l b <= count_str l a)
                 (insert l s sorted).
Proof.
  intros H. induction H as [|t rest Hrest IH Ht]; simpl.
  - repeat constructor.
  - destruct (Nat.ltb_spec (count_str l s) (count_str l t)) as [Hlt|Hge].
    + constructor; [exact IH|].
      rewrite Forall_forall in *. intros x Hx.
      apply (Permutation_in _ (insert_perm l s rest)) in Hx.
      destruct Hx as [<-|Hx]; [lia | now apply Ht].
    + constructor; [now constructor|].
      constructor; [lia|].
      rewrite Forall_forall in *. intros x Hx. specialize (Ht x Hx). lia.
Qed.

Lemma index_sorted (l : list string) :
  StronglySorted (fun a b => count_str l b <= count_str l a) (index l).
Proof.
  unfold index. induction (distinct l) as [|s ks IH]; simpl.
  - constructor.
  - now apply insert_sorted.
Qed.

End CountSort.

#[export] Instance DemoPandas : PandasLib := {|
  num_str := fun x => decimal (Z.to_nat (Qnum (this x)));
  value_counts_index := CountSort.index;
  value_counts_index_perm := CountSort.index_perm;
  value_counts_index_sorted := CountSort.index_sorted
|}.

(** *** Facts on the bars *)

Lemma in_strs_In (s : string) (l : list string) :
  in_strs s l = true <-> In s l.
Proof.
  unfold in_strs. destruct (in_dec string_dec s l); split; auto.
  discriminate.
Qed.

Lemma in_strs_not_In (s : string) (l : list string) :
  in_strs s l = false <-> ~ In s l.
Proof.
  unfold in_strs. destruct (in_dec string_dec s l); split; auto.
  - discriminate.
  - contradiction.
Qed.

Lemma count_str_cons (a s : string) (l : list string) :
  count_str (a :: l) s = (if string_dec a s then 1 else 0) + count_str l s.
Proof.
  unfold count_str. simpl. destruct (string_dec a s); reflexivity.
Qed.

Lemma list_sum_cons (x : nat) (l : list nat) :
  list_sum (x :: l) = x + list_sum l.
Proof. reflexivity. Qed.

Lemma sum_indicator (a : string) (ks : list string) :
  NoDup ks ->
  list_sum (map (fun k => if string_dec a k then 1 else 0) ks)
  = if in_dec string_dec a ks then 1 else 0.
Proof.
  induction ks as [|k ks IH]; intros Hnd; [reflexivity|].
  inversion Hnd as [|? ? Hk Hnd']; subst. cbn [map].
  rewrite list_sum_cons, (IH Hnd').
  destruct (string_dec a k) as [->|Hne].
  - destruct (in_dec string_dec k ks); [contradiction|].
    destruct (in_dec string_dec k (k :: ks)) as [_|Hn];
      [reflexivity | exfalso; apply Hn; now left].
  - destruct (in_dec string_dec a ks) as [Hin|Hn];
      destruct (in_dec string_dec a (k :: ks)) as [Hin'|Hn']; try reflexivity.
    + exfalso. apply Hn'. now right.
    + destruct Hin' as [E|Hin']; [congruence | contradiction].
Qed.

Lemma sum_counts (l ks : list string) :
  NoDup ks -> incl l ks ->
  list_sum (map (count_str l) ks) = length l.
Proof.
  intros Hnd. induction l as [|a l IH]; intros Hincl.
  - induction ks as [|k ks IHk]; [reflexivity|].
    inversion Hnd; subst. cbn [map]. rewrite list_sum_cons. now rewrite IHk.
  - assert (Ha : In a ks) by (apply Hincl; now left).
    assert (Hl : incl l ks) by (intros x Hx; apply Hincl; now right).
    assert (Hsplit : forall xs : list string,
               list_sum (map (count_str (a :: l)) xs)
               = list_sum (map (fun k => if string_dec a k then 1 else 0) xs)
                 + list_sum (map (count_str l) xs)).
    { intros xs. induction xs as [|x xs IHx]; [reflexivity|].
      cbn [map]. rewrite !list_sum_cons, IHx, count_str_cons. lia. }
    rewrite Hsplit, (IH Hl), (sum_indicator a ks Hnd).
    destruct (in_dec string_dec a ks); [reflexivity | contradiction].
Qed.

Lemma list_sum_perm (l l' : list nat) :
  Permutation l l' -> list_sum l = list_sum l'.
Proof.
  intros H. induction H; rewrite ?list_sum_cons; lia.
Qed.

Section BarFacts.

Context {P : PandasLib}.

Lemma vc_index_In (strs : list string) (s : string) :
  In s (value_counts_index strs) <-> In s strs.
Proof.
  split; intros H.
  - apply (Permutation_in _ (value_counts_index_perm strs)) in H.
    now apply nodup_In in H.
  - apply (Permutation_in _ (Permutation_sym (value_counts_index_perm strs))).
    now apply nodup_In.
Qed.

Lemma vc_index_NoDup (strs : list string) : NoDup (value_counts_index strs).
Proof.
  eapply Permutation_NoDup;
    [symmetry; apply value_counts_index_perm | apply NoDup_nodup].
Qed.

Lemma vc_loc_incl (strs labels : list string) :
  incl labels (value_counts_index strs) ->
  Plot.vc_loc strs labels = Ok (map (count_str strs) labels).
Proof.
  induction labels as [|c rest IH]; intros H; [reflexivity|].
  cbn [Plot.vc_loc map].
  rewrite (proj2 (in_strs_In c _)) by (apply H; now left).
  rewrite IH by (intros x Hx; apply H; now right). reflexivity.
Qed.

Lemma ordered_labels_incl (vc_index : list string)
    (order : option (list string)) :
  incl (Plot.ordered_labels vc_index order) vc_index.
Proof.
  destruct order as [[|c o]|]; try apply incl_refl.
  unfold Plot.ordered_labels. intros x Hx. apply in_app_or in Hx.
  destruct Hx as [Hx|Hx]; apply filter_In in Hx.
  - now apply in_strs_In.
  - exact (proj1 Hx).
Qed.

Lemma ordered_labels_perm (vc_index : list string)
    (order : option (list string)) :
  NoDup vc_index ->
  match order with Some o => NoDup o | None => True end ->
  Permutation (Plot.ordered_labels vc_index order) vc_index.
Proof.
  intros Hvc Ho. destruct order as [[|c o]|]; try reflexivity.
  unfold Plot.ordered_labels.
  set (present := filter (fun c0 => in_strs c0 vc_index) (c :: o)).
  assert (Hp : NoDup present) by (apply NoDup_filter, Ho).
  assert (Hpin : forall x, In x present -> In x vc_index).
  { intros x Hx. apply filter_In in Hx. now apply in_strs_In. }
  transitivity (filter (fun c0 => in_strs c0 present) vc_index
                ++ filter (fun c0 => negb (in_strs c0 present)) vc_index).
  - apply Permutation_app_tail. apply NoDup_Permutation.
    + exact Hp.
    + now apply NoDup_filter.
    + intros x. rewrite filter_In, in_strs_In. split; intros H.
      * split; [now apply Hpin | exact H].
      * exact (proj2 H).
  - clearbody present. clear Hp Hpin Hvc.
    induction vc_index as [|x l IH]; [reflexivity|].
    cbn [filter]. destruct (in_strs x present); simpl.
    + now apply perm_skip.
    + rewrite <- Permutation_middle. now apply perm_skip.
Qed.

Lemma plot_histogram_eq (series : list value) (order : option (list string)) :
  let strs := map Plot.astype_str series in
  let ordered := Plot.ordered_labels (value_counts_index strs) order in
  Plot._plot_protocol_histogram series order
  = Ok (ordered, map (count_str strs) ordered).
Proof.
  intros strs ordered. unfold Plot._plot_protocol_histogram.
  fold strs. fold ordered.
  rewrite (vc_loc_incl strs ordered); [reflexivity|].
  apply ordered_labels_incl.
Qed.

(** X7. [_plot_protocol_histogram] never fails on a label: whatever order is
    requested (categories that do not occur, repeated categories, an empty
    list, none), it draws bars only for categories that occur in the series,
    each with the number of rows of its category, at least one. *)
Theorem histogram_bars_defined (series : list value)
    (order : option (list string)) :
  exists labels heights,
    Plot._plot_protocol_histogram series order = Ok (labels, heights)
    /\ heights = map (count_str (map Plot.astype_str series)) labels
    /\ (forall c, In c labels -> In c (map Plot.astype_str series))
    /\ Forall (fun h => 1 <= h) heights.
Proof.
  unfold Plot._plot_protocol_histogram.
  set (strs := map Plot.astype_str series).
  assert (Hincl := ordered_labels_incl (value_counts_index strs) order).
  rewrite (vc_loc_incl strs _ Hincl). cbn [bind].
  do 2 eexists. split; [reflexivity|]. split; [reflexivity|]. split.
  - intros c Hc. apply Hincl in Hc. now apply vc_index_In.
  - apply Forall_forall. intros h Hh. apply in_map_iff in Hh.
    destruct Hh as [c [<- Hc]]. apply Hincl in Hc.
    apply (proj1 (vc_index_In strs c)) in Hc.
    unfold count_str.
    apply (proj1 (count_occ_In string_dec strs c)) in Hc. lia.
Qed.

(** X8. When the requested order repeats no category (or there is none), the
    histogram has exactly one bar for each category of the series, and the
    heights of the bars add up to the number of rows. *)
Theorem histogram_bars_complete (series : list value)
    (order : option (list string)) :
  match order with Some o => NoDup o | None => True end ->
  exists labels heights,
    Plot._plot_protocol_histogram series order = Ok (labels, heights)
    /\ Permutation labels (nodup string_dec (map Plot.astype_str series))
    /\ list_sum heights = length series.
Proof.
  intros Ho. unfold Plot._plot_protocol_histogram.
  set (strs := map Plot.astype_str series).
  assert (Hincl := ordered_labels_incl (value_counts_index strs) order).
  assert (Hperm := ordered_labels_perm (value_counts_index strs) order
                     (vc_index_NoDup strs) Ho).
  rewrite (vc_loc_incl strs _ Hincl). cbn [bind].
  do 2 eexists. split; [reflexivity|]. split.
  - rewrite Hperm. apply value_counts_index_perm.
  - rewrite (list_sum_perm _ _ (Permutation_map (count_str strs) Hperm)).
    rewrite sum_counts.
    + unfold strs. apply length_map.
    + apply vc_index_NoDup.
    + intros x Hx. now apply vc_index_In.
Qed.

(** X9. The Test histogram of the view: when [udp], [tcp] and [icmp] all
    occur in the stratification column of the whole table and in that of
    Test, the first three bars are [udp], [tcp], [icmp], with [tcp] in the
    middle, followed by the other categories in the order of
    [value_counts]; when [tcp] does not occur in the whole table, no order
    is requested and the bars are in the order of [value_counts]. *)
Theorem test_histogram_order (full test : list value) :
  let F := map Plot.astype_str full in
  let T := map Plot.astype_str test in
  (In "udp" F -> In "tcp" F -> In "icmp" F ->
   In "udp" T -> In "tcp" T -> In "icmp" T ->
   exists heights,
     Plot._plot_protocol_histogram test (Plot.desired_test_order full)
     = Ok ("udp" :: "tcp" :: "icmp"
             :: filter (fun c => negb (in_strs c ["udp"; "tcp"; "icmp"]))
                       (value_counts_index T),
           heights))%string
  /\ (~ In "tcp"%string F ->
      exists heights,
        Plot._plot_protocol_histogram test (Plot.desired_test_order full)
        = Ok (value_counts_index T, heights)).
Proof.
  intros F T. split.
  - intros Hu Ht Hi Hu' Ht' Hi'.
    rewrite plot_histogram_eq. fold T. eexists. f_equal. f_equal.
    unfold Plot.desired_test_order. fold F.
    rewrite (proj2 (in_strs_In "tcp" F) Ht). cbn [filter].
    rewrite (proj2 (in_strs_In "udp" F) Hu), (proj2 (in_strs_In "tcp" F) Ht),
      (proj2 (in_strs_In "icmp" F) Hi).
    unfold Plot.ordered_labels. cbn [filter].
    rewrite (proj2 (in_strs_In "udp" _) (proj2 (vc_index_In T _) Hu')),
      (proj2 (in_strs_In "tcp" _) (proj2 (vc_index_In T _) Ht')),
      (proj2 (in_strs_In "icmp" _) (proj2 (vc_index_In T _) Hi')).
    reflexivity.
  - intros Hn. rewrite plot_histogram_eq. fold T. eexists. f_equal. f_equal.
    unfold Plot.desired_test_order. fold F.
    rewrite (proj2 (in_strs_not_In "tcp" F) Hn). reflexivity.
Qed.

End BarFacts.

(** ** [str.split(sep)] with a one-character separator, and its uses *)

(** The pieces of a string between the characters that satisfy [p]. *)
Fixpoint split_where (p : ascii -> bool) (s : string) : list string :=
  match s with
  | EmptyString => [EmptyString]
  | String a rest =>
      let pieces := split_where p rest in
      if p a then EmptyString :: pieces
      else match pieces with
           | h :: t => String a h :: t
           | [] => [String a EmptyString]
           end
  end.

(** [s.split(sep)] for a separator of one character. *)
Definition split_on (sep : ascii) (s : string) : list string :=
  split_where (fun a => Ascii.eqb a sep) s.

(** Some character of the string satisfies [p]. *)
Fixpoint has_where (p : ascii -> bool) (s : string) : bool :=
  match s with
  | EmptyString => false
  | String a rest => p a || has_where p rest
  end.

(** [c in s] for a character. *)
Definition has_char (c : ascii) (s : string) : bool :=
  has_where (fun a => Ascii.eqb a c) s.

(** [l[-1]], [IndexError] on the empty list. *)
Definition py_last {A : Type} (l : list A) : result A :=
  match rev l with
  | x :: _ => Ok x
  | [] => Raise IndexError
  end.

(** [file_name = raw_url.split('/')[-1]] in [analyze_arff_view]. *)
Definition file_name_of (raw_url : string) : result string :=
  py_last (split_on "/" raw_url).

(** [ALLOWED_HOSTS] of [settings.py], from the two environment variables
    ([None] when a variable is not set). *)
Definition allowed_hosts (env_hosts render_host : option string)
  : list string :=
  let env := match env_hosts with
             | Some s => s
             | None => "localhost,127.0.0.1"%string
             end in
  let hosts :=
    filter (fun h => negb (String.eqb h "")) (split_on "," env) in
  match render_host with
  | Some r =>
      if String.eqb r "" then hosts
      else if in_strs r hosts then hosts else hosts ++ [r]
  | None => hosts
  end.

Lemma split_where_nonempty (p : ascii -> bool) (s : string) :
  split_where p s <> [].
Proof.
  destruct s as [|a rest]; simpl; [discriminate|].
  destruct (p a); [discriminate|].
  destruct (split_where p rest); discriminate.
Qed.

Lemma split_where_clean (p : ascii -> bool) (s : string) :
  Forall (fun piece => has_where p piece = false) (split_where p s).
Proof.
  induction s as [|a rest IH]; simpl.
  - repeat constructor.
  - destruct (p a) eqn:E.
    + constructor; [reflexivity | exact IH].
    + destruct (split_where p rest) as [|h t]; inversion IH; subst.
      * repeat constructor. simpl. now rewrite E.
      * constructor; [|assumption]. simpl. now rewrite E.
Qed.

Lemma split_on_nonempty (sep : ascii) (s : string) : split_on sep s <> [].
Proof. apply split_where_nonempty. Qed.

Lemma split_on_no_sep (sep : ascii) (s : string) :
  Forall (fun piece => has_char sep piece = false) (split_on sep s).
Proof. apply split_where_clean. Qed.

Lemma split_on_concat (sep : ascii) (s : string) :
  String.concat (String sep EmptyString) (split_on sep s) = s.
Proof.
  unfold split_on. induction s as [|a rest IH]; [reflexivity|].
  cbn [split_where].
  destruct (split_where _ rest) as [|h t] eqn:E;
    [now apply split_where_nonempty in E|].
  destruct (Ascii.eqb_spec a sep) as [->|Hne].
  - change (String.concat (String sep "") ("" :: h :: t)%string)
      with (String sep (String.concat (String sep "") (h :: t))).
    now rewrite IH.
  - destruct t as [|z t].
    + cbn [String.concat] in *. now rewrite IH.
    + change (String.concat (String sep "") (String a h :: z :: t))
        with (String a (String.concat (String sep "") (h :: z :: t))).
      now rewrite IH.
Qed.

Lemma append_assoc_str (a b c : string) :
  ((a ++ b) ++ c)%string = (a ++ (b ++ c))%string.
Proof. induction a as [|x a IH]; simpl; [reflexivity | now rewrite IH]. Qed.

Lemma concat_snoc (sep : string) (l : list string) (x : string) :
  l <> [] ->
  String.concat sep (l ++ [x])
  = (String.concat sep l ++ sep ++ x)%string.
Proof.
  induction l as [|y l IH]; intros Hne; [congruence|].
  destruct l as [|z l]; [reflexivity|].
  change (String.concat sep ((y :: z :: l) ++ [x]))
    with (y ++ sep ++ String.concat sep ((z :: l) ++ [x]))%string.
  rewrite IH by discriminate.
  change (String.concat sep (y :: z :: l))
    with (y ++ sep ++ String.concat sep (z :: l))%string.
  now rewrite !append_assoc_str.
Qed.

Lemma py_last_snoc {A : Type} (l : list A) :
  l <> [] -> exists init x, l = init ++ [x] /\ py_last l = Ok x.
Proof.
  intros Hne. unfold py_last. destruct (rev l) as [|x r] eqn:E.
  - apply (f_equal (@rev A)) in E. rewrite rev_involutive in E. contradiction.
  - exists (rev r), x. split; [|reflexivity].
    apply (f_equal (@rev A)) in E. now rewrite rev_involutive in E.
Qed.

(** X10. The file name the view shows for a downloaded file is the part of
    the address after its last slash: taking it never fails, it holds no
    slash, and the address is the name itself or ends with a slash followed
    by the name. *)
Theorem file_name_of_spec (raw_url : string) :
  exists name,
    file_name_of raw_url = Ok name
    /\ has_char "/" name = false
    /\ (raw_url = name
        \/ exists before, raw_url = (before ++ "/" ++ name)%string).
Proof.
  unfold file_name_of.
  destruct (py_last_snoc (split_on "/" raw_url) (split_on_nonempty _ _))
    as [init [name [E Hl]]].
  exists name. split; [exact Hl|]. split.
  - assert (H := split_on_no_sep "/" raw_url). rewrite E in H.
    apply Forall_app in H. destruct H as [_ H]. now inversion H.
  - assert (H := split_on_concat "/" raw_url). rewrite E in H.
    destruct init as [|y init].
    + left. now rewrite <- H.
    + right. rewrite concat_snoc in H by discriminate.
      eexists. symmetry. exact H.
Qed.

Lemma count_str_drop_empty (l : list string) (r : string) :
  r <> EmptyString ->
  count_str (filter (fun h => negb (String.eqb h "")) l) r = count_str l r.
Proof.
  intros Hr. unfold count_str.
  induction l as [|x l IH]; [reflexivity|].
  cbn [filter]. destruct (String.eqb_spec x "") as [->|Hx]; cbn [negb].
  - cbn [count_occ]. destruct (string_dec "" r); [congruence | exact IH].
  - cbn [count_occ]. destruct (string_dec x r); now rewrite IH.
Qed.

(** X11. Every host of [ALLOWED_HOSTS] is a non-empty string; the hosts of
    the environment variable are its comma-separated pieces, in order,
    without the empty ones; and the host name the platform provides, when it
    is set and not empty, is among the allowed hosts, exactly once unless
    the variable lists it several times. *)
Theorem allowed_hosts_spec (env_hosts render_host : option string) :
  let hosts := allowed_hosts env_hosts render_host in
  Forall (fun h => h <> EmptyString) hosts
  /\ (exists extra,
        hosts
        = filter (fun h => negb (String.eqb h ""))
            (split_on ","
               match env_hosts with
               | Some s => s
               | None => "localhost,127.0.0.1"%string
               end)
          ++ extra
        /\ (extra = [] \/ exists r, render_host = Some r /\ extra = [r]))
  /\ (forall r, render_host = Some r -> r <> EmptyString ->
                In r hosts
                /\ (count_str (split_on ","
                                 match env_hosts with
                                 | Some s => s
                                 | None => "localhost,127.0.0.1"%string
                                 end) r <= 1 ->
                    count_str hosts r = 1)).
Proof.
  intros hosts. unfold hosts, allowed_hosts.
  set (env := match env_hosts with
              | Some s => s
              | None => "localhost,127.0.0.1"%string
              end).
  set (base := filter (fun h => negb (String.eqb h "")) (split_on "," env)).
  assert (Hbase : Forall (fun h => h <> EmptyString) base).
  { apply Forall_forall. intros h Hh. apply filter_In in Hh.
    destruct Hh as [_ Hh]. apply negb_true_iff, String.eqb_neq in Hh.
    exact Hh. }
  assert (Hcount : forall r, r <> EmptyString ->
                             count_str base r = count_str (split_on "," env) r)
    by (intros r Hr; now apply count_str_drop_empty).
  destruct render_host as [r|].
  - destruct (String.eqb_spec r "") as [->|Hr].
    + split; [exact Hbase|]. split.
      * exists []. rewrite app_nil_r. auto.
      * intros r' E Hne. inversion E; subst. contradiction.
    + destruct (in_strs r base) eqn:Hin.
      * split; [exact Hbase|]. split.
        -- exists []. rewrite app_nil_r. auto.
        -- intros r' E _. inversion E; subst r'.
           apply in_strs_In in Hin. split; [exact Hin|].
           intros Hle. rewrite (Hcount r Hr).
           apply (count_occ_In string_dec) in Hin. fold (count_str base r) in Hin.
           rewrite (Hcount r Hr) in Hin. lia.
      * split.
        -- apply Forall_app. split; [exact Hbase|]. now repeat constructor.
        -- split.
           ++ exists [r]. split; [reflexivity|]. right. eauto.
           ++ intros r' E _. inversion E; subst r'.
              apply in_strs_not_In in Hin. split.
              ** apply in_or_app. right. now left.
              ** intros _. unfold count_str.
                 rewrite count_occ_app. cbn [count_occ].
                 destruct (string_dec r r); [|congruence].
                 apply (count_occ_not_In string_dec) in Hin.
                 rewrite Hin. reflexivity.
  - split; [exact Hbase|]. split.
    + exists []. rewrite app_nil_r. auto.
    + intros r E. discriminate.
Qed.

(** ** The attribute names of the ARFF header

    [str.strip] and [str.split] cut at the characters [str.isspace] accepts.
    The model has those of ASCII; it is the code on ASCII text, which is what
    the statements below are about. *)

(** [c.isspace()] on ASCII: tab, line feed, vertical tab, form feed, carriage
    return, the four separators 28 .. 31, and space. *)
Definition is_space (a : ascii) : bool :=
  let n := nat_of_ascii a in
  ((9 <=? n) && (n <=? 13)) || ((28 <=? n) && (n <=? 32)).

Fixpoint lstrip_where (p : ascii -> bool) (s : string) : string :=
  match s with
  | EmptyString => EmptyString
  | String a rest => if p a then lstrip_where p rest else s
  end.

Fixpoint rstrip_where (p : ascii -> bool) (s : string) : string :=
  match s with
  | EmptyString => EmptyString
  | String a rest =>
      match rstrip_where p rest with
      | EmptyString => if p a then EmptyString else String a EmptyString
      | kept => String a kept
      end
  end.

(** [s.strip()] *)
Definition py_strip (s : string) : string :=
  lstrip_where is_space (rstrip_where is_space s).

(** [s.strip(chars)] *)
Definition strip_chars (chars : string) (s : string) : string :=
  lstrip_where (fun a => has_char a chars)
    (rstrip_where (fun a => has_char a chars) s).

(** [s.split()]: the maximal runs without whitespace. *)
Definition split_ws (s : string) : list string :=
  filter (fun piece => negb (String.eqb piece "")) (split_where is_space s).

(** The apostrophe and the quotation mark. *)
Definition quote_chars : string := String "039" (String "034" EmptyString).

(** The last character of a string. *)
Fixpoint last_char (s : string) : option ascii :=
  match s with
  | EmptyString => None
  | String a EmptyString => Some a
  | String _ rest => last_char rest
  end.

Module Arff.

Section Header.

Context {S : PyStr}.

(** The names one line of the file adds to [attribute_names]. *)
Definition names_of_line (line : string) : list string :=
  if String.prefix "@attribute" (lower (py_strip line))
  then match split_ws line with
       | _ :: name :: _ => [strip_chars quote_chars name]
       | _ => []
       end
  else [].

(** [attribute_names] after the loop over [file_content.split('\n')]. *)
Definition attribute_names (file_content : string) : list string :=
  flat_map names_of_line (split_on "010" file_content).

End Header.

End Arff.

(** *** Facts on stripping and splitting *)

Lemma lstrip_where_first (p : ascii -> bool) (s : string) (a : ascii)
    (rest : string) :
  lstrip_where p s = String a rest -> p a = false.
Proof.
  induction s as [|b s IH]; simpl; [discriminate|].
  destruct (p b) eqn:E; [exact IH|].
  intros H. inversion H; subst. exact E.
Qed.

Lemma lstrip_where_suffix (p : ascii -> bool) (s : string) :
  exists before, s = (before ++ lstrip_where p s)%string.
Proof.
  induction s as [|b s [before IH]]; simpl.
  - exists EmptyString. reflexivity.
  - destruct (p b).
    + exists (String b before). simpl. now rewrite <- IH.
    + exists EmptyString. reflexivity.
Qed.

Lemma last_char_append (a b : string) :
  b <> EmptyString -> last_char (a ++ b) = last_char b.
Proof.
  intros Hb. induction a as [|x a IH]; [reflexivity|].
  simpl. destruct (a ++ b)%string eqn:E; [|exact IH].
  destruct a; simpl in E; [contradiction | discriminate].
Qed.

Lemma rstrip_where_last (p : ascii -> bool) (s : string) (a : ascii) :
  last_char (rstrip_where p s) = Some a -> p a = false.
Proof.
  induction s as [|b s IH]; simpl; [discriminate|].
  destruct (rstrip_where p s) as [|c kept] eqn:E.
  - destruct (p b) eqn:Eb; simpl; [discriminate|].
    intros H. inversion H; subst. exact Eb.
  - intros H. apply IH. exact H.
Qed.

Lemma has_where_append (p : ascii -> bool) (a b : string) :
  has_where p (a ++ b) = has_where p a || has_where p b.
Proof.
  induction a as [|x a IH]; simpl; [reflexivity|].
  now rewrite IH, orb_assoc.
Qed.

Lemma lstrip_where_has (p q : ascii -> bool) (s : string) :
  has_where q s = false -> has_where q (lstrip_where p s) = false.
Proof.
  intros H. destruct (lstrip_where_suffix p s) as [before E].
  rewrite E, has_where_append in H. now apply orb_false_iff in H.
Qed.

Lemma rstrip_where_has (p q : ascii -> bool) (s : string) :
  has_where q s = false -> has_where q (rstrip_where p s) = false.
Proof.
  induction s as [|b s IH]; simpl; [reflexivity|].
  intros H. apply orb_false_iff in H. destruct H as [Hb Hs].
  specialize (IH Hs).
  destruct (rstrip_where p s) as [|c kept].
  - destruct (p b); simpl; [reflexivity | now rewrite Hb].
  - simpl. simpl in IH. now rewrite Hb, IH.
Qed.

Lemma strip_chars_clean (chars s : string) :
  (forall a rest, strip_chars chars s = String a rest ->
                  has_char a chars = false)
  /\ (forall a, last_char (strip_chars chars s) = Some a ->
                has_char a chars = false)
  /\ (forall q, has_where q s = false ->
                has_where q (strip_chars chars s) = false).
Proof.
  unfold strip_chars.
  set (p := fun a => has_char a chars).
  repeat split.
  - intros a rest H. exact (lstrip_where_first p _ a rest H).
  - intros a H.
    destruct (lstrip_where_suffix p (rstrip_where p s)) as [before E].
    destruct (lstrip_where p (rstrip_where p s)) as [|x kept] eqn:Ek;
      [discriminate|].
    apply (rstrip_where_last p s a). rewrite E.
    rewrite last_char_append by discriminate. exact H.
  - intros q H. now apply lstrip_where_has, rstrip_where_has.
Qed.

Lemma split_ws_clean (s : string) :
  Forall (fun piece => has_where is_space piece = false
                       /\ piece <> EmptyString) (split_ws s).
Proof.
  unfold split_ws. apply Forall_forall. intros piece H.
  apply filter_In in H. destruct H as [Hin Hne]. split.
  - assert (Hc := split_where_clean is_space s).
    rewrite Forall_forall in Hc. now apply Hc.
  - apply negb_true_iff in Hne. now apply String.eqb_neq.
Qed.

(** X12. Every attribute name the view reads from the header of an ASCII
    file is free of whitespace, and neither begins nor ends with an
    apostrophe or a quotation mark. *)
Theorem attribute_names_clean {S : PyStr} (file_content name : string) :
  is_ascii_text file_content = true ->
  In name (Arff.attribute_names file_content) ->
  has_where is_space name = false
  /\ (forall a rest, name = String a rest -> has_char a quote_chars = false)
  /\ (forall a, last_char name = Some a -> has_char a quote_chars = false).
Proof.
  intros _ Hin. unfold Arff.attribute_names in Hin.
  apply in_flat_map in Hin. destruct Hin as [line [_ Hin]].
  unfold Arff.names_of_line in Hin.
  destruct (String.prefix _ _); [|destruct Hin].
  assert (Hc := split_ws_clean line).
  destruct (split_ws line) as [|kw [|field rest]]; try destruct Hin.
  - subst name. inversion Hc as [|? ? _ Hc']; subst.
    inversion Hc' as [|? ? [Hfield _] _]; subst.
    destruct (strip_chars_clean quote_chars field) as [H1 [H2 H3]].
    repeat split.
    + now apply H3.
    + intros a r E. now apply (H1 a r).
    + exact H2.
  - destruct H.
Qed.

(** *** Reading back a header *)

Lemma split_where_none (p : ascii -> bool) (x : string) :
  has_where p x = false -> split_where p x = [x].
Proof.
  induction x as [|a x IH]; simpl; [reflexivity|].
  intros H. apply orb_false_iff in H. destruct H as [Ha Hx].
  rewrite Ha, (IH Hx). reflexivity.
Qed.

Lemma split_where_cut (p : ascii -> bool) (x : string) (c : ascii)
    (rest : string) :
  has_where p x = false -> p c = true ->
  split_where p (x ++ String c rest) = x :: split_where p rest.
Proof.
  intros Hx Hc. induction x as [|a x IH]; simpl.
  - now rewrite Hc.
  - simpl in Hx. apply orb_false_iff in Hx. destruct Hx as [Ha Hx].
    rewrite Ha, (IH Hx). reflexivity.
Qed.

Lemma split_on_concat_inv (sep : ascii) (lines : list string) :
  lines <> [] ->
  Forall (fun line => has_char sep line = false) lines ->
  split_on sep (String.concat (String sep EmptyString) lines) = lines.
Proof.
  intros Hne H. unfold split_on, has_char in *.
  induction H as [|x l Hx Hl IH]; [congruence|].
  destruct l as [|y l].
  - cbn [String.concat]. now apply split_where_none.
  - change (String.concat (String sep "") (x :: y :: l))
      with (x ++ String sep (String.concat (String sep "") (y :: l)))%string.
    rewrite split_where_cut; [|exact Hx | apply Ascii.eqb_refl].
    rewrite IH by discriminate. reflexivity.
Qed.

Lemma lstrip_where_keep (p : ascii -> bool) (a : ascii) (rest : string) :
  p a = false -> lstrip_where p (String a rest) = String a rest.
Proof. intros H. simpl. now rewrite H. Qed.

Lemma rstrip_where_keep (p : ascii -> bool) (s : string) (a : ascii) :
  last_char s = Some a -> p a = false -> rstrip_where p s = s.
Proof.
  intros Hl Ha. induction s as [|b s IH]; [reflexivity|].
  simpl in Hl. destruct s as [|c s'].
  - inversion Hl; subst. simpl. now rewrite Ha.
  - specialize (IH Hl).
    change (rstrip_where p (String b (String c s')))
      with (match rstrip_where p (String c s') with
            | EmptyString => if p b then EmptyString else String b EmptyString
            | kept => String b kept
            end).
    rewrite IH. reflexivity.
Qed.

Lemma is_space_lower (a : ascii) : is_space (ascii_lower a) = is_space a.
Proof. destruct a as [[] [] [] [] [] [] [] []]; reflexivity. Qed.

Lemma is_ascii_lower (a : ascii) :
  (nat_of_ascii (ascii_lower a) <? 128) = (nat_of_ascii a <? 128).
Proof. destruct a as [[] [] [] [] [] [] [] []]; reflexivity. Qed.

Lemma has_space_lower (s : string) :
  has_where is_space (lower_ascii_text s) = has_where is_space s.
Proof.
  induction s as [|a s IH]; simpl; [reflexivity|].
  now rewrite is_space_lower, IH.
Qed.

Lemma is_ascii_text_lower (s : string) :
  is_ascii_text (lower_ascii_text s) = is_ascii_text s.
Proof.
  induction s as [|a s IH]; simpl; [reflexivity|].
  now rewrite is_ascii_lower, IH.
Qed.

Lemma is_ascii_text_append (a b : string) :
  is_ascii_text (a ++ b) = is_ascii_text a && is_ascii_text b.
Proof.
  induction a as [|x a IH]; simpl; [reflexivity|].
  now rewrite IH, andb_assoc.
Qed.

Lemma lower_ascii_text_append (a b : string) :
  lower_ascii_text (a ++ b)
  = (lower_ascii_text a ++ lower_ascii_text b)%string.
Proof.
  induction a as [|x a IH]; simpl; [reflexivity | now rewrite IH].
Qed.

Lemma prefix_append (a b : string) : String.prefix a (a ++ b) = true.
Proof.
  induction a as [|x a IH]; simpl; [now destruct b|].
  destruct (ascii_dec x x); [exact IH | congruence].
Qed.

Lemma has_newline_space (s : string) :
  has_where is_space s = false -> has_char "010" s = false.
Proof.
  unfold has_char. induction s as [|a s IH]; simpl; [reflexivity|].
  intros H. apply orb_false_iff in H. destruct H as [Ha Hs].
  rewrite (IH Hs), orb_false_r.
  destruct (Ascii.eqb_spec a "010") as [->|]; [discriminate | reflexivity].
Qed.

(** A line [keyword name type] of a header, its fields separated by one
    space. *)
Definition attribute_line (field : string * string * string) : string :=
  let '(keyword, name, type) := field in
  (keyword ++ " " ++ name ++ " " ++ type)%string.

(** The fields a header line can be read back from: the keyword is
    [@attribute] in any case, the name and the type are not empty, ASCII and
    without whitespace, and the name neither begins nor ends with an
    apostrophe or a quotation mark. *)
Definition plain_field (field : string * string * string) : Prop :=
  let '(keyword, name, type) := field in
  lower_ascii_text keyword = "@attribute"%string
  /\ (is_ascii_text name = true /\ has_where is_space name = false
      /\ (exists a rest, name = String a rest
                         /\ has_char a quote_chars = false)
      /\ (exists a, last_char name = Some a
                    /\ has_char a quote_chars = false))
  /\ (is_ascii_text type = true /\ has_where is_space type = false
      /\ type <> EmptyString).

Lemma names_of_attribute_line {S : PyStr} (field : string * string * string) :
  plain_field field ->
  Arff.names_of_line (attribute_line field) = [snd (fst field)]
  /\ has_char "010" (attribute_line field) = false.
Proof.
  destruct field as [[kw name] ty].
  intros [Hkw [[Hna [Hns [[a [rest [En Ha]]] [z [Hz Hzq]]]]] [Hta [Hts Hte]]]].
  cbn [attribute_line fst snd].
  assert (Hkws : has_where is_space kw = false)
    by (rewrite <- has_space_lower, Hkw; reflexivity).
  assert (Hkwa : is_ascii_text kw = true)
    by (rewrite <- is_ascii_text_lower, Hkw; reflexivity).
  destruct kw as [|k kw']; [discriminate|].
  assert (Hk : is_space k = false)
    by (simpl in Hkws; now apply orb_false_iff in Hkws).
  set (line := (String k kw' ++ " " ++ name ++ " " ++ ty)%string).
  assert (Hlast : exists t, last_char line = Some t /\ is_space t = false).
  { unfold line. rewrite !last_char_append;
      try (destruct ty; [contradiction | discriminate]);
      try (destruct name; simpl; discriminate).
    clear - Hts Hte. induction ty as [|t ty IH]; [contradiction|].
    simpl in Hts. apply orb_false_iff in Hts. destruct Hts as [Ht Hts].
    destruct ty as [|t' ty']; [exists t; split; [reflexivity | exact Ht]|].
    apply IH; [exact Hts | discriminate]. }
  destruct Hlast as [t [Ht Hts']].
  assert (Hstrip : py_strip line = line).
  { unfold py_strip. rewrite (rstrip_where_keep is_space line t Ht Hts').
    unfold line. cbn [String.append]. now apply lstrip_where_keep. }
  assert (Hascii : is_ascii_text line = true).
  { unfold line. rewrite !is_ascii_text_append, Hkwa, Hna, Hta. reflexivity. }
  split.
  - unfold Arff.names_of_line. fold line.
    rewrite Hstrip, (lower_on_ascii line Hascii).
    unfold line at 1. rewrite lower_ascii_text_append, Hkw, prefix_append.
    unfold split_ws, line.
    change (String k kw' ++ " " ++ name ++ " " ++ ty)%string
      with (String k kw' ++ String " " (name ++ String " " ty))%string.
    rewrite (split_where_cut is_space (String k kw') " ") by auto.
    rewrite (split_where_cut is_space name " ") by auto.
    rewrite (split_where_none is_space ty Hts).
    cbn [filter].
    destruct (String.eqb_spec (String k kw') ""); [discriminate|].
    destruct (String.eqb_spec name "") as [->|_]; [discriminate|].
    destruct (String.eqb_spec ty ""); [contradiction|].
    cbn [negb]. f_equal. unfold strip_chars.
    rewrite (rstrip_where_keep _ name z Hz Hzq). rewrite En.
    now apply lstrip_where_keep.
  - apply has_newline_space in Hkws, Hns, Hts.
    unfold has_char in *. unfold line.
    rewrite !has_where_append, Hkws, Hns, Hts. reflexivity.
Qed.

(** X13. Reading the attribute names back: from a header made of lines
    [@attribute name type] (the keyword in any case, one space between the
    fields), whose names and types are ASCII, not empty and without
    whitespace, the names without an apostrophe or a quotation mark at
    either end, the view reads exactly the names, in order. *)
Theorem attribute_names_round_trip {S : PyStr}
    (fields : list (string * string * string)) :
  Forall plain_field fields ->
  Arff.attribute_names
    (String.concat (String "010" EmptyString) (map attribute_line fields))
  = map (fun field => snd (fst field)) fields.
Proof.
  intros H. unfold Arff.attribute_names.
  destruct fields as [|f fields].
  - cbn. unfold Arff.names_of_line.
    assert (E : py_strip "" = ""%string) by reflexivity.
    rewrite E, (lower_on_ascii "" eq_refl). reflexivity.
  - rewrite split_on_concat_inv.
    + induction H as [|g gs Hg Hgs IH]; [reflexivity|].
      cbn [map flat_map].
      rewrite (proj1 (names_of_attribute_line g Hg)), IH. reflexivity.
    + discriminate.
    + apply Forall_forall. intros line Hl. apply in_map_iff in Hl.
      destruct Hl as [g [<- Hg]]. rewrite Forall_forall in H.
      exact (proj2 (names_of_attribute_line g (H g Hg))).
Qed.

(** ** Small tables and refused seeds *)

(** X14. Which parts of the uniform split are empty depends on the number of
    rows only: Train is empty exactly for tables of at most one row,
    Validation exactly for tables of at most two rows, and Test only for the
    empty table. *)
Theorem uniform_split_empty_parts {R : RandomLib} (df : DataFrame)
    (seed : Z) :
  (0 <= seed)%Z ->
  exists train val test,
    Val._split_dataframe df seed = Ok (train, val, test)
    /\ (len train = 0 <-> len df <= 1)
    /\ (len val = 0 <-> len df <= 2)
    /\ (len test = 0 <-> len df = 0).
Proof.
  intros Hs. rewrite split_dataframe_eq by lia.
  unfold uniform_positions, cuts_at.
  set (n := len df).
  assert (Hp := shuffle_draw_perm (seed_sequence seed) n).
  assert (Hl := Permutation_length Hp). rewrite length_seq in Hl.
  change (6 # 10) with (Z.of_nat 6 # 10).
  change (8 # 10) with (Z.of_nat 8 # 10).
  rewrite !py_int_tenths.
  assert (H12 : 6 * n / 10 <= 8 * n / 10)
    by (apply Nat.Div0.div_le_mono; lia).
  assert (H2n : 8 * n / 10 <= n)
    by (apply Nat.Div0.div_le_upper_bound; lia).
  do 3 eexists. split; [reflexivity|].
  rewrite !len_select, slice_head_length, slice_mid_length,
    slice_tail_length by lia.
  rewrite Hl.
  assert (E6 := Nat.div_mod_eq (6 * n) 10).
  assert (E8 := Nat.div_mod_eq (8 * n) 10).
  assert (M6 := Nat.mod_upper_bound (6 * n) 10).
  assert (M8 := Nat.mod_upper_bound (8 * n) 10).
  revert H12 H2n E6 E8 M6 M8.
  generalize (6 * n / 10) ((6 * n) mod 10) (8 * n / 10) ((8 * n) mod 10).
  intros q1 m1 q2 m2 H12 H2n E6 E8 M6 M8. lia.
Qed.

(** X15. With valid ratios and a table of fewer than [2^53] rows, the
    stratified split fails with a [ValueError] in these cases and no other:
    the seed is negative; several columns bear the label name; or the label
    names a column and the table has no row or the seed is [2^32] or more (a
    seed the uniform split accepts). *)
Theorem stratified_value_error {R : RandomLib} (df : DataFrame)
    (label_col : string) (seed : Z) (r0 r1 r2 : Val64.float) :
  Val64.valid_ratios (r0, r1, r2) ->
  (Z.of_nat (len df) < 2 ^ 53)%Z ->
  Val64._stratified_split df label_col seed (r0, r1, r2) = Raise ValueError
  <-> ((seed < 0)%Z
       \/ column_position label_col (columns df) = Raise ValueError
       \/ (In label_col (columns df)
           /\ (rows df = [] \/ (2 ^ 32 <= seed)%Z))).
Proof.
  intros Hv Hn.
  destruct (valid_ratios_below_2 r0 r1 r2 Hv) as [H0 [H1 _]].
  assert (Hr : Val64.ratios_sum_ok (r0, r1, r2) = true) by apply Hv.
  destruct (Z.lt_ge_cases seed 0) as [Hneg|Hpos].
  { split; [now left | intros _; now apply stratified64_bad_seed]. }
  destruct (column_position label_col (columns df)) as [c|e] eqn:Hc.
  - assert (Hin : In label_col (columns df)).
    { destruct (in_dec string_dec label_col (columns df)) as [Hin|Hn'];
        [exact Hin|].
      apply column_position_KeyError in Hn'. congruence. }
    destruct (rows df) as [|r rs] eqn:Hrows.
    + split; [intros _; right; right; auto|].
      intros _. eapply stratified64_empty; eauto.
    + assert (Hne : rows df <> []) by (rewrite Hrows; discriminate).
      destruct (Z.lt_ge_cases seed (2 ^ 32)) as [Hs|Hs].
      * split.
        -- intros H. exfalso.
           rewrite (stratified_split64_eq r0 r1 H0 H1 df label_col c seed r2
                      Hr Hn (conj Hpos Hs) Hc Hne) in H.
           destruct (stratified_positions64 r0 r1 c seed (rows df))
             as [[pt pv] ps].
           discriminate.
        -- intros [H|[H|[_ [H|H]]]]; [lia | discriminate | discriminate | lia].
      * split; [intros _; right; right; auto|].
        intros _. eapply stratified64_big_seed; eauto.
  - rewrite (stratified64_no_column df label_col seed (r0, r1, r2) e
               Hr Hpos Hc).
    destruct (column_position_raises _ _ _ Hc) as [->| ->].
    + split; [discriminate|].
      apply column_position_KeyError in Hc.
      intros [H|[H|[Hin _]]]; [lia | discriminate | contradiction].
    + split; auto.
Qed.

(** ** The trusted origins of the settings *)

(** [CSRF_TRUSTED_ORIGINS], from the environment variables
    [CSRF_TRUSTED_ORIGINS] and [RENDER_EXTERNAL_HOSTNAME] ([None] when
    unset). *)
Definition csrf_trusted_origins (csrf_from_env render_host : option string)
  : list string :=
  let from_render :=
    match render_host with
    | Some r => if String.eqb r "" then [] else [("https://" ++ r)%string]
    | None => []
    end in
  match csrf_from_env with
  | Some s =>
      if String.eqb s "" then from_render
      else map py_strip
             (filter (fun u => negb (String.eqb (py_strip u) ""))
                (split_on "," s))
  | None => from_render
  end.

Lemma py_strip_clean (s : string) :
  (forall a rest, py_strip s = String a rest -> is_space a = false)
  /\ (forall a, last_char (py_strip s) = Some a -> is_space a = false)
  /\ (forall q, has_where q s = false -> has_where q (py_strip s) = false).
Proof.
  unfold py_strip. repeat split.
  - intros a rest H. exact (lstrip_where_first is_space _ a rest H).
  - intros a H.
    destruct (lstrip_where_suffix is_space (rstrip_where is_space s))
      as [before E].
    destruct (lstrip_where is_space (rstrip_where is_space s))
      as [|x kept] eqn:Ek; [discriminate|].
    apply (rstrip_where_last is_space s a). rewrite E.
    rewrite last_char_append by discriminate. exact H.
  - intros q H. now apply lstrip_where_has, rstrip_where_has.
Qed.

(** X16. When the variable [CSRF_TRUSTED_ORIGINS] is set to a non-empty
    ASCII string, the trusted origins come from it alone, whatever the
    Render host name: each is a comma-separated piece of the variable with
    the whitespace stripped, is not empty, has no comma, and neither begins
    nor ends with whitespace. *)
Theorem csrf_origins_from_env (s : string) (render_host : option string) :
  s <> EmptyString ->
  is_ascii_text s = true ->
  Forall (fun origin =>
            (exists piece, In piece (split_on "," s)
                           /\ origin = py_strip piece)
            /\ origin <> EmptyString
            /\ has_char "," origin = false
            /\ (forall a rest, origin = String a rest -> is_space a = false)
            /\ (forall a, last_char origin = Some a -> is_space a = false))
    (csrf_trusted_origins (Some s) render_host).
Proof.
  intros Hne _. unfold csrf_trusted_origins.
  destruct (String.eqb_spec s ""); [contradiction|].
  apply Forall_forall. intros origin Hin.
  apply in_map_iff in Hin. destruct Hin as [piece [<- Hin]].
  apply filter_In in Hin. destruct Hin as [Hin Hkeep].
  destruct (py_strip_clean piece) as [H1 [H2 H3]].
  split; [exists piece; auto|]. split; [|split; [|split]].
  - apply negb_true_iff in Hkeep. now apply String.eqb_neq.
  - apply H3. assert (Hc := split_on_no_sep "," s).
    rewrite Forall_forall in Hc. now apply Hc.
  - exact H1.
  - exact H2.
Qed.

(** ** The properties on examples

    The random library is [LcgRandom], the strings are ASCII and the
    categories are counted by [DemoPandas]. *)

Module DemoView.

Local Open Scope string_scope.

Definition packet (i : Z) (protocol : value) : row :=
  mk_row i [Num (Q2Qc (inject_Z i)); protocol].

(** Seven packets; the header writes the protocol column with capitals. *)
Definition traffic : DataFrame :=
  mk_frame ["duration"; "Protocol_Type"]
    [packet 0 (Text "tcp"); packet 1 (Text "udp"); packet 2 (Text "tcp");
     packet 3 (Text "icmp"); packet 4 (Text "tcp"); packet 5 Missing;
     packet 6 (Text "udp")].

Definition empty_traffic : DataFrame :=
  mk_frame ["duration"; "Protocol_Type"] [].

Definition protocols : list value :=
  [Text "tcp"; Text "udp"; Text "tcp"; Text "icmp"; Text "tcp"; Missing;
   Text "udp"].

Definition test_protocols : list value :=
  [Text "icmp"; Text "tcp"; Text "other"; Text "udp"; Text "tcp"].

Definition header : string :=
  "@attribute 'duration' real".

Definition fields : list (string * string * string) :=
  [("@ATTRIBUTE", "duration", "real");
   ("@attribute", "protocol_type", "{tcp,udp,icmp}")].

End DemoView.

Lemma pt_col_last_match_witness :
  exists before after,
    ["a"; "Protocol_Type"; "b"; "PROTOCOL_TYPE"; "c"]%string
    = before ++ "PROTOCOL_TYPE"%string :: after
    /\ lower "PROTOCOL_TYPE" = "protocol_type"%string
    /\ forall c', In c' after -> lower c' <> "protocol_type"%string.
Proof.
  exact (@pt_col_last_match AsciiStr
           ["a"; "Protocol_Type"; "b"; "PROTOCOL_TYPE"; "c"]%string).
Defined.

Lemma view_split_exact_partition_witness :
  exists train val test pt pv ps,
    View.split DemoView.traffic = Ok (train, val, test)
    /\ Permutation (pt ++ pv ++ ps) (seq 0 (len DemoView.traffic))
    /\ same_cells train (select DemoView.traffic pt)
    /\ same_cells val (select DemoView.traffic pv)
    /\ same_cells test (select DemoView.traffic ps).
Proof.
  apply (@view_split_exact_partition LcgRandom AsciiStr DemoView.traffic).
  - discriminate.
  - apply NoDup_cons; [simpl; intros [H|[]]; discriminate|].
    apply NoDup_cons; [simpl; tauto|]. apply NoDup_nil.
Defined.

Lemma view_split_raises_witness :
  View.split DemoView.empty_traffic = Raise ValueError.
Proof.
  apply (@view_split_raises LcgRandom AsciiStr DemoView.empty_traffic
           ValueError).
  split; [reflexivity|]. exists "Protocol_Type"%string.
  split; [reflexivity | left; reflexivity].
Defined.

Lemma name_columns_shape_witness :
  length (columns (name_columns ["only"%string] Demo.table)) = 2
  /\ rows (name_columns ["only"%string] Demo.table) = rows Demo.table
  /\ NoDup (columns (name_columns ["only"%string] Demo.table)).
Proof.
  destruct (name_columns_shape ["only"%string] Demo.table) as [H1 [H2 H3]].
  split; [exact H1|]. split; [exact H2|]. apply H3. simpl. discriminate.
Defined.

Lemma mismatched_header_uniform_witness :
  View.pt_col (columns (name_columns ["protocol_type"%string] Demo.table))
  = None
  /\ exists train val test,
       View.split (name_columns ["protocol_type"%string] Demo.table)
       = Ok (train, val, test)
       /\ len train = 6 /\ len val = 2 /\ len test = 2.
Proof.
  destruct (@mismatched_header_uniform LcgRandom AsciiStr
              ["protocol_type"%string] Demo.table) as [H1 [_ H2]].
  - simpl. discriminate.
  - split; [exact H1 | exact H2].
Defined.

Lemma stratified_rare_labels_witness :
  exists train val test,
    Val64._stratified_split Demo.table "label" 42 Demo.ratios64
    = Ok (train, val, test)
    /\ count_label 1 Missing train = 0
    /\ count_label 1 Missing val = 0
    /\ count_label 1 Missing test = 1.
Proof.
  destruct (@stratified_rare_labels LcgRandom Demo.table "label" 1 42
              Float64.f0_6 Float64.f0_2 Float64.f0_2)
    as [train [val [test [E H]]]].
  - discriminate.
  - vm_compute. reflexivity.
  - exact valid_ratios_default.
  - exact seed32_42.
  - reflexivity.
  - exists train, val, test. split; [exact E|].
    destruct (H Missing) as [_ [Ht [Hv Hs]]].
    split; [apply Ht; reflexivity|].
    split; [apply Hv; reflexivity|].
    apply Hs; reflexivity.
Defined.

Lemma histogram_bars_defined_witness :
  exists labels heights,
    Plot._plot_protocol_histogram DemoView.protocols
      (Some ["icmp"; "smtp"; "udp"]%string)
    = Ok (labels, heights)
    /\ heights
       = map (count_str (map Plot.astype_str DemoView.protocols)) labels
    /\ (forall c, In c labels ->
                  In c (map Plot.astype_str DemoView.protocols))
    /\ Forall (fun h => 1 <= h) heights.
Proof.
  exact (@histogram_bars_defined DemoPandas DemoView.protocols
           (Some ["icmp"; "smtp"; "udp"]%string)).
Defined.

Lemma histogram_bars_complete_witness :
  exists labels heights,
    Plot._plot_protocol_histogram DemoView.protocols
      (Some ["udp"; "tcp"]%string)
    = Ok (labels, heights)
    /\ Permutation labels
         (nodup string_dec (map Plot.astype_str DemoView.protocols))
    /\ list_sum heights = length DemoView.protocols.
Proof.
  apply (@histogram_bars_complete DemoPandas DemoView.protocols
           (Some ["udp"; "tcp"]%string)).
  apply NoDup_cons; [simpl; intros [H|[]]; discriminate|].
  apply NoDup_cons; [simpl; tauto|]. apply NoDup_nil.
Defined.

Lemma test_histogram_order_witness :
  exists heights,
    Plot._plot_protocol_histogram DemoView.test_protocols
      (Plot.desired_test_order DemoView.protocols)
    = Ok (["udp"; "tcp"; "icmp"; "other"]%string, heights).
Proof.
  apply (proj1 (@test_histogram_order DemoPandas DemoView.protocols
                  DemoView.test_protocols)); simpl; auto 10.
Defined.

Lemma allowed_hosts_spec_witness :
  In "c.com"%string
    (allowed_hosts (Some "a.com,,b.com"%string) (Some "c.com"%string))
  /\ count_str
       (allowed_hosts (Some "a.com,,b.com"%string) (Some "c.com"%string))
       "c.com" = 1.
Proof.
  destruct (allowed_hosts_spec (Some "a.com,,b.com"%string)
              (Some "c.com"%string)) as [_ [_ H]].
  destruct (H "c.com"%string eq_refl) as [Hin Hc]; [discriminate|].
  split; [exact Hin|]. apply Hc. vm_compute. lia.
Defined.

Lemma attribute_names_clean_witness :
  has_where is_space "duration" = false
  /\ (forall a rest, "duration"%string = String a rest ->
                     has_char a quote_chars = false)
  /\ (forall a, last_char "duration" = Some a ->
                has_char a quote_chars = false).
Proof.
  apply (@attribute_names_clean AsciiStr DemoView.header "duration").
  - reflexivity.
  - vm_compute. left. reflexivity.
Defined.

Lemma attribute_names_round_trip_witness :
  Arff.attribute_names
    (String.concat (String "010" EmptyString)
       (map attribute_line DemoView.fields))
  = ["duration"; "protocol_type"]%string.
Proof.
  apply (@attribute_names_round_trip AsciiStr DemoView.fields).
  apply Forall_cons; [|apply Forall_cons; [|apply Forall_nil]];
    (split; [reflexivity|]; split;
     [split; [reflexivity|]; split; [reflexivity|]; split;
      [eexists; eexists; split; reflexivity
      | eexists; split; reflexivity]
     | split; [reflexivity|]; split; [reflexivity | discriminate]]).
Defined.

Lemma uniform_split_empty_parts_witness :
  exists train val test,
    Val._split_dataframe Demo.table 42 = Ok (train, val, test)
    /\ (len train = 0 <-> len Demo.table <= 1)
    /\ (len val = 0 <-> len Demo.table <= 2)
    /\ (len test = 0 <-> len Demo.table = 0).
Proof.
  apply (@uniform_split_empty_parts LcgRandom Demo.table 42). lia.
Defined.

Lemma stratified_value_error_witness :
  Val64._stratified_split Demo.table "label" (2 ^ 32) Demo.ratios64
  = Raise ValueError.
Proof.
  apply (@stratified_value_error LcgRandom Demo.table "label" (2 ^ 32)
           Float64.f0_6 Float64.f0_2 Float64.f0_2).
  - exact valid_ratios_default.
  - vm_compute. reflexivity.
  - right. right. split; [simpl; auto | right; apply Z.le_refl].
Defined.

Lemma csrf_origins_from_env_witness :
  Forall (fun origin =>
            (exists piece,
                In piece (split_on "," " https://a.com , ,https://b.com")
                /\ origin = py_strip piece)
            /\ origin <> EmptyString
            /\ has_char "," origin = false
            /\ (forall a rest, origin = String a rest -> is_space a = false)
            /\ (forall a, last_char origin = Some a -> is_space a = false))
    (csrf_trusted_origins (Some " https://a.com , ,https://b.com"%string)
       (Some "x.onrender.com"%string)).
Proof.
  apply (csrf_origins_from_env " https://a.com , ,https://b.com"
           (Some "x.onrender.com"%string)).
  - discriminate.
  - reflexivity.
Defined.
